(** * PayPal transaction dashboard: the normalisation and aggregation pipeline

    A shallow embedding of the [Dashboard] component (parsing, inclusion and
    selection filters, chronological sort, running total, summary figures,
    upload handler) and of the selection logic of [MultiSelect], followed
    by the properties the specification states about them.  The component
    is there in two revisions: the one that filters by a set of merchants
    and a date range (module [Dashboard]), and the one that filters by a
    single merchant (module [SingleSelect]).

    Conventions of the embedding.
    - A JavaScript [number] that carries an amount is a rational, one of
      the two infinities, or NaN.  The operations of the first part are
      those of exact arithmetic; module [Binary64] rounds each result to
      the nearest binary64 value, as the engine does.
    - A time value (the number held by a [Date]) is [option Z]: an integral
      count of milliseconds since the epoch, or [None] for NaN, the time
      value of an Invalid Date.
    - A string is a [string] whose characters stand for code units below 256.
    - The local time zone belongs to the host; it is the class
      [HostTimeZone]. *)

From Stdlib Require Import ZArith QArith Qcanon Bool List Ascii String Lia.
From Stdlib Require Import Qabs Qround Qpower Lqa.
From Stdlib Require Import Sorted Permutation.
From Stdlib Require Import Decimal DecimalString.
Import ListNotations.

Local Open Scope string_scope.
Local Open Scope Z_scope.
Local Open Scope list_scope.

(** ** Numbers *)

Inductive number : Type :=
| NaN : number
| Infinity (negative : bool) : number
| Finite (q : Qc) : number.

Definition zero : number := Finite (Q2Qc 0).

(** [a + b] *)
Definition number_add (a b : number) : number :=
  match a, b with
  | NaN, _ | _, NaN => NaN
  | Infinity s, Infinity s' => if Bool.eqb s s' then Infinity s else NaN
  | Infinity s, Finite _ | Finite _, Infinity s => Infinity s
  | Finite x, Finite y => Finite (x + y)%Qc
  end.

(** [- a] *)
Definition number_neg (a : number) : number :=
  match a with
  | NaN => NaN
  | Infinity s => Infinity (negb s)
  | Finite x => Finite (- x)%Qc
  end.

(** [a - b] *)
Definition number_sub (a b : number) : number := number_add a (number_neg b).

Definition Qc_ltb (x y : Qc) : bool :=
  match (x ?= y)%Qc with Lt => true | _ => false end.

(** [a < b]; false as soon as one side is NaN *)
Definition number_lt (a b : number) : bool :=
  match a, b with
  | NaN, _ | _, NaN => false
  | Infinity s, Infinity s' => s && negb s'
  | Infinity s, Finite _ => s
  | Finite _, Infinity s => negb s
  | Finite x, Finite y => Qc_ltb x y
  end.

(** [a > b] *)
Definition number_gt (a b : number) : bool := number_lt b a.

(** [a === b] on numbers; NaN equals nothing *)
Definition number_strict_eq (a b : number) : bool :=
  match a, b with
  | NaN, _ | _, NaN => false
  | Infinity s, Infinity s' => Bool.eqb s s'
  | Finite x, Finite y => if Qc_eq_dec x y then true else false
  | _, _ => false
  end.

(** [a !== b] *)
Definition number_strict_neq (a b : number) : bool := negb (number_strict_eq a b).

Definition Math_abs (a : number) : number :=
  match a with
  | NaN => NaN
  | Infinity _ => Infinity false
  | Finite x => if Qc_ltb x (Q2Qc 0) then Finite (- x)%Qc else Finite x
  end.

(** ** Strings *)

(** White space and line terminators, the class [\s], below code unit 256. *)
Definition isWhiteSpace (c : ascii) : bool :=
  let n := nat_of_ascii c in
  (((9 <=? n) && (n <=? 13)) || (n =? 32) || (n =? 160))%nat.

Fixpoint String_filter (keep : ascii -> bool) (s : string) : string :=
  match s with
  | EmptyString => EmptyString
  | String c r => if keep c then String c (String_filter keep r) else String_filter keep r
  end.

(** [s.replace(/[,\s]/g, '')] *)
Definition replace_commas_spaces (s : string) : string :=
  String_filter (fun c => negb ((c =? ",")%char || isWhiteSpace c)) s.

(** [String.prototype.includes]: [sub] occurs in [s] at some position. *)
Fixpoint String_includes (s sub : string) : bool :=
  prefix sub s ||
  match s with
  | EmptyString => false
  | String _ r => String_includes r sub
  end.

(** [s.split(sep)] for a one-character separator. *)
Fixpoint split (sep : ascii) (s : string) : list string :=
  match s with
  | EmptyString => [EmptyString]
  | String c r =>
      if (c =? sep)%char then EmptyString :: split sep r
      else match split sep r with
           | h :: t => String c h :: t
           | [] => [String c EmptyString]
           end
  end.

Fixpoint trimStart (s : string) : string :=
  match s with
  | EmptyString => EmptyString
  | String c r => if isWhiteSpace c then trimStart r else s
  end.

Definition digit_value (hex : bool) (c : ascii) : option Z :=
  let n := Z.of_nat (nat_of_ascii c) in
  if ((48 <=? n) && (n <=? 57))%Z then Some (n - 48)
  else if (hex && (97 <=? n) && (n <=? 102))%Z then Some (n - 87)
  else if (hex && (65 <=? n) && (n <=? 70))%Z then Some (n - 55)
  else None.

(** The longest run of digits at the head of [s], and what follows it. *)
Fixpoint take_digits (hex : bool) (s : string) : list Z * string :=
  match s with
  | EmptyString => ([], EmptyString)
  | String c r =>
      match digit_value hex c with
      | Some d => let (ds, rest) := take_digits hex r in (d :: ds, rest)
      | None => ([], s)
      end
  end.

Definition digits_value (radix : Z) (ds : list Z) : Z :=
  fold_left (fun acc d => radix * acc + d) ds 0.

Definition split_sign (s : string) : bool * string :=
  match s with
  | String "+" r => (false, r)
  | String "-" r => (true, r)
  | _ => (false, s)
  end.

(** The lower-case mapping of one code unit below 256: the letters A to Z,
    and the accented capitals from U+00C0 to U+00DE, the multiplication
    sign U+00D7 apart, move up by 32. *)
Definition toLowerCase_unit (c : ascii) : ascii :=
  let n := nat_of_ascii c in
  if (((65 <=? n) && (n <=? 90))
      || ((192 <=? n) && (n <=? 222) && negb (n =? 215)))%nat
  then ascii_of_nat (n + 32)
  else c.

(** [s.toLowerCase()] *)
Fixpoint toLowerCase (s : string) : string :=
  match s with
  | EmptyString => EmptyString
  | String c r => String (toLowerCase_unit c) (toLowerCase r)
  end.

(** [String(n)] for a length [n]: its decimal numeral. *)
Definition Number_toString (n : nat) : string :=
  NilZero.string_of_uint (Nat.to_uint n).

(** The exponent denoted by a complete [ExponentPart] at the head of [s];
    0 when there is none (an [e] that no digit follows is not part of the
    literal). *)
Definition ExponentPart (s : string) : Z :=
  match s with
  | String c r =>
      if ((c =? "e") || (c =? "E"))%char then
        let (neg, r') := split_sign r in
        let (ds, _) := take_digits false r' in
        match ds with
        | [] => 0
        | _ => if neg then - digits_value 10 ds else digits_value 10 ds
        end
      else 0
  | EmptyString => 0
  end.

Definition pow10 (e : Z) : Q :=
  if (0 <=? e)%Z then inject_Z (10 ^ e) else (1 # Z.to_pos (10 ^ (- e)))%Q.

(** The value of the longest prefix of [s] that is a
    [StrUnsignedDecimalLiteral]; [None] when no prefix is one. *)
Definition StrUnsignedDecimalLiteral (s : string) : option number :=
  if prefix "Infinity" s then Some (Infinity false)
  else
    let (ip, r1) := take_digits false s in
    let (fp, r2) :=
      match r1 with
      | String "." r => take_digits false r
      | _ => ([], r1)
      end in
    match (ip ++ fp)%list with
    | [] => None
    | ds =>
        let e := ExponentPart r2 in
        Some (Finite (Q2Qc (inject_Z (digits_value 10 ds)
                            * pow10 (e - Z.of_nat (List.length fp)))))
    end.

(** The global [parseFloat]. *)
Definition parseFloat (s : string) : number :=
  let (neg, u) := split_sign (trimStart s) in
  match StrUnsignedDecimalLiteral u with
  | None => NaN
  | Some v => if neg then number_neg v else v
  end.

(** The global [parseInt] called with one argument: radix 10, or 16 after a
    [0x] prefix.  [None] is NaN. *)
Definition parseInt (s : string) : option Z :=
  let (neg, u) := split_sign (trimStart s) in
  let (hex, v) :=
    match u with
    | String "0" (String "x" r) | String "0" (String "X" r) => (true, r)
    | _ => (false, u)
    end in
  match fst (take_digits hex v) with
  | [] => None
  | ds => let n := digits_value (if hex then 16 else 10) ds in
          Some (if neg then - n else n)
  end.

(** ** Dates *)

(** [None] is NaN. *)
Definition TimeValue : Type := option Z.

(** The host's local time zone adjustment: [LocalTZA t true] is the offset
    of local time from UTC, in milliseconds, at the UTC instant [t];
    [LocalTZA t false] is that offset at the local time [t]. *)
Class HostTimeZone : Type := { LocalTZA : Z -> bool -> Z }.

Module JSDate.

Definition msPerDay : Z := 86400000.
Definition msPerHour : Z := 3600000.
Definition msPerMinute : Z := 60000.
Definition msPerSecond : Z := 1000.

(** A zone that keeps one offset from UTC all year. *)
Definition fixed_offset (minutes : Z) : HostTimeZone :=
  {| LocalTZA := fun _ _ => minutes * msPerMinute |}.

Definition Day (t : Z) : Z := t / msPerDay.

Definition DayFromYear (y : Z) : Z :=
  365 * (y - 1970) + (y - 1969) / 4 - (y - 1901) / 100 + (y - 1601) / 400.

Definition InLeapYear (y : Z) : bool :=
  if negb (y mod 4 =? 0)%Z then false
  else if negb (y mod 100 =? 0)%Z then true
  else (y mod 400 =? 0)%Z.

Definition DaysInMonth (y : Z) (m : Z) : Z :=
  if (m =? 1)%Z then (if InLeapYear y then 29 else 28)
  else if ((m =? 3) || (m =? 5) || (m =? 8) || (m =? 10))%Z then 30
  else 31.

(** Days of year [y] that precede its month [m] (0 is January). *)
Definition DaysBeforeMonth (y : Z) (m : Z) : Z :=
  fold_left (fun acc k => acc + DaysInMonth y (Z.of_nat k)) (seq 0 (Z.to_nat m)) 0.

Definition MakeTime (hour min sec ms : Z) : Z :=
  hour * msPerHour + min * msPerMinute + sec * msPerSecond + ms.

(** The day number of day [date] of month [month] (0-based, any integer)
    of year [year]. *)
Definition MakeDay (year month date : Z) : Z :=
  let ym := year + month / 12 in
  let mn := month mod 12 in
  DayFromYear ym + DaysBeforeMonth ym mn + date - 1.

Definition MakeDate (day time : Z) : Z := day * msPerDay + time.

Definition TimeClip (time : Z) : TimeValue :=
  if (8640000000000000 <? Z.abs time)%Z then None else Some time.

Section Host.
Context {tz : HostTimeZone}.

Definition LocalTime (t : Z) : Z := t + LocalTZA t true.
Definition UTC (t : Z) : Z := t - LocalTZA t false.

(** [new Date(year, month, date)]; an argument that is NaN (or
    [undefined]) is [None]. *)
Definition construct (year month date : option Z) : TimeValue :=
  match year, month, date with
  | Some y, Some m, Some dt =>
      let yr := if ((0 <=? y) && (y <=? 99))%Z then 1900 + y else y in
      TimeClip (UTC (MakeDate (MakeDay yr m dt) (MakeTime 0 0 0 0)))
  | _, _, _ => None
  end.

(** [d.setHours(hour, min, sec, ms)], as the new time value of [d]. *)
Definition setHours (d : TimeValue) (hour min sec ms : Z) : TimeValue :=
  match d with
  | None => None
  | Some tv =>
      let t := LocalTime tv in
      TimeClip (UTC (MakeDate (Day t) (MakeTime hour min sec ms)))
  end.
End Host.

(** [n] decimal digits at the head of [s], and what follows them. *)
Fixpoint fixed_digits (n : nat) (s : string) : option (Z * string) :=
  match n with
  | O => Some (0, s)
  | S n' =>
      match fixed_digits n' s with
      | Some (acc, String c r) =>
          match digit_value false c with
          | Some d => Some (10 * acc + d, r)
          | None => None
          end
      | _ => None
      end
  end.

(** [new Date(s)] for [s] in the date-only form [YYYY-MM-DD], which a date
    input emits: the first instant of that day in UTC.  Any other string
    is left to the engine's own heuristics by the language; it is an
    Invalid Date here. *)
Definition parse (s : string) : TimeValue :=
  match fixed_digits 4 s with
  | Some (y, String "-" s1) =>
      match fixed_digits 2 s1 with
      | Some (m, String "-" s2) =>
          match fixed_digits 2 s2 with
          | Some (d, EmptyString) =>
              if ((1 <=? m) && (m <=? 12) && (1 <=? d) && (d <=? DaysInMonth y (m - 1)))%Z
              then TimeClip (MakeDate (MakeDay y (m - 1) d) 0)
              else None
          | _ => None
          end
      | _ => None
      end
  | _ => None
  end.

(** [a >= b] and [a <= b] on dates: comparisons of the two time values,
    false as soon as one is NaN. *)
Definition ge (a b : TimeValue) : bool :=
  match a, b with Some x, Some y => (y <=? x)%Z | _, _ => false end.
Definition le (a b : TimeValue) : bool :=
  match a, b with Some x, Some y => (x <=? y)%Z | _, _ => false end.

End JSDate.

(** ** Data model *)

Module Raw.
(** [interface RawTransaction]: a parsed row, its date still text. *)
Record RawTransaction : Type := mk {
  date : string;
  name : string;
  type : string;
  status : string;
  currency : string;
  amount : number
}.
End Raw.

Module Tx.
(** [interface Transaction]: the date resolved, the running total added. *)
Record Transaction : Type := mk {
  date : TimeValue;
  name : string;
  type : string;
  currency : string;
  amount : number;
  status : string;
  cumulativeAmount : number
}.

(** [{...transaction, cumulativeAmount}] *)
Definition with_cumulativeAmount (t : Transaction) (c : number) : Transaction :=
  mk (date t) (name t) (type t) (currency t) (amount t) (status t) c.
End Tx.

Abbreviation RawTransaction := Raw.RawTransaction.
Abbreviation Transaction := Tx.Transaction.

Inductive ViewMode : Type := transaction_view | timeline_view.

(** ** Arrays *)

(** [xs.includes(x)] on an array of strings. *)
Definition Array_includes (x : string) (xs : list string) : bool :=
  existsb (String.eqb x) xs.

(** [Array.from(new Set(xs))]: the distinct values of [xs], each at the
    place of its first occurrence. *)
Definition Set_from (xs : list string) : list string :=
  fold_left (fun seen x => if Array_includes x seen then seen else seen ++ [x]) xs [].

Section Sort.
Context {A : Type} (comparefn : A -> A -> option Z).

(** [comparefn a b > 0]: [a] is to come after [b].  A NaN result counts
    as +0. *)
Definition sorts_after (a b : A) : bool :=
  match comparefn a b with
  | Some v => (0 <? v)%Z
  | None => false
  end.

Fixpoint insert (x : A) (l : list A) : list A :=
  match l with
  | [] => [x]
  | y :: r => if sorts_after x y then y :: insert x r else x :: l
  end.

(** [xs.sort(comparefn)].  The language requires the sort to be stable
    and leaves the algorithm to the engine; with a consistent comparator
    every stable sort returns the same array ([Array_sort_unique] below,
    for the comparator of this program).  Stable insertion stands for the
    engine's algorithm. *)
Definition Array_sort (xs : list A) : list A := fold_right insert [] xs.
End Sort.

(** ** MultiSelect *)

Module MultiSelect.
Section Props.
Variables (options selected : list string).

Definition isAllSelected : bool :=
  Array_includes "all" selected
  || ((0 <? List.length options)%nat && (List.length selected =? List.length options)%nat).

Definition isIndeterminate : bool :=
  (0 <? List.length selected)%nat && negb (Array_includes "all" selected)
  && (List.length selected <? List.length options)%nat.

(** The selection handed to [onChange] by a click on "All Merchants". *)
Definition handleSelectAll : list string :=
  if isAllSelected then [] else ["all"].

(** The selection handed to [onChange] by a click on [option]. *)
Definition handleOptionClick (option : string) : list string :=
  let currentSelection := if Array_includes "all" selected then options else selected in
  let newSelected :=
    if Array_includes option currentSelection
    then filter (fun s => negb (s =? option)%string) currentSelection
    else currentSelection ++ [option] in
  if (List.length newSelected =? List.length options)%nat then ["all"] else newSelected.

Definition isSelected (option : string) : bool :=
  if Array_includes "all" selected then true else Array_includes option selected.

Definition getDisplayText : string :=
  if Array_includes "all" selected
     || ((0 <? List.length options)%nat && (List.length selected =? List.length options)%nat)
  then "All Merchants"
  else if (List.length selected =? 0)%nat then "Select Merchants..."
  else if (List.length selected =? 1)%nat then nth 0 selected ""
  else (Number_toString (List.length selected) ++ " Merchants Selected")%string.
End Props.

(** The options the open list shows for the text typed in the search box. *)
Definition filteredOptions (options : list string) (searchTerm : string) : list string :=
  filter (fun option => String_includes (toLowerCase option) (toLowerCase searchTerm))
         options.
End MultiSelect.

(** ** Dashboard, multi-select revision *)

Module Dashboard.

(** The component's state, one field per [useState]. *)
Record State : Type := mkState {
  rawTransactions : list RawTransaction;
  selectedMerchants : list string;
  viewMode : ViewMode;
  uploadedFiles : list string;
  startDate : string;
  endDate : string;
  isLoading : bool
}.

Definition initial : State :=
  mkState [] ["all"] transaction_view [] "" "" false.

Definition parseAmount (amountStr : string) : number :=
  if (amountStr =? "")%string then zero
  else parseFloat (replace_commas_spaces amountStr).

Definition merchants (rawTransactions : list RawTransaction) : list string :=
  let names := Set_from (map Raw.name rawTransactions) in
  filter (fun name => negb (name =? "")%string) names.

(** The conjunction named [isCompleted] in the filter callback. *)
Definition isCompleted (transaction : Transaction) : bool :=
  (Tx.status transaction =? "Completed")%string
  && number_strict_neq (Tx.amount transaction) zero
  && negb (String_includes (Tx.type transaction) "Currency Conversion")
  && negb (Tx.name transaction =? "")%string
  && negb (String_includes (Tx.type transaction) "General Authorization")
  && negb (String_includes (Tx.type transaction) "General Card Deposit")
  && negb (String_includes (Tx.type transaction) "Bank Deposit to PP Account").

Definition matchesMerchant (selectedMerchants : list string) (transaction : Transaction) : bool :=
  Array_includes "all" selectedMerchants
  || Array_includes (Tx.name transaction) selectedMerchants.

(** The comparator handed to [sort]: the difference of the two time
    values, NaN when one of them is. *)
Definition by_date (a b : Transaction) : option Z :=
  match Tx.date a, Tx.date b with
  | Some x, Some y => Some (x - y)
  | _, _ => None
  end.

(** The second [map] of [transactions]: one pass that carries the running
    total [cumulativeAmount] from element to element. *)
Fixpoint accumulate (cumulativeAmount : number) (l : list Transaction) : list Transaction :=
  match l with
  | [] => []
  | transaction :: rest =>
      let cumulativeAmount := number_add cumulativeAmount (Tx.amount transaction) in
      Tx.with_cumulativeAmount transaction cumulativeAmount :: accumulate cumulativeAmount rest
  end.

Section Host.
Context {tz : HostTimeZone}.

Definition parseDate (dateStr : string) : TimeValue :=
  let parts := map parseInt (split "/" dateStr) in
  let day := nth 0 parts None in
  let month := nth 1 parts None in
  let year := nth 2 parts None in
  JSDate.construct year (option_map (fun m => m - 1) month) day.

(** The first [map] of [transactions]. *)
Definition resolve (t : RawTransaction) : Transaction :=
  Tx.mk (parseDate (Raw.date t)) (Raw.name t) (Raw.type t) (Raw.currency t)
        (Raw.amount t) (Raw.status t) zero.

Definition matchesDate (startDate endDate : string) (transaction : Transaction) : bool :=
  let matchesDate := true in
  let matchesDate :=
    if (startDate =? "")%string then matchesDate
    else
      let start := JSDate.setHours (JSDate.parse startDate) 0 0 0 0 in
      matchesDate && JSDate.ge (Tx.date transaction) start in
  let matchesDate :=
    if (endDate =? "")%string then matchesDate
    else
      let end_ := JSDate.setHours (JSDate.parse endDate) 23 59 59 999 in
      matchesDate && JSDate.le (Tx.date transaction) end_ in
  matchesDate.

(** The callback of [filter] in [transactions]. *)
Definition keeps (selectedMerchants : list string) (startDate endDate : string)
           (transaction : Transaction) : bool :=
  isCompleted transaction
  && matchesMerchant selectedMerchants transaction
  && matchesDate startDate endDate transaction.

Definition filteredTransactions (rawTransactions : list RawTransaction)
           (selectedMerchants : list string) (startDate endDate : string) : list Transaction :=
  Array_sort by_date
    (filter (keeps selectedMerchants startDate endDate) (map resolve rawTransactions)).

Definition transactions (rawTransactions : list RawTransaction)
           (selectedMerchants : list string) (startDate endDate : string) : list Transaction :=
  accumulate zero (filteredTransactions rawTransactions selectedMerchants startDate endDate).
End Host.

Definition sum_amounts (l : list Transaction) : number :=
  fold_left (fun sum t => number_add sum (Tx.amount t)) l zero.

Definition totalIncoming (transactions : list Transaction) : number :=
  sum_amounts (filter (fun t => number_gt (Tx.amount t) zero) transactions).

Definition totalOutgoing (transactions : list Transaction) : number :=
  Math_abs (sum_amounts (filter (fun t => number_lt (Tx.amount t) zero) transactions)).

Definition netAmount (transactions : list Transaction) : number :=
  if (0 <? List.length transactions)%nat
  then match nth_error transactions (List.length transactions - 1) with
       | Some t => Tx.cumulativeAmount t
       | None => NaN
       end
  else zero.

(** What [Papa.parse] reports for a file: the rows handed to [complete],
    or the error handed to [error]. *)
Inductive ParseOutcome : Type :=
| complete (data : list (list string))
| error (e : string).

Record File : Type := mkFile { File_name : string; parse : ParseOutcome }.

Inductive Promise (A : Type) : Type :=
| resolved (a : A)
| rejected (e : string).
Arguments resolved {A} a.
Arguments rejected {A} e.

(** Cell [i] of a row.  The export has at least eight cells a row.  In a
    shorter row a missing cell is [undefined]; the empty string stands for
    it here.  The two differ for none of the tests this code applies to a
    raw transaction: both are unequal to "Completed", both are dropped from
    the merchant options, [parseAmount] answers 0 for both, and a row whose
    name or type is missing has no status either, so the test on the status
    rejects it before name and type are looked at. *)
Definition cell (row : list string) (i : nat) : string := nth i row "".

(** The callback of [map] in [processCSVFile]. *)
Definition parsedTransaction (row : list string) : RawTransaction :=
  Raw.mk (cell row 0) (cell row 3) (cell row 4) (cell row 5) (cell row 6)
         (parseAmount (cell row 7)).

Definition processCSVFile (file : File) : Promise (list RawTransaction) :=
  match parse file with
  | complete data => resolved (map parsedTransaction (skipn 1 data))
  | error e => rejected e
  end.

(** [Promise.all]: the array of the results when every promise resolves,
    a rejection as soon as one rejects.  Which rejection comes first is a
    matter of timing; the handler only logs it, and the first in the order
    of the array stands for it. *)
Fixpoint Promise_all {A : Type} (ps : list (Promise A)) : Promise (list A) :=
  match ps with
  | [] => resolved []
  | rejected e :: _ => rejected e
  | resolved a :: rest =>
      match Promise_all rest with
      | resolved l => resolved (a :: l)
      | rejected e => rejected e
      end
  end.

Definition setIsLoading (b : bool) (s : State) : State :=
  mkState (rawTransactions s) (selectedMerchants s) (viewMode s) (uploadedFiles s)
          (startDate s) (endDate s) b.

(** The state once [handleFileUpload] has run to its end on the files the
    user picked. *)
Definition handleFileUpload (files : list File) (s : State) : State :=
  match files with
  | [] => s
  | _ =>
      let s := setIsLoading true s in
      let s :=
        match Promise_all (map processCSVFile files) with
        | resolved allTransactions =>
            let combinedTransactions := List.concat allTransactions in
            mkState combinedTransactions ["all"] (viewMode s) (map File_name files)
                    (startDate s) (endDate s) (isLoading s)
        | rejected _ => s
        end in
      setIsLoading false s
  end.

End Dashboard.

(** ** Dashboard, single-select revision

    The revision of the component in [src/components/Dashboard.tsx]: one
    merchant is picked through a [<select>] whose first option is "all",
    and there is no date range.  It shares [parseDate], the sort and the
    running total with the revision above; what it words differently is
    given here. *)

Module SingleSelect.

Definition parseAmount (amountStr : string) : number :=
  if (amountStr =? "")%string then zero
  else parseFloat (replace_commas_spaces amountStr).

(** The options of the [<select>]: "all", shown as "All Merchants", then
    the names. *)
Definition merchants (rawTransactions : list RawTransaction) : list string :=
  let names := Set_from (map Raw.name rawTransactions) in
  filter (fun name => negb (name =? "")%string) ("all" :: names).

(** The callback of [filter] in [transactions]. *)
Definition keeps (selectedMerchant : string) (transaction : RawTransaction) : bool :=
  (Raw.status transaction =? "Completed")%string
  && number_strict_neq (Raw.amount transaction) zero
  && negb (String_includes (Raw.type transaction) "Currency Conversion")
  && negb (Raw.name transaction =? "")%string
  && negb (String_includes (Raw.type transaction) "General Authorization")
  && negb (String_includes (Raw.type transaction) "General Card Deposit")
  && negb (String_includes (Raw.type transaction) "Bank Deposit to PP Account")
  && ((selectedMerchant =? "all")%string
      || (Raw.name transaction =? selectedMerchant)%string).

(** [transactions]: here the filter runs on the raw rows, before the dates
    are resolved. *)
Definition transactions {tz : HostTimeZone} (rawTransactions : list RawTransaction)
           (selectedMerchant : string) : list Transaction :=
  let filteredTransactions :=
    Array_sort Dashboard.by_date
      (map Dashboard.resolve (filter (keeps selectedMerchant) rawTransactions)) in
  Dashboard.accumulate zero filteredTransactions.

End SingleSelect.

(** ** Vocabulary of the specification *)

(** [sub] occurs in [s]: case-sensitive, character for character. *)
Definition contains (s sub : string) : Prop :=
  exists pre post, s = (pre ++ sub ++ post)%string.

Definition is_decimal_digit (c : ascii) : Prop :=
  (48 <= nat_of_ascii c <= 57)%nat.

(** [s] begins with an unsigned decimal literal: [Infinity], a digit, or a
    point and a digit. *)
Definition numeric_head (s : string) : Prop :=
  (exists r, s = ("Infinity" ++ r)%string)
  \/ (exists c r, s = String c r /\ is_decimal_digit c)
  \/ (exists c r, s = String "." (String c r) /\ is_decimal_digit c).

(** [s] begins with a decimal literal, which an optional sign may precede. *)
Definition starts_numeric (s : string) : Prop :=
  exists sign rest,
    s = (sign ++ rest)%string
    /\ (sign = "" \/ sign = "+" \/ sign = "-")
    /\ numeric_head rest.

(** The characters a thousands-separated amount is cleared of. *)
Definition is_separator (c : ascii) : bool :=
  (c =? ",")%char || isWhiteSpace c.

(** The raw transactions a file contributes to a batch: the rows it parses
    to, none when its parse fails. *)
Definition parsed_rows (file : Dashboard.File) : list RawTransaction :=
  match Dashboard.processCSVFile file with
  | Dashboard.resolved rows => rows
  | Dashboard.rejected _ => []
  end.

(** The parse of [file] fails. *)
Definition fails_to_parse (file : Dashboard.File) : Prop :=
  exists e, Dashboard.processCSVFile file = Dashboard.rejected e.

(** The selections [MultiSelect] can hold over a fixed list of options: the
    initial one, and whatever a click hands to [onChange], which the parent
    passes back as [selected]. *)
Inductive emitted (options : list string) : list string -> Prop :=
| emitted_initial : emitted options ["all"]
| emitted_select_all (selected : list string) :
    emitted options selected ->
    emitted options (MultiSelect.handleSelectAll options selected)
| emitted_option_click (selected : list string) (option : string) :
    emitted options selected ->
    In option options ->
    emitted options (MultiSelect.handleOptionClick options selected option).

(** What holds of every selection [MultiSelect] holds or hands out. *)
Definition well_formed (options selected : list string) : Prop :=
  selected = ["all"]
  \/ (NoDup selected /\ incl selected options /\ ~ In "all" selected
      /\ ((List.length selected < List.length options)%nat \/ selected = [])).

(** [a] is dated no later than [b]; both dates are valid. *)
Definition no_later (a b : Transaction) : Prop :=
  JSDate.le (Tx.date a) (Tx.date b) = true.

(** Ascending order of date: every element is dated no later than every
    element that follows it. *)
Definition chronological (l : list Transaction) : Prop :=
  StronglySorted no_later l.

Definition valid_date (t : Transaction) : Prop := Tx.date t <> None.

(** [t] is dated [d]. *)
Definition dated (d : TimeValue) (t : Transaction) : bool :=
  match Tx.date t, d with
  | Some x, Some y => (x =? y)%Z
  | None, None => true
  | _, _ => false
  end.

(** [t] without its running total. *)
Definition untotalled (t : Transaction) : Transaction :=
  Tx.with_cumulativeAmount t zero.

(** The sum of the amounts of [l], taken from left to right. *)
Definition sum_of_amounts (l : list Transaction) : number :=
  fold_left number_add (map Tx.amount l) zero.

(** Three completed payments by one merchant; the date of the second does
    not parse. *)
Definition three_payments : list RawTransaction :=
  [ Raw.mk "02/01/2023" "Alice" "Payment" "Completed" "CAD" (Finite (Q2Qc 1));
    Raw.mk "n/a" "Alice" "Payment" "Completed" "CAD" (Finite (Q2Qc 1));
    Raw.mk "01/01/2023" "Alice" "Payment" "Completed" "CAD" (Finite (Q2Qc 1)) ].

(** Zero, a negative rational, or minus infinity. *)
Definition nonpositive (a : number) : Prop :=
  a = Infinity true \/ exists q, a = Finite q /\ (q <= Q2Qc 0)%Qc.

(** A working set as it comes out of a file whose one row has the amount
    [n/a]. *)
Definition unparseable_amount_file : Dashboard.File :=
  Dashboard.mkFile "export.csv"
    (Dashboard.complete
       [ ["Date"; "Time"; "TimeZone"; "Name"; "Type"; "Status"; "Currency"; "Amount"];
         ["01/01/2023"; "10:00:00"; "EST"; "Alice"; "Payment"; "Completed"; "CAD"; "n/a"] ]).

(** The first instant, in local time, of day [d] of month [m] (1 is
    January) of year [y]. *)
Definition first_instant_of_day {tz : HostTimeZone} (y m d : Z) : TimeValue :=
  JSDate.TimeClip (JSDate.UTC (JSDate.MakeDate (JSDate.MakeDay y (m - 1) d) 0)).

(** [a] is an instant strictly before [b]. *)
Definition strictly_before (a b : TimeValue) : Prop :=
  match a, b with
  | Some x, Some y => x < y
  | _, _ => False
  end.

(** A payment dated 14 January 2023. *)
Definition payment_14_January : RawTransaction :=
  Raw.mk "14/01/2023" "Alice" "Payment" "Completed" "CAD" (Finite (Q2Qc 20)).

(** Two completed payments by one merchant, the later one first. *)
Definition two_payments : list RawTransaction :=
  [ Raw.mk "20/03/2023" "Alice" "Payment" "Completed" "CAD" (Finite (Q2Qc 200));
    Raw.mk "15/03/2023" "Alice" "Payment" "Completed" "CAD" (Finite (Q2Qc (-50))) ].

(** A file of one payment, and a file that cannot be read. *)
Definition march_file : Dashboard.File :=
  Dashboard.mkFile "march.csv"
    (Dashboard.complete
       [ ["Date"; "Time"; "TimeZone"; "Name"; "Type"; "Status"; "Currency"; "Amount"];
         ["01/03/2023"; "10:00:00"; "EST"; "Alice"; "Payment"; "Completed"; "CAD"; "1,234.56"] ]).

Definition unreadable_file : Dashboard.File :=
  Dashboard.mkFile "april.csv" (Dashboard.error "NotReadableError").

(** A session in which a batch is held and both date bounds are set. *)
Definition filtered_session : Dashboard.State :=
  Dashboard.mkState two_payments ["Alice"] timeline_view ["old.csv"]
                    "2023-01-01" "2023-12-31" false.

(** An export of two rows, the second still pending. *)
Definition pending_file : Dashboard.File :=
  Dashboard.mkFile "january.csv"
    (Dashboard.complete
       [ ["Date"; "Time"; "TimeZone"; "Name"; "Type"; "Status"; "Currency"; "Amount"];
         ["01/01/2023"; ""; ""; "Alice"; "Payment"; "Completed"; "CAD"; "100.00"];
         ["02/01/2023"; ""; ""; "Alice"; "Payment"; "Pending"; "CAD"; "40.00"] ]).

(** ** Further vocabulary *)

(** Zero, a positive rational, or plus infinity. *)
Definition nonnegative (a : number) : Prop :=
  a = Infinity false \/ exists q, a = Finite q /\ (Q2Qc 0 <= q)%Qc.

(** How many times the code unit [c] occurs in [s]. *)
Fixpoint occurrences (c : ascii) (s : string) : nat :=
  match s with
  | EmptyString => 0%nat
  | String a r => ((if (a =? c)%char then 1 else 0) + occurrences c r)%nat
  end.

(** The text of a decimal numeral, leading zeros kept, and its value. *)
Definition numeral (u : Decimal.uint) : string := NilEmpty.string_of_uint u.
Definition numeral_value (u : Decimal.uint) : Z := Z.of_nat (Nat.of_uint u).

(** [d] is a day of month [m] (1 is January) of year [y]. *)
Definition calendar_date (y m d : Z) : Prop :=
  1 <= m <= 12 /\ 1 <= d <= JSDate.DaysInMonth y (m - 1).

(** The first date comes before the second in the calendar. *)
Definition calendar_before (y m d y' m' d' : Z) : Prop :=
  y < y' \/ (y = y' /\ (m < m' \/ (m = m' /\ d < d'))).

(** A capital letter below code unit 256: A to Z, or one from U+00C0 to
    U+00DE that is not the multiplication sign.  Its small letter is the
    code unit 32 above it. *)
Definition capital (c : ascii) : Prop :=
  (65 <= nat_of_ascii c <= 90)%nat
  \/ ((192 <= nat_of_ascii c <= 222)%nat /\ nat_of_ascii c <> 215%nat).

(** The same letter, capital or small. *)
Definition same_letter (a b : ascii) : Prop :=
  a = b
  \/ (capital a /\ nat_of_ascii b = (nat_of_ascii a + 32)%nat)
  \/ (capital b /\ nat_of_ascii a = (nat_of_ascii b + 32)%nat).

(** The same text, letter case apart. *)
Inductive same_text : string -> string -> Prop :=
| same_text_empty : same_text "" ""
| same_text_letter (a b : ascii) (s t : string) :
    same_letter a b -> same_text s t -> same_text (String a s) (String b t).

(** Some stretch of [s] is the text [sub], letter case apart. *)
Definition contains_ignoring_case (s sub : string) : Prop :=
  exists pre w post, s = (pre ++ w ++ post)%string /\ same_text w sub.

(** ** Binary64

    What the engine computes for a sum, a difference or a numeric literal
    is the Number value of the exact result: the binary64 value nearest to
    it, the one with the even significand of two equally near, and an
    infinity from 2^1024 on.  (The sign of a zero is not kept: no test of
    this program tells the two zeros apart.) *)

Module Binary64.

(** The integer part of the binary logarithm of a positive rational. *)
Definition ilog2 (q : Q) : Z :=
  let k := Z.log2 (Qnum q) - Z.log2 (Zpos (Qden q)) in
  if Qle_bool (2 ^ k) q then k else k - 1.

(** The integer nearest to [x], the even one of two equally near. *)
Definition roundTiesToEven (x : Q) : Z :=
  let f := Qfloor x in
  match (x - inject_Z f ?= 1 # 2)%Q with
  | Lt => f
  | Gt => f + 1
  | Eq => if Z.even f then f else f + 1
  end.

(** The Number value for the real [x]: 53 significant bits, the least
    exponent -1074. *)
Definition Number_value (x : Q) : number :=
  if Qeq_bool x 0 then zero
  else
    let a := Qabs x in
    let e := Z.max (ilog2 a - 52) (-1074) in
    let v := (inject_Z (roundTiesToEven (a / 2 ^ e)) * 2 ^ e)%Q in
    if Qle_bool (2 ^ 1024) v then Infinity (negb (Qle_bool 0 x))
    else Finite (Q2Qc (if Qle_bool 0 x then v else - v)).

Definition round (a : number) : number :=
  match a with
  | Finite q => Number_value q
  | _ => a
  end.

(** [a + b] and [a - b] *)
Definition add (a b : number) : number := round (number_add a b).
Definition sub (a b : number) : number := round (number_sub a b).

(** The global [parseFloat]: the Number value of the literal.  The language
    fixes that value for a literal of up to twenty significant digits;
    past the twentieth it lets an engine cut the literal there first.
    Here the whole literal is read. *)
Definition parseFloat (s : string) : number := round (parseFloat s).

Definition parseAmount (amountStr : string) : number :=
  if (amountStr =? "")%string then zero
  else parseFloat (replace_commas_spaces amountStr).

(** The second [map] of [transactions]. *)
Fixpoint accumulate (cumulativeAmount : number) (l : list Transaction) : list Transaction :=
  match l with
  | [] => []
  | transaction :: rest =>
      let cumulativeAmount := add cumulativeAmount (Tx.amount transaction) in
      Tx.with_cumulativeAmount transaction cumulativeAmount :: accumulate cumulativeAmount rest
  end.

Definition transactions {tz : HostTimeZone} (rawTransactions : list RawTransaction)
           (selectedMerchants : list string) (startDate endDate : string) : list Transaction :=
  accumulate zero
    (Dashboard.filteredTransactions rawTransactions selectedMerchants startDate endDate).

Definition sum_amounts (l : list Transaction) : number :=
  fold_left (fun sum t => add sum (Tx.amount t)) l zero.

Definition totalIncoming (transactions : list Transaction) : number :=
  sum_amounts (filter (fun t => number_gt (Tx.amount t) zero) transactions).

Definition totalOutgoing (transactions : list Transaction) : number :=
  Math_abs (sum_amounts (filter (fun t => number_lt (Tx.amount t) zero) transactions)).

End Binary64.

(** ** Vocabulary of the tolerance *)

(** A number that is neither NaN nor an infinity. *)
Definition finite (a : number) : Prop := exists q, a = Finite q.

(** The unit roundoff of binary64, and half its least positive value. *)
Definition unit_roundoff : Q := 2 ^ (-53).
Definition half_least : Q := 2 ^ (-1075).

Definition magnitude (a : number) : Q :=
  match a with
  | Finite q => Qabs q
  | _ => 0
  end.

(** The sum of the magnitudes of the amounts of [l]. *)
Definition sum_of_magnitudes (l : list Transaction) : Q :=
  fold_right (fun t s => magnitude (Tx.amount t) + s)%Q 0%Q l.

(** How far rounding can take apart the two sides of the decomposition,
    for [n] amounts of summed magnitude [A]. *)
Definition tolerance (n : nat) (A : Q) : Q :=
  (2 * ((1 + unit_roundoff) ^ (Z.of_nat n + 1) - 1) * A
   + inject_Z (2 * Z.of_nat n + 1) * (1 + unit_roundoff) ^ (Z.of_nat n + 1) * half_least)%Q.

(** Two finite numbers no more than [tol] apart. *)
Definition within (tol : Q) (a b : number) : Prop :=
  exists x y : Qc, a = Finite x /\ b = Finite y /\ (Qabs (x - y) <= tol)%Q.

(** ten to the power 308, four times, in and out in turn *)
Definition overflowing_payments : list RawTransaction :=
  [ Raw.mk "01/01/2023" "Alice" "Payment" "Completed" "USD" (Binary64.parseAmount "1e308");
    Raw.mk "02/01/2023" "Alice" "Payment" "Completed" "USD" (Binary64.parseAmount "-1e308");
    Raw.mk "03/01/2023" "Alice" "Payment" "Completed" "USD" (Binary64.parseAmount "1e308");
    Raw.mk "04/01/2023" "Alice" "Payment" "Completed" "USD" (Binary64.parseAmount "-1e308") ].

Definition infinite_payments : list RawTransaction :=
  [ Raw.mk "01/01/2023" "Alice" "Payment" "Completed" "USD" (Binary64.parseAmount "Infinity");
    Raw.mk "02/01/2023" "Alice" "Payment" "Completed" "USD" (Binary64.parseAmount "-Infinity") ].

(** The rational a finite number stands for. *)
Definition value (a : number) : Q :=
  match a with
  | Finite q => q
  | _ => 0
  end.

(** The sum of the amounts of [l] in exact arithmetic. *)
Definition exact_sum (l : list Transaction) : Q :=
  fold_right (fun t s => value (Tx.amount t) + s)%Q 0%Q l.

(** What [n] roundings in a row can multiply an error by. *)
Definition growth (n : nat) : Q := ((1 + unit_roundoff) ^ Z.of_nat n)%Q.

(** How far the rounded sum of [n] amounts of summed magnitude [A] can be
    from the exact one. *)
Definition sum_bound (n : nat) (A : Q) : Q :=
  ((growth n - 1) * A + inject_Z (Z.of_nat n) * growth n * half_least)%Q.

(** [Number.MAX_VALUE], the largest finite value. *)
Definition Number_MAX_VALUE : Q := (2 ^ 1024 - 2 ^ 971)%Q.

(** Three payments whose amounts are not binary fractions. *)
Definition rounded_payments : list RawTransaction :=
  [ Raw.mk "01/01/2023" "Alice" "Payment" "Completed" "USD" (Binary64.parseAmount "0.1");
    Raw.mk "02/01/2023" "Alice" "Payment" "Completed" "USD" (Binary64.parseAmount "-0.3");
    Raw.mk "03/01/2023" "Alice" "Payment" "Completed" "USD" (Binary64.parseAmount "0.2") ].

(** * Properties *)

(** ** Strings and arrays *)

Lemma prefix_iff (sub s : string) :
  prefix sub s = true <-> exists post, s = (sub ++ post)%string.
Proof.
  revert s. induction sub as [|a sub IH]; intros s; simpl.
  - split; [intros _; now exists s | now destruct s].
  - destruct s as [|b s]; simpl.
    + split; [discriminate | intros [post H]; discriminate].
    + destruct (ascii_dec a b) as [->|Hab].
      * rewrite IH. split; intros [post H]; exists post; congruence.
      * split; [discriminate | intros [post H]; congruence].
Qed.

Lemma String_includes_nil (sub : string) :
  String_includes "" sub = prefix sub "".
Proof. simpl. now rewrite orb_false_r. Qed.

Lemma String_includes_cons (c : ascii) (s sub : string) :
  String_includes (String c s) sub = prefix sub (String c s) || String_includes s sub.
Proof. reflexivity. Qed.

Lemma String_includes_iff (s sub : string) :
  String_includes s sub = true <-> contains s sub.
Proof.
  unfold contains. induction s as [|c s IH].
  - rewrite String_includes_nil, prefix_iff. split.
    + intros [post H]. now exists "", post.
    + intros [[|a pre] [post H]]; [now exists post | discriminate].
  - rewrite String_includes_cons, orb_true_iff, prefix_iff, IH. split.
    + intros [[post H] | [pre [post H]]].
      * now exists "", post.
      * exists (String c pre), post. simpl. now rewrite H.
    + intros [[|a pre] [post H]].
      * left. now exists post.
      * right. exists pre, post. simpl in H. congruence.
Qed.

Lemma String_includes_false_iff (s sub : string) :
  negb (String_includes s sub) = true <-> ~ contains s sub.
Proof.
  rewrite negb_true_iff, <- String_includes_iff.
  destruct (String_includes s sub); intuition congruence.
Qed.

Lemma nonempty_iff (s : string) : negb (s =? "")%string = true <-> s <> "".
Proof.
  rewrite negb_true_iff. destruct (String.eqb_spec s ""); intuition congruence.
Qed.

Lemma Array_includes_iff (x : string) (xs : list string) :
  Array_includes x xs = true <-> In x xs.
Proof.
  unfold Array_includes. rewrite existsb_exists. split.
  - intros [y [Hy Heq]]. apply String.eqb_eq in Heq. now subst.
  - intros H. exists x. split; [assumption | apply String.eqb_refl].
Qed.

Lemma Array_includes_false_iff (x : string) (xs : list string) :
  Array_includes x xs = false <-> ~ In x xs.
Proof.
  rewrite <- Array_includes_iff. destruct (Array_includes x xs); intuition congruence.
Qed.

Section SetFrom.
Let add (seen : list string) (x : string) : list string :=
  if Array_includes x seen then seen else seen ++ [x].

Lemma Set_from_acc_In (xs seen : list string) (x : string) :
  In x (fold_left add xs seen) <-> In x seen \/ In x xs.
Proof.
  revert seen. induction xs as [|y xs IH]; intros seen; simpl.
  - tauto.
  - rewrite IH. unfold add. destruct (Array_includes y seen) eqn:E.
    + apply Array_includes_iff in E. split; [tauto|].
      intros [H | [<- | H]]; tauto.
    + rewrite in_app_iff. simpl. tauto.
Qed.

Lemma Set_from_acc_NoDup (xs seen : list string) :
  NoDup seen -> NoDup (fold_left add xs seen).
Proof.
  revert seen. induction xs as [|y xs IH]; intros seen Hnd; simpl.
  - assumption.
  - apply IH. unfold add. destruct (Array_includes y seen) eqn:E.
    + assumption.
    + apply Array_includes_false_iff in E.
      apply NoDup_app; [assumption | repeat constructor; intros [] | ].
      intros a Ha [<- | []]. contradiction.
Qed.
End SetFrom.

Lemma Set_from_In (xs : list string) (x : string) : In x (Set_from xs) <-> In x xs.
Proof. unfold Set_from. rewrite Set_from_acc_In. simpl. tauto. Qed.

Lemma Set_from_NoDup (xs : list string) : NoDup (Set_from xs).
Proof. apply Set_from_acc_NoDup. constructor. Qed.

(** ** Inclusion filter *)

Lemma number_strict_neq_zero (a : number) :
  number_strict_neq a zero = true <-> a <> zero.
Proof.
  unfold number_strict_neq, zero. destruct a as [| s | x]; simpl.
  - split; [discriminate | reflexivity].
  - split; [discriminate | reflexivity].
  - destruct (Qc_eq_dec x (Q2Qc 0)) as [->|Hx]; simpl.
    + split; [discriminate | intros H; now elim H].
    + split; [intros _ H; injection H; assumption | reflexivity].
Qed.

Lemma isCompleted_true_iff (transaction : Transaction) :
  Dashboard.isCompleted transaction = true <->
  Tx.status transaction = "Completed"
  /\ Tx.amount transaction <> zero
  /\ ~ contains (Tx.type transaction) "Currency Conversion"
  /\ Tx.name transaction <> ""
  /\ ~ contains (Tx.type transaction) "General Authorization"
  /\ ~ contains (Tx.type transaction) "General Card Deposit"
  /\ ~ contains (Tx.type transaction) "Bank Deposit to PP Account".
Proof.
  unfold Dashboard.isCompleted.
  rewrite !andb_true_iff, String.eqb_eq, number_strict_neq_zero,
    !String_includes_false_iff, nonempty_iff.
  tauto.
Qed.

(** C2.  A transaction counts as real activity exactly when its status is
    the string "Completed", its amount is not zero, its name is not empty,
    and its type contains none of "Currency Conversion", "General
    Authorization", "General Card Deposit" and "Bank Deposit to PP Account",
    where containment is case-sensitive occurrence as a substring.  The
    single-select revision applies the same seven tests, together with its
    test on the merchant. *)
Theorem isCompleted_iff :
  (forall transaction : Transaction,
      Dashboard.isCompleted transaction = true <->
      Tx.status transaction = "Completed"
      /\ Tx.amount transaction <> zero
      /\ ~ contains (Tx.type transaction) "Currency Conversion"
      /\ Tx.name transaction <> ""
      /\ ~ contains (Tx.type transaction) "General Authorization"
      /\ ~ contains (Tx.type transaction) "General Card Deposit"
      /\ ~ contains (Tx.type transaction) "Bank Deposit to PP Account")
  /\ (forall (selectedMerchant : string) (transaction : RawTransaction),
         SingleSelect.keeps selectedMerchant transaction = true <->
         (Raw.status transaction = "Completed"
          /\ Raw.amount transaction <> zero
          /\ ~ contains (Raw.type transaction) "Currency Conversion"
          /\ Raw.name transaction <> ""
          /\ ~ contains (Raw.type transaction) "General Authorization"
          /\ ~ contains (Raw.type transaction) "General Card Deposit"
          /\ ~ contains (Raw.type transaction) "Bank Deposit to PP Account")
         /\ (selectedMerchant = "all" \/ Raw.name transaction = selectedMerchant)).
Proof.
  split; [exact isCompleted_true_iff|].
  intros selectedMerchant transaction. unfold SingleSelect.keeps.
  rewrite !andb_true_iff, orb_true_iff, !String.eqb_eq, number_strict_neq_zero,
    !String_includes_false_iff, nonempty_iff.
  tauto.
Qed.

(** ** Merchant universe *)

Lemma merchants_NoDup (rawTransactions : list RawTransaction) :
  NoDup (Dashboard.merchants rawTransactions).
Proof. apply NoDup_filter, Set_from_NoDup. Qed.

Lemma merchants_members (rawTransactions : list RawTransaction) (name : string) :
  In name (Dashboard.merchants rawTransactions) <->
  name <> "" /\ exists t, In t rawTransactions /\ Raw.name t = name.
Proof.
  unfold Dashboard.merchants.
  rewrite filter_In, Set_from_In, in_map_iff, nonempty_iff. split.
  - intros [[t [Hn Ht]] Hne]. split; [assumption | now exists t].
  - intros [Hne [t [Ht Hn]]]. split; [now exists t | assumption].
Qed.

Lemma SingleSelect_merchants (rawTransactions : list RawTransaction) :
  SingleSelect.merchants rawTransactions = "all" :: Dashboard.merchants rawTransactions.
Proof. reflexivity. Qed.

(** C6.  The merchant options are the distinct non-empty names of the raw
    transactions: no name twice, no empty name, nothing but observed names,
    and every non-empty name of every uploaded row, whatever its status,
    amount or type.  The options of the single-select revision are the
    entry "all" followed by these. *)
Theorem merchants_universe (rawTransactions : list RawTransaction) :
  NoDup (Dashboard.merchants rawTransactions)
  /\ (forall name : string,
         In name (Dashboard.merchants rawTransactions) <->
         name <> "" /\ exists t, In t rawTransactions /\ Raw.name t = name)
  /\ SingleSelect.merchants rawTransactions = "all" :: Dashboard.merchants rawTransactions.
Proof.
  split; [apply merchants_NoDup|].
  split; [apply merchants_members | reflexivity].
Qed.

(** ** Amount parsing *)

Lemma digit_value_decimal (c : ascii) :
  digit_value false c <> None <-> is_decimal_digit c.
Proof.
  unfold digit_value, is_decimal_digit. cbn [andb].
  destruct (Z.leb_spec 48 (Z.of_nat (nat_of_ascii c)));
    destruct (Z.leb_spec (Z.of_nat (nat_of_ascii c)) 57); cbn [andb];
    split; intros; try congruence; try lia.
Qed.

Lemma match_point {X : Type} (s : string) (f : string -> X) (b : X) :
  match s with String "." r => f r | _ => b end
  = match s with
    | String c r => if (c =? ".")%char then f r else b
    | EmptyString => b
    end.
Proof.
  destruct s as [|c r]; [reflexivity|].
  destruct c as [[] [] [] [] [] [] [] []]; reflexivity.
Qed.

Lemma split_sign_cases (s : string) :
  (exists r, s = String "+" r /\ split_sign s = (false, r))
  \/ (exists r, s = String "-" r /\ split_sign s = (true, r))
  \/ ((forall r, s <> String "+" r) /\ (forall r, s <> String "-" r)
      /\ split_sign s = (false, s)).
Proof.
  destruct s as [|c r].
  - right; right. repeat split; discriminate.
  - destruct (ascii_dec c "+") as [->|Hp]; [left; now exists r|].
    destruct (ascii_dec c "-") as [->|Hm]; [right; left; now exists r|].
    right; right. repeat split; try congruence.
    destruct c as [[] [] [] [] [] [] [] []]; try reflexivity; congruence.
Qed.

Lemma numeric_head_not_sign (s : string) :
  numeric_head s -> (forall r, s <> String "+" r) /\ (forall r, s <> String "-" r).
Proof.
  intros [[r ->] | [[c [r [-> Hc]]] | [c [r [-> _]]]]];
    split; intros r' H; try discriminate.
  all: injection H as -> _; unfold is_decimal_digit in Hc;
    change (nat_of_ascii "+") with 43%nat in Hc;
    change (nat_of_ascii "-") with 45%nat in Hc; lia.
Qed.

Lemma unsigned_literal_cases (u : string) :
  (StrUnsignedDecimalLiteral u = None /\ ~ numeric_head u)
  \/ (exists v, StrUnsignedDecimalLiteral u = Some v /\ v <> NaN /\ numeric_head u).
Proof.
  unfold StrUnsignedDecimalLiteral.
  destruct (prefix "Infinity" u) eqn:EI.
  { right. exists (Infinity false). repeat split; [discriminate|].
    left. now apply prefix_iff. }
  assert (HI : ~ exists r, u = ("Infinity" ++ r)%string).
  { rewrite <- prefix_iff. congruence. }
  destruct u as [|c r]; simpl.
  { left. split; [reflexivity|].
    intros [H | [[c [r [H _]]] | [c [r [H _]]]]]; [tauto | discriminate | discriminate]. }
  destruct (digit_value false c) as [d|] eqn:Ed.
  { right. destruct (take_digits false r) as [ds rest].
    destruct (match rest with String "." r0 => take_digits false r0 | _ => ([], rest) end)
      as [fp r2].
    eexists. simpl. repeat split; [discriminate|].
    right; left. exists c, r. split; [reflexivity|].
    apply digit_value_decimal. congruence. }
  assert (Hc : ~ is_decimal_digit c).
  { rewrite <- digit_value_decimal. tauto. }
  rewrite (match_point (String c r)).
  destruct (Ascii.eqb_spec c ".") as [->|Hdot].
  - destruct r as [|c' r']; simpl.
    + left. split; [reflexivity|].
      intros [H | [[c [r [H Hd]]] | [c [r [H _]]]]]; [tauto | | discriminate].
      injection H as <- _. contradiction.
    + destruct (digit_value false c') as [d'|] eqn:Ed'.
      * right. destruct (take_digits false r') as [ds rest].
        eexists. simpl. repeat split; [discriminate|].
        right; right. exists c', r'. split; [reflexivity|].
        apply digit_value_decimal. congruence.
      * left. split; [reflexivity|].
        intros [H | [[c [r [H Hd]]] | [c [r [H Hd]]]]]; [tauto | | ].
        -- injection H as <- _. contradiction.
        -- injection H as <- _. apply digit_value_decimal in Hd. congruence.
  - left. split; [reflexivity|].
    intros [H | [[c0 [r0 [H Hd]]] | [c0 [r0 [H Hd]]]]]; [tauto | | ].
    + injection H as <- _. contradiction.
    + injection H as -> _. congruence.
Qed.

Lemma number_neg_NaN (v : number) : v <> NaN -> number_neg v <> NaN.
Proof. destruct v; simpl; congruence. Qed.

(** [parseFloat] answers NaN exactly when its argument, leading white space
    apart, does not begin with a decimal literal. *)
Lemma parseFloat_NaN_iff (s : string) :
  parseFloat s = NaN <-> ~ starts_numeric (trimStart s).
Proof.
  unfold parseFloat, starts_numeric.
  destruct (split_sign (trimStart s)) as [neg u] eqn:Es.
  assert (Hsplit : forall sign rest,
             trimStart s = (sign ++ rest)%string ->
             sign = "" \/ sign = "+" \/ sign = "-" ->
             numeric_head rest -> u = rest).
  { intros sign rest Heq Hsign Hhead.
    destruct (split_sign_cases (trimStart s))
      as [[r [Hr Hs]] | [[r [Hr Hs]] | [Hp [Hm Hs]]]];
      rewrite Es in Hs; injection Hs as _ ->;
      apply numeric_head_not_sign in Hhead as [Hp' Hm'];
      destruct Hsign as [-> | [-> | ->]]; simpl in Heq;
      try congruence;
      try (exfalso; apply (Hp' r); congruence);
      try (exfalso; apply (Hm' r); congruence);
      try (exfalso; apply (Hp rest); assumption);
      try (exfalso; apply (Hm rest); assumption). }
  assert (Hjoin : exists sign, trimStart s = (sign ++ u)%string
                               /\ (sign = "" \/ sign = "+" \/ sign = "-")).
  { destruct (split_sign_cases (trimStart s))
      as [[r [Hr Hs]] | [[r [Hr Hs]] | [Hp [Hm Hs]]]];
      rewrite Es in Hs; injection Hs as _ ->.
    - exists "+". split; [assumption | tauto].
    - exists "-". split; [assumption | tauto].
    - exists "". split; [reflexivity | tauto]. }
  destruct (unsigned_literal_cases u) as [[-> Hno] | [v [-> [Hv Hhead]]]].
  - split; [|reflexivity]. intros _ [sign [rest [Heq [Hsign Hhead]]]].
    apply Hno. now rewrite (Hsplit sign rest Heq Hsign Hhead).
  - split.
    + intros H. exfalso. destruct neg; [now apply (number_neg_NaN v)|contradiction].
    + intros H. exfalso. apply H. destruct Hjoin as [sign [Heq Hsign]].
      now exists sign, u.
Qed.

Lemma replace_commas_spaces_chars (s : string) :
  list_ascii_of_string (replace_commas_spaces s)
  = filter (fun c => negb (is_separator c)) (list_ascii_of_string s).
Proof.
  unfold replace_commas_spaces, is_separator.
  induction s as [|c s IH]; simpl; [reflexivity|].
  destruct (negb ((c =? ",")%char || isWhiteSpace c)); simpl; now rewrite IH.
Qed.

Lemma trimStart_replace (s : string) :
  trimStart (replace_commas_spaces s) = replace_commas_spaces s.
Proof.
  unfold replace_commas_spaces.
  induction s as [|c s IH]; simpl; [reflexivity|].
  destruct ((c =? ",")%char || isWhiteSpace c) eqn:E; simpl; [assumption|].
  apply orb_false_iff in E as [_ ->]. reflexivity.
Qed.

Lemma parseAmount_nonempty (amountStr : string) :
  amountStr <> "" ->
  Dashboard.parseAmount amountStr = parseFloat (replace_commas_spaces amountStr).
Proof.
  intros H. unfold Dashboard.parseAmount.
  now destruct (String.eqb_spec amountStr "").
Qed.

Lemma parseAmount_NaN_iff (amountStr : string) :
  Dashboard.parseAmount amountStr = NaN <->
  amountStr <> "" /\ ~ starts_numeric (replace_commas_spaces amountStr).
Proof.
  destruct (String.eqb_spec amountStr "") as [->|Hne].
  - split; [discriminate | tauto].
  - rewrite parseAmount_nonempty, parseFloat_NaN_iff, trimStart_replace by assumption.
    tauto.
Qed.

Lemma not_starts_numeric_abc : ~ starts_numeric (replace_commas_spaces "abc").
Proof.
  intros [sign [rest [Heq [Hsign Hhead]]]].
  change (replace_commas_spaces "abc") with "abc" in Heq.
  assert (rest = "abc") as ->.
  { destruct Hsign as [-> | [-> | ->]]; simpl in Heq; congruence. }
  destruct Hhead as [[r H] | [[c [r [H Hc]]] | [c [r [H _]]]]]; try discriminate.
  injection H as <- _. unfold is_decimal_digit in Hc.
  change (nat_of_ascii "a") with 97%nat in Hc. lia.
Qed.

(** C3, as the specification words it, fails: a field that is not empty and
    does not begin with a number after stripping is not parsed to 0.  The
    field [abc] is parsed to NaN. *)
Lemma parseAmount_unparseable_not_zero :
  ~ (forall amountStr : string,
        amountStr = "" \/ ~ starts_numeric (replace_commas_spaces amountStr) ->
        Dashboard.parseAmount amountStr = zero).
Proof.
  intros H. specialize (H "abc" (or_intror not_starts_numeric_abc)).
  vm_compute in H. discriminate.
Qed.

(** C3, amended.  Amount parsing removes every comma and white-space
    character and hands the rest to [parseFloat]; the empty field is 0; a
    field is parsed to NaN, not to 0, exactly when it is not empty and what
    is left of it does not begin with a decimal literal; the field
    [1,234.56] is parsed to 1234.56.  The two revisions of the component
    parse amounts alike. *)
Theorem parseAmount_spec :
  (forall amountStr : string,
      list_ascii_of_string (replace_commas_spaces amountStr)
      = filter (fun c => negb (is_separator c)) (list_ascii_of_string amountStr))
  /\ (forall amountStr : string,
         amountStr <> "" ->
         Dashboard.parseAmount amountStr = parseFloat (replace_commas_spaces amountStr))
  /\ Dashboard.parseAmount "" = zero
  /\ (forall amountStr : string,
         Dashboard.parseAmount amountStr = NaN <->
         amountStr <> "" /\ ~ starts_numeric (replace_commas_spaces amountStr))
  /\ Dashboard.parseAmount "1,234.56" = Finite (Q2Qc (123456 # 100))
  /\ (forall amountStr : string,
         SingleSelect.parseAmount amountStr = Dashboard.parseAmount amountStr).
Proof.
  split; [exact replace_commas_spaces_chars|].
  split; [exact parseAmount_nonempty|].
  split; [reflexivity|].
  split; [exact parseAmount_NaN_iff|].
  split; [|reflexivity].
  unfold Dashboard.parseAmount. simpl String.eqb. cbv iota.
  unfold parseFloat.
  change (replace_commas_spaces "1,234.56") with "1234.56".
  change (split_sign (trimStart "1234.56")) with (false, "1234.56").
  cbv iota beta.
  change (StrUnsignedDecimalLiteral "1234.56")
    with (Some (Finite (Q2Qc (inject_Z 123456 * pow10 (-2))))).
  cbv iota. reflexivity.
Qed.

(** ** Upload *)

Section Upload.
Import Dashboard.

Lemma Promise_all_rejected {A : Type} (ps : list (Promise A)) :
  (exists e, In (rejected e) ps) -> exists e, Promise_all ps = rejected e.
Proof.
  induction ps as [|p ps IH]; intros [e He]; [destruct He|].
  destruct p as [a|e0]; simpl; [|now exists e0].
  destruct He as [He | He]; [discriminate|].
  destruct IH as [e' ->]; [now exists e | now exists e'].
Qed.

Lemma Promise_all_resolved (files : list File) :
  (forall file, In file files -> ~ fails_to_parse file) ->
  Promise_all (map processCSVFile files) = resolved (map parsed_rows files).
Proof.
  induction files as [|file files IH]; intros Hok; [reflexivity|].
  simpl. unfold parsed_rows at 1.
  destruct (processCSVFile file) as [rows|e] eqn:E.
  - rewrite IH; [reflexivity|]. intros f Hf. apply Hok. now right.
  - exfalso. apply (Hok file); [now left | now exists e].
Qed.

Lemma handleFileUpload_rejected (files : list File) (s : State) :
  (exists file, In file files /\ fails_to_parse file) ->
  handleFileUpload files s = setIsLoading false s.
Proof.
  intros [file [Hin [e He]]].
  destruct (Promise_all_rejected (map processCSVFile files)) as [e' He'].
  { exists e. rewrite <- He. now apply in_map. }
  destruct files as [|f files]; [destruct Hin|].
  unfold handleFileUpload. rewrite He'. reflexivity.
Qed.

Lemma handleFileUpload_resolved (files : list File) (s : State) :
  files <> [] ->
  (forall file, In file files -> ~ fails_to_parse file) ->
  handleFileUpload files s
  = mkState (List.concat (map parsed_rows files)) ["all"] (viewMode s)
            (map File_name files) (startDate s) (endDate s) false.
Proof.
  intros Hne Hok. destruct files as [|f files]; [now elim Hne|].
  unfold handleFileUpload. rewrite (Promise_all_resolved _ Hok). reflexivity.
Qed.
End Upload.

(** X9.  A row too short to have a status is never counted, whatever stands
    for its missing cells. *)
Lemma short_row_excluded {tz : HostTimeZone} (row : list string) :
  (List.length row <= 5)%nat ->
  Dashboard.isCompleted (Dashboard.resolve (Dashboard.parsedTransaction row)) = false.
Proof.
  intros H. unfold Dashboard.isCompleted, Dashboard.resolve, Dashboard.parsedTransaction.
  cbn [Tx.status Raw.status]. unfold Dashboard.cell.
  rewrite (nth_overflow row "" H). reflexivity.
Qed.

(** C4.  When a file of the batch fails to parse, the upload commits
    nothing: the raw transactions, the merchant selection, the two date
    bounds and the list of uploaded files are what they were.  When every
    file of a non-empty batch parses, the raw transactions become the rows
    of the files, joined in the order the files were picked. *)
Theorem upload_all_or_nothing (files : list Dashboard.File) (s : Dashboard.State) :
  ((exists file, In file files /\ fails_to_parse file) ->
   Dashboard.rawTransactions (Dashboard.handleFileUpload files s) = Dashboard.rawTransactions s
   /\ Dashboard.selectedMerchants (Dashboard.handleFileUpload files s) = Dashboard.selectedMerchants s
   /\ Dashboard.startDate (Dashboard.handleFileUpload files s) = Dashboard.startDate s
   /\ Dashboard.endDate (Dashboard.handleFileUpload files s) = Dashboard.endDate s
   /\ Dashboard.uploadedFiles (Dashboard.handleFileUpload files s) = Dashboard.uploadedFiles s)
  /\ (files <> [] ->
      (forall file, In file files -> ~ fails_to_parse file) ->
      Dashboard.rawTransactions (Dashboard.handleFileUpload files s)
      = List.concat (map parsed_rows files)).
Proof.
  split.
  - intros H. rewrite (handleFileUpload_rejected files s H). now repeat split.
  - intros Hne Hok. now rewrite (handleFileUpload_resolved files s Hne Hok).
Qed.

(** C5, as the specification words it, fails: a successful upload leaves
    the date bounds as they were.  Here a start and an end date are set
    when one file with a single row is uploaded. *)
Lemma upload_keeps_date_bounds :
  ~ (forall (files : list Dashboard.File) (s : Dashboard.State),
        files <> [] ->
        (forall file, In file files -> ~ fails_to_parse file) ->
        Dashboard.rawTransactions (Dashboard.handleFileUpload files s)
        = List.concat (map parsed_rows files)
        /\ Dashboard.selectedMerchants (Dashboard.handleFileUpload files s) = ["all"]
        /\ Dashboard.startDate (Dashboard.handleFileUpload files s) = ""
        /\ Dashboard.endDate (Dashboard.handleFileUpload files s) = "").
Proof.
  intros H.
  pose (file := Dashboard.mkFile "march.csv"
                  (Dashboard.complete
                     [["Date"];
                      ["01/03/2023"; ""; ""; "Alice"; "Payment"; "Completed"; "CAD"; "10"]])).
  pose (s := Dashboard.mkState [] ["Bob"] transaction_view ["old.csv"]
               "2023-01-01" "2023-12-31" false).
  destruct (H [file] s) as [_ [_ [Hstart _]]].
  - discriminate.
  - intros f [<- | []] [e He]. discriminate.
  - discriminate.
Qed.

(** C5, amended.  A successful upload of a non-empty batch replaces the raw
    transactions by the rows of the new files, whatever was held before,
    and resets the merchant selection to the one-element list "all"; the
    start and end dates keep their values. *)
Theorem upload_replaces_and_resets (files : list Dashboard.File) (s : Dashboard.State) :
  files <> [] ->
  (forall file, In file files -> ~ fails_to_parse file) ->
  Dashboard.rawTransactions (Dashboard.handleFileUpload files s)
  = List.concat (map parsed_rows files)
  /\ Dashboard.selectedMerchants (Dashboard.handleFileUpload files s) = ["all"]
  /\ Dashboard.startDate (Dashboard.handleFileUpload files s) = Dashboard.startDate s
  /\ Dashboard.endDate (Dashboard.handleFileUpload files s) = Dashboard.endDate s.
Proof.
  intros Hne Hok. rewrite (handleFileUpload_resolved files s Hne Hok). now repeat split.
Qed.

(** ** Merchant selection *)

Section Selection.
Import MultiSelect.

Lemma neqb_iff (s o : string) : negb (s =? o)%string = true <-> s <> o.
Proof.
  rewrite negb_true_iff. destruct (String.eqb_spec s o); intuition congruence.
Qed.

Lemma remove_option_In (o x : string) (l : list string) :
  In x (filter (fun s => negb (s =? o)%string) l) <-> In x l /\ x <> o.
Proof. now rewrite filter_In, neqb_iff. Qed.

Lemma remove_option_length (o : string) (l : list string) :
  In o l ->
  (List.length (filter (fun s => negb (s =? o)%string) l) < List.length l)%nat.
Proof.
  induction l as [|x l IH]; intros Hin; [destruct Hin|]. simpl.
  destruct (String.eqb_spec x o) as [->|Hne]; simpl.
  - pose proof (filter_length_le (fun s => negb (s =? o)%string) l). lia.
  - destruct Hin as [-> | Hin]; [now elim Hne|]. specialize (IH Hin). lia.
Qed.

Variable options : list string.

Lemma handleSelectAll_well_formed (selected : list string) :
  well_formed options (handleSelectAll options selected).
Proof.
  unfold handleSelectAll. destruct (isAllSelected options selected).
  - right. repeat split; [constructor | intros x [] | intros [] | now right].
  - now left.
Qed.

Lemma handleOptionClick_well_formed (selected : list string) (option : string) :
  NoDup options -> ~ In "all" options ->
  well_formed options selected -> In option options ->
  well_formed options (handleOptionClick options selected option).
Proof.
  intros Hnd Hall Hwf Hin. unfold handleOptionClick.
  set (currentSelection := if Array_includes "all" selected then options else selected).
  assert (Hcur : NoDup currentSelection /\ incl currentSelection options
                 /\ ~ In "all" currentSelection
                 /\ (currentSelection = options
                     \/ (List.length currentSelection < List.length options)%nat
                     \/ currentSelection = [])).
  { subst currentSelection. destruct Hwf as [-> | [H1 [H2 [H3 H4]]]].
    - simpl. repeat split; [assumption | apply incl_refl | assumption | now left].
    - apply Array_includes_false_iff in H3 as E. rewrite E.
      repeat split; [assumption | assumption | now apply Array_includes_false_iff | tauto]. }
  clearbody currentSelection. destruct Hcur as [H1 [H2 [H3 H4]]].
  assert (Hle : (List.length currentSelection <= List.length options)%nat)
    by now apply NoDup_incl_length.
  destruct (Array_includes option currentSelection) eqn:E.
  - apply Array_includes_iff in E.
    pose proof (remove_option_length option currentSelection E) as Hlt.
    destruct (Nat.eqb_spec
                (List.length (filter (fun s => negb (s =? option)%string) currentSelection))
                (List.length options)) as [Heq|Hneq]; [now left|].
    right. repeat split.
    + now apply NoDup_filter.
    + intros x Hx. apply remove_option_In in Hx. now apply H2.
    + intros Hx. apply remove_option_In in Hx. tauto.
    + left. lia.
  - apply Array_includes_false_iff in E.
    destruct (Nat.eqb_spec (List.length (currentSelection ++ [option]))
                           (List.length options)) as [Heq|Hneq]; [now left|].
    assert (Hnd' : NoDup (currentSelection ++ [option])).
    { apply NoDup_app; [assumption | repeat constructor; intros [] | ].
      intros a Ha [<- | []]. contradiction. }
    assert (Hincl : incl (currentSelection ++ [option]) options).
    { intros x Hx. apply in_app_or in Hx as [Hx | [<- | []]]; [now apply H2 | assumption]. }
    right. repeat split; [assumption | assumption | | ].
    + intros Hx. apply in_app_or in Hx as [Hx | [Heq | []]]; [contradiction|].
      rewrite Heq in Hin. contradiction.
    + left. pose proof (NoDup_incl_length Hnd' Hincl). lia.
Qed.

Lemma last_option_collapses (selected : list string) (option : string) :
  NoDup options -> NoDup selected -> incl selected options ->
  In option options ->
  isSelected selected option = false ->
  (forall o, In o options -> o <> option -> isSelected selected o = true) ->
  handleOptionClick options selected option = ["all"].
Proof.
  intros Hnd Hnds Hincl Hin Hoff Hon. unfold isSelected in *.
  destruct (Array_includes "all" selected) eqn:Eall; [discriminate|].
  unfold handleOptionClick. rewrite Eall, Hoff.
  apply Array_includes_false_iff in Hoff.
  assert (Hnd' : NoDup (selected ++ [option])).
  { apply NoDup_app; [assumption | repeat constructor; intros [] | ].
    intros a Ha [<- | []]. contradiction. }
  assert (H1 : incl (selected ++ [option]) options).
  { intros x Hx. apply in_app_or in Hx as [Hx | [<- | []]]; [now apply Hincl | assumption]. }
  assert (H2 : incl options (selected ++ [option])).
  { intros o Ho. apply in_or_app. destruct (string_dec o option) as [->|Hne].
    - right. now left.
    - left. apply Array_includes_iff. now apply Hon. }
  pose proof (NoDup_incl_length Hnd' H1). pose proof (NoDup_incl_length Hnd H2).
  destruct (Nat.eqb_spec (List.length (selected ++ [option])) (List.length options));
    [reflexivity | lia].
Qed.
End Selection.

(** C10, as the specification words it, fails when there is no option at
    all: a click on "All Merchants" then hands out the empty selection,
    whose length is not below the number of options. *)
Lemma empty_options_emit_empty :
  ~ (forall options selected : list string,
        NoDup options -> ~ In "all" options ->
        emitted options selected ->
        selected = ["all"]
        \/ (NoDup selected /\ incl selected options /\ ~ In "all" selected
            /\ (List.length selected < List.length options)%nat)).
Proof.
  intros H.
  destruct (H [] [] (NoDup_nil _) (fun f => f)) as [Heq | [_ [_ [_ Hlt]]]].
  - exact (emitted_select_all [] ["all"] (emitted_initial [])).
  - discriminate.
  - simpl in Hlt. lia.
Qed.

(** C10, amended.  Over a duplicate-free list of options without the string
    "all", every selection the component holds or hands out is either the
    one-element list "all", or a duplicate-free list of options without
    "all" that is shorter than the list of options or empty. *)
Theorem emitted_selection_invariant (options selected : list string) :
  NoDup options -> ~ In "all" options ->
  emitted options selected ->
  selected = ["all"]
  \/ (NoDup selected /\ incl selected options /\ ~ In "all" selected
      /\ ((List.length selected < List.length options)%nat \/ selected = [])).
Proof.
  intros Hnd Hall H.
  induction H as [| selected H IH | selected option H IH Hin].
  - now left.
  - apply handleSelectAll_well_formed.
  - now apply handleOptionClick_well_formed.
Qed.

Section AllSelected.
Context {tz : HostTimeZone}.

Lemma isCompleted_named (transaction : Transaction) :
  Dashboard.isCompleted transaction = true -> Tx.name transaction <> "".
Proof.
  unfold Dashboard.isCompleted. rewrite !andb_true_iff, nonempty_iff. tauto.
Qed.

Lemma keeps_full_selection (rawTransactions : list RawTransaction)
      (selectedMerchants : list string) (startDate endDate : string) (r : RawTransaction) :
  (forall m, In m (Dashboard.merchants rawTransactions) -> In m selectedMerchants) ->
  In r rawTransactions ->
  Dashboard.keeps selectedMerchants startDate endDate (Dashboard.resolve r)
  = Dashboard.keeps ["all"] startDate endDate (Dashboard.resolve r).
Proof.
  intros Hfull Hin. unfold Dashboard.keeps.
  destruct (Dashboard.isCompleted (Dashboard.resolve r)) eqn:E; [|reflexivity].
  apply isCompleted_named in E. simpl in E.
  assert (Hm : Dashboard.matchesMerchant selectedMerchants (Dashboard.resolve r) = true).
  { unfold Dashboard.matchesMerchant. apply orb_true_iff. right.
    apply Array_includes_iff, Hfull.
    apply (proj2 (merchants_members rawTransactions (Raw.name r))).
    split; [assumption | now exists r]. }
  now rewrite Hm.
Qed.

Lemma transactions_full_selection (rawTransactions : list RawTransaction)
      (selectedMerchants : list string) (startDate endDate : string) :
  (forall m, In m (Dashboard.merchants rawTransactions) -> In m selectedMerchants) ->
  Dashboard.transactions rawTransactions selectedMerchants startDate endDate
  = Dashboard.transactions rawTransactions ["all"] startDate endDate.
Proof.
  intros Hfull. unfold Dashboard.transactions, Dashboard.filteredTransactions.
  do 2 f_equal. apply filter_ext_in. intros t Ht.
  apply in_map_iff in Ht as [r [<- Hr]].
  now apply (keeps_full_selection rawTransactions).
Qed.
End AllSelected.

(** C9.  With every merchant option selected one by one, the filter keeps
    the same transactions, in the same order and with the same running
    totals, as with the selection "all"; and a click on the one option that
    [isSelected] reports as not selected, all the others being selected,
    hands out the one-element list "all". *)
Theorem all_selected_collapse {tz : HostTimeZone} :
  (forall (rawTransactions : list RawTransaction) (selectedMerchants : list string)
          (startDate endDate : string),
      (forall m, In m (Dashboard.merchants rawTransactions) <-> In m selectedMerchants) ->
      Dashboard.transactions rawTransactions selectedMerchants startDate endDate
      = Dashboard.transactions rawTransactions ["all"] startDate endDate)
  /\ (forall (options selected : list string) (option : string),
         NoDup options -> NoDup selected -> incl selected options ->
         In option options ->
         MultiSelect.isSelected selected option = false ->
         (forall o, In o options -> o <> option -> MultiSelect.isSelected selected o = true) ->
         MultiSelect.handleOptionClick options selected option = ["all"]).
Proof.
  split.
  - intros rawTransactions selectedMerchants startDate endDate Hsame.
    apply transactions_full_selection. intros m. apply Hsame.
  - intros options selected option. apply last_option_collapses.
Qed.

(** ** Sorting *)

Section SortByDate.
Import Dashboard.

Lemma insert_Permutation {A : Type} (cmp : A -> A -> option Z) (x : A) (l : list A) :
  Permutation (insert cmp x l) (x :: l).
Proof.
  induction l as [|y l IH]; simpl; [reflexivity|].
  destruct (sorts_after cmp x y); [|reflexivity].
  rewrite IH. apply perm_swap.
Qed.

Lemma Array_sort_Permutation {A : Type} (cmp : A -> A -> option Z) (l : list A) :
  Permutation (Array_sort cmp l) l.
Proof.
  induction l as [|x l IH]; simpl; [reflexivity|].
  rewrite insert_Permutation. now constructor.
Qed.

Lemma sorts_after_by_date (a b : Transaction) :
  sorts_after by_date a b = true ->
  exists x y, Tx.date a = Some x /\ Tx.date b = Some y /\ y < x.
Proof.
  unfold sorts_after, by_date.
  destruct (Tx.date a) as [x|], (Tx.date b) as [y|]; try discriminate.
  intros H. apply Z.ltb_lt in H. exists x, y. repeat split; lia.
Qed.

Lemma not_sorts_after_by_date (a b : Transaction) :
  valid_date a -> valid_date b ->
  sorts_after by_date a b = false -> no_later a b.
Proof.
  unfold sorts_after, by_date, valid_date, no_later, JSDate.le.
  destruct (Tx.date a) as [x|], (Tx.date b) as [y|]; try congruence.
  intros _ _ H. apply Z.ltb_ge in H. apply Z.leb_le. lia.
Qed.

Lemma no_later_trans (a b c : Transaction) :
  no_later a b -> no_later b c -> no_later a c.
Proof.
  unfold no_later, JSDate.le.
  destruct (Tx.date a), (Tx.date b), (Tx.date c); try discriminate.
  rewrite !Z.leb_le. lia.
Qed.

Lemma insert_chronological (x : Transaction) (l : list Transaction) :
  valid_date x -> Forall valid_date l ->
  chronological l -> chronological (insert by_date x l).
Proof.
  unfold chronological. intros Hx Hl Hs.
  induction l as [|y l IH]; simpl.
  - repeat constructor.
  - apply StronglySorted_inv in Hs as [Hs Hy].
    apply Forall_cons_iff in Hl as [Hvy Hl].
    destruct (sorts_after by_date x y) eqn:E.
    + constructor; [now apply IH|].
      apply (Permutation_Forall (Permutation_sym (insert_Permutation by_date x l))).
      constructor; [|assumption].
      apply sorts_after_by_date in E as [a [b [Ha [Hb Hlt]]]].
      unfold no_later, JSDate.le. rewrite Ha, Hb. apply Z.leb_le. lia.
    + pose proof (not_sorts_after_by_date x y Hx Hvy E) as Hxy.
      constructor; [now constructor|].
      constructor; [assumption|].
      eapply Forall_impl; [|exact Hy]. intros z. now apply no_later_trans.
Qed.

Lemma Array_sort_chronological (l : list Transaction) :
  Forall valid_date l -> chronological (Array_sort by_date l).
Proof.
  induction l as [|x l IH]; intros Hl; simpl.
  - constructor.
  - apply Forall_cons_iff in Hl as [Hx Hl].
    apply insert_chronological; [assumption | | now apply IH].
    now apply (Permutation_Forall (Permutation_sym (Array_sort_Permutation by_date l))).
Qed.

Lemma dated_sorts_after (d : TimeValue) (x y : Transaction) :
  sorts_after by_date x y = true -> dated d y = true -> dated d x = false.
Proof.
  intros H. apply sorts_after_by_date in H as [a [b [Ha [Hb Hlt]]]].
  unfold dated. rewrite Ha, Hb. destruct d as [z|]; [|discriminate].
  rewrite Z.eqb_eq. intros ->. apply Z.eqb_neq. lia.
Qed.

Lemma insert_stable (d : TimeValue) (x : Transaction) (l : list Transaction) :
  filter (dated d) (insert by_date x l) = filter (dated d) (x :: l).
Proof.
  induction l as [|y l IH]; [reflexivity|].
  cbn [insert]. destruct (sorts_after by_date x y) eqn:E; [|reflexivity].
  cbn [filter] in *. rewrite IH.
  destruct (dated d y) eqn:Ey; [|reflexivity].
  now rewrite (dated_sorts_after d x y E Ey).
Qed.

Lemma Array_sort_stable (d : TimeValue) (l : list Transaction) :
  filter (dated d) (Array_sort by_date l) = filter (dated d) l.
Proof.
  induction l as [|x l IH]; [reflexivity|].
  cbn [Array_sort fold_right]. rewrite insert_stable.
  cbn [filter]. fold (Array_sort by_date l). now rewrite IH.
Qed.
End SortByDate.

(** *** Any stable sort returns the same array

    Two arrangements in ascending order of date that hold, for every date,
    the same transactions in the same order are one arrangement: when every
    date is valid, what [Array_sort] returns is what every stable sort
    returns. *)

Lemma dated_refl (t : Transaction) : dated (Tx.date t) t = true.
Proof. unfold dated. destruct (Tx.date t); [apply Z.eqb_refl | reflexivity]. Qed.

Lemma dated_sym (a b : Transaction) :
  dated (Tx.date a) b = dated (Tx.date b) a.
Proof.
  unfold dated. destruct (Tx.date a), (Tx.date b); try reflexivity. apply Z.eqb_sym.
Qed.

Lemma no_later_antisym (a b : Transaction) :
  no_later a b -> no_later b a -> dated (Tx.date a) b = true.
Proof.
  unfold no_later, JSDate.le, dated.
  destruct (Tx.date a), (Tx.date b); try discriminate.
  rewrite !Z.leb_le, Z.eqb_eq. lia.
Qed.

Lemma filter_head_In {A : Type} (p : A -> bool) (x : A) (r l : list A) :
  x :: r = filter p l -> In x l.
Proof.
  intros H. assert (Hin : In x (filter p l)) by (rewrite <- H; now left).
  now apply filter_In in Hin.
Qed.

Lemma chronological_unique (l1 l2 : list Transaction) :
  chronological l1 -> chronological l2 ->
  (forall d, filter (dated d) l1 = filter (dated d) l2) ->
  l1 = l2.
Proof.
  unfold chronological. revert l2.
  induction l1 as [|x l1 IH]; intros [|y l2] H1 H2 H.
  - reflexivity.
  - specialize (H (Tx.date y)). cbn [filter] in H. rewrite dated_refl in H. discriminate.
  - specialize (H (Tx.date x)). cbn [filter] in H. rewrite dated_refl in H. discriminate.
  - apply StronglySorted_inv in H1 as [H1 Hx]. apply StronglySorted_inv in H2 as [H2 Hy].
    assert (Hd : dated (Tx.date x) y = true).
    { destruct (dated (Tx.date x) y) eqn:E; [reflexivity|].
      pose proof (H (Tx.date x)) as Ha. pose proof (H (Tx.date y)) as Hb.
      cbn [filter] in Ha, Hb.
      rewrite dated_refl, ?E in Ha. rewrite dated_refl, <- dated_sym, ?E in Hb.
      apply filter_head_In in Ha. symmetry in Hb. apply filter_head_In in Hb.
      rewrite <- E. apply no_later_antisym.
      - exact (proj1 (Forall_forall _ _) Hx y Hb).
      - exact (proj1 (Forall_forall _ _) Hy x Ha). }
    assert (Hxy : x = y).
    { specialize (H (Tx.date x)). cbn [filter] in H. rewrite dated_refl, Hd in H.
      now injection H. }
    subst y. f_equal. apply IH; [assumption | assumption |].
    intros d. specialize (H d). cbn [filter] in H.
    destruct (dated d x); [now injection H | assumption].
Qed.

(** X5.  When every date is valid the order of the sorted array is
    forced: an arrangement in ascending order of date that holds, for
    every date, the transactions of that date in their order before the
    sort, is the array the sort returns. *)
Lemma Array_sort_unique (l sorted : list Transaction) :
  Forall valid_date l ->
  chronological sorted ->
  (forall d, filter (dated d) sorted = filter (dated d) l) ->
  sorted = Array_sort Dashboard.by_date l.
Proof.
  intros Hv Hs Hst. apply chronological_unique; [assumption | |].
  - now apply Array_sort_chronological.
  - intros d. now rewrite Array_sort_stable.
Qed.

(** ** Running total *)

Section RunningTotal.
Import Dashboard.

Lemma accumulate_untotalled (c : number) (l : list Transaction) :
  map untotalled (accumulate c l) = map untotalled l.
Proof.
  revert c. induction l as [|x l IH]; intros c; [reflexivity|].
  cbn [accumulate map]. now rewrite IH.
Qed.

Lemma accumulate_length (c : number) (l : list Transaction) :
  List.length (accumulate c l) = List.length l.
Proof.
  rewrite <- (length_map untotalled), accumulate_untotalled. apply length_map.
Qed.

Lemma untotalled_dates (l1 l2 : list Transaction) :
  map untotalled l1 = map untotalled l2 -> map Tx.date l1 = map Tx.date l2.
Proof.
  intros H. apply (f_equal (map Tx.date)) in H. now rewrite !map_map in H.
Qed.

Lemma same_dates_Forall (P : TimeValue -> Prop) (l1 l2 : list Transaction) :
  map Tx.date l1 = map Tx.date l2 ->
  Forall (fun t => P (Tx.date t)) l1 -> Forall (fun t => P (Tx.date t)) l2.
Proof.
  intros H H1. apply Forall_map. rewrite <- H. now apply Forall_map.
Qed.

Lemma same_dates_chronological (l1 l2 : list Transaction) :
  map Tx.date l1 = map Tx.date l2 -> chronological l1 -> chronological l2.
Proof.
  unfold chronological. revert l2.
  induction l1 as [|x l1 IH]; intros [|y l2] H Hs; try discriminate; [constructor|].
  injection H as Hxy H. apply StronglySorted_inv in Hs as [Hs Hx].
  constructor; [now apply IH|].
  apply (same_dates_Forall (fun d => JSDate.le (Tx.date y) d = true) l1 l2 H).
  unfold no_later in Hx. now rewrite <- Hxy.
Qed.

Lemma accumulate_prefix_sum (l : list Transaction) (c : number) (i : nat) (t : Transaction) :
  nth_error (accumulate c l) i = Some t ->
  Tx.cumulativeAmount t
  = fold_left number_add (map Tx.amount (firstn (S i) (accumulate c l))) c.
Proof.
  revert c i. induction l as [|x l IH]; intros c i H.
  - destruct i; discriminate.
  - destruct i as [|i].
    + injection H as <-. reflexivity.
    + cbn [accumulate nth_error] in H. apply IH in H. rewrite H. reflexivity.
Qed.

Lemma netAmount_last (l : list Transaction) (t : Transaction) :
  nth_error l (List.length l - 1) = Some t ->
  Tx.cumulativeAmount t = netAmount l.
Proof.
  intros H. unfold netAmount. rewrite H.
  destruct l; [discriminate | reflexivity].
Qed.

Lemma filter_map_untotalled (d : TimeValue) (l : list Transaction) :
  map untotalled (filter (dated d) l) = filter (dated d) (map untotalled l).
Proof.
  induction l as [|x l IH]; [reflexivity|].
  cbn [filter map]. change (dated d (untotalled x)) with (dated d x).
  destruct (dated d x); cbn [map]; now rewrite IH.
Qed.

Lemma map_untotalled_fixed (l : list Transaction) :
  Forall (fun t => untotalled t = t) l -> map untotalled l = l.
Proof.
  induction 1 as [|x l Hx _ IH]; [reflexivity|]. cbn [map]. now rewrite Hx, IH.
Qed.
End RunningTotal.

Section View.
Context {tz : HostTimeZone}.
Import Dashboard.

Variables (rawTransactions : list RawTransaction) (selectedMerchants : list string)
          (startDate endDate : string).

Let selected : list Transaction :=
  filter (keeps selectedMerchants startDate endDate) (map resolve rawTransactions).
Let out : list Transaction :=
  transactions rawTransactions selectedMerchants startDate endDate.

Lemma selected_untotalled : Forall (fun t => untotalled t = t) selected.
Proof.
  apply Forall_forall. intros t Ht. apply filter_In in Ht as [Ht _].
  apply in_map_iff in Ht as [r [<- _]]. reflexivity.
Qed.

Lemma transactions_untotalled :
  map untotalled out = filteredTransactions rawTransactions selectedMerchants startDate endDate.
Proof.
  unfold out, transactions. rewrite accumulate_untotalled.
  apply map_untotalled_fixed. unfold filteredTransactions.
  apply (Permutation_Forall (Permutation_sym (Array_sort_Permutation by_date selected))).
  apply selected_untotalled.
Qed.

Lemma transactions_chronological : Forall valid_date out -> chronological out.
Proof.
  intros Hv.
  assert (Hd : map Tx.date (filteredTransactions rawTransactions selectedMerchants
                              startDate endDate) = map Tx.date out).
  { symmetry. apply untotalled_dates. rewrite transactions_untotalled.
    symmetry. apply map_untotalled_fixed.
    unfold filteredTransactions.
    apply (Permutation_Forall (Permutation_sym (Array_sort_Permutation by_date selected))).
    apply selected_untotalled. }
  apply (same_dates_chronological _ _ Hd).
  apply Array_sort_chronological.
  apply (Permutation_Forall (Array_sort_Permutation by_date selected)).
  apply (same_dates_Forall (fun d => d <> None) _ _ (eq_sym Hd)). exact Hv.
Qed.

Lemma transactions_stable (d : TimeValue) :
  map untotalled (filter (dated d) out) = filter (dated d) selected.
Proof.
  rewrite filter_map_untotalled, transactions_untotalled.
  apply Array_sort_stable.
Qed.

Lemma transactions_prefix_sum (i : nat) (t : Transaction) :
  nth_error out i = Some t ->
  Tx.cumulativeAmount t = sum_of_amounts (firstn (S i) out).
Proof. apply accumulate_prefix_sum. Qed.
End View.

Lemma chronological_valid (l : list Transaction) :
  chronological l -> (2 <= List.length l)%nat -> Forall valid_date l.
Proof.
  unfold chronological, valid_date. intros Hs Hlen.
  destruct l as [|x [|y l]]; simpl in Hlen; try lia.
  apply StronglySorted_inv in Hs as [Hs Hx].
  assert (Hd : forall a b, no_later a b -> Tx.date a <> None /\ Tx.date b <> None).
  { unfold no_later, JSDate.le. intros a b.
    destruct (Tx.date a), (Tx.date b); try discriminate. split; discriminate. }
  constructor.
  - apply Forall_inv in Hx. now apply Hd in Hx.
  - eapply Forall_impl; [|exact Hx]. intros z Hz. now apply Hd in Hz.
Qed.

(** C1, as the specification words it, fails: a row whose date does not
    parse passes the filter when no date bound is set, and an Invalid Date
    is in no order with any other date.  Of three payments whose second has
    the date [n/a], the view is not in ascending order of date, and no
    rearrangement of it is. *)
Lemma invalid_date_breaks_order :
  ~ (exists l : list Transaction,
        Permutation l (@Dashboard.transactions (JSDate.fixed_offset 0)
                         three_payments ["all"] "" "")
        /\ chronological l).
Proof.
  intros [l [Hp Hs]].
  assert (Hlen : List.length l = 3%nat) by (rewrite (Permutation_length Hp); reflexivity).
  assert (Hv : Forall valid_date l) by (apply chronological_valid; [assumption | lia]).
  apply (Permutation_Forall Hp) in Hv.
  vm_compute in Hv.
  apply Forall_inv_tail, Forall_inv in Hv. now apply Hv.
Qed.

(** C1, amended.  For every working set and every filter setting:
    whenever every transaction of the view has a valid date, the view is in
    ascending order of date and the transactions of one date stand in it in
    the order the parse step gave them; in every case the running total at
    each position is the sum of the amounts from the first position to that
    one, and the running total of the last position is [netAmount]. *)
Theorem transactions_sorted_and_totalled {tz : HostTimeZone}
        (rawTransactions : list RawTransaction) (selectedMerchants : list string)
        (startDate endDate : string) :
  (Forall valid_date
          (Dashboard.transactions rawTransactions selectedMerchants startDate endDate) ->
   chronological (Dashboard.transactions rawTransactions selectedMerchants startDate endDate)
   /\ forall d : TimeValue,
        map untotalled
            (filter (dated d)
                    (Dashboard.transactions rawTransactions selectedMerchants startDate endDate))
        = filter (dated d)
                 (filter (Dashboard.keeps selectedMerchants startDate endDate)
                         (map Dashboard.resolve rawTransactions)))
  /\ (forall (i : nat) (t : Transaction),
         nth_error (Dashboard.transactions rawTransactions selectedMerchants startDate endDate) i
         = Some t ->
         Tx.cumulativeAmount t
         = sum_of_amounts
             (firstn (S i)
                     (Dashboard.transactions rawTransactions selectedMerchants startDate endDate)))
  /\ (forall t : Transaction,
         nth_error (Dashboard.transactions rawTransactions selectedMerchants startDate endDate)
                   (List.length
                      (Dashboard.transactions rawTransactions selectedMerchants startDate endDate)
                    - 1)
         = Some t ->
         Tx.cumulativeAmount t
         = Dashboard.netAmount
             (Dashboard.transactions rawTransactions selectedMerchants startDate endDate)).
Proof.
  split.
  - intros Hv. split; [now apply transactions_chronological | apply transactions_stable].
  - split; [apply transactions_prefix_sum | apply netAmount_last].
Qed.

(** With a start or an end date set, no transaction with an Invalid Date
    passes the filter: the view is then in ascending order of date without
    further condition. *)
Lemma bounded_view_valid {tz : HostTimeZone}
      (rawTransactions : list RawTransaction) (selectedMerchants : list string)
      (startDate endDate : string) :
  startDate <> "" \/ endDate <> "" ->
  Forall valid_date
         (Dashboard.transactions rawTransactions selectedMerchants startDate endDate).
Proof.
  intros Hb.
  assert (Hsel : Forall valid_date
                   (filter (Dashboard.keeps selectedMerchants startDate endDate)
                           (map Dashboard.resolve rawTransactions))).
  { apply Forall_forall. intros t Ht. apply filter_In in Ht as [_ Hk].
    unfold Dashboard.keeps in Hk. apply andb_true_iff in Hk as [_ Hd].
    unfold Dashboard.matchesDate in Hd. unfold valid_date. intros Hnone.
    rewrite Hnone in Hd. cbn [JSDate.ge JSDate.le andb] in Hd.
    destruct (String.eqb_spec startDate ""), (String.eqb_spec endDate "");
      try discriminate; try (rewrite andb_false_r in Hd; discriminate). tauto. }
  apply (same_dates_Forall (fun d => d <> None)
           (Dashboard.filteredTransactions rawTransactions selectedMerchants startDate endDate)).
  - apply untotalled_dates. unfold Dashboard.transactions. now rewrite accumulate_untotalled.
  - unfold Dashboard.filteredTransactions.
    now apply (Permutation_Forall (Permutation_sym (Array_sort_Permutation Dashboard.by_date _))).
Qed.

(** ** Summary figures *)

Section NumberAlgebra.

Lemma number_add_comm (a b : number) : number_add a b = number_add b a.
Proof.
  destruct a as [|[]|x], b as [|[]|y]; simpl; try reflexivity.
  f_equal. apply Qcplus_comm.
Qed.

Lemma number_add_assoc (a b c : number) :
  number_add (number_add a b) c = number_add a (number_add b c).
Proof.
  destruct a as [|[]|x], b as [|[]|y], c as [|[]|z]; simpl; try reflexivity.
  f_equal. symmetry. apply Qcplus_assoc.
Qed.

Lemma number_add_zero_r (a : number) : number_add a zero = a.
Proof.
  destruct a as [|[]|x]; simpl; try reflexivity.
  f_equal. apply Qcplus_0_r.
Qed.

Lemma number_neg_involutive (a : number) : number_neg (number_neg a) = a.
Proof.
  destruct a as [|[]|x]; simpl; try reflexivity.
  f_equal. apply Qcopp_involutive.
Qed.

Lemma Qc_ltb_lt (x y : Qc) : Qc_ltb x y = true <-> (x < y)%Qc.
Proof.
  unfold Qc_ltb. rewrite Qclt_alt. destruct (x ?= y)%Qc; intuition congruence.
Qed.

(** Neither above nor below zero, and not NaN: zero. *)
Lemma number_neither (a : number) :
  a <> NaN -> number_gt a zero = false -> number_lt a zero = false -> a = zero.
Proof.
  destruct a as [|[]|x]; simpl; intros Hn Hgt Hlt; try congruence.
  unfold number_gt, number_lt, zero in *.
  f_equal. apply Qcle_antisym; apply Qcnot_lt_le; rewrite <- Qc_ltb_lt; congruence.
Qed.

Lemma number_gt_not_lt (a : number) :
  number_gt a zero = true -> number_lt a zero = false.
Proof.
  destruct a as [|[]|x]; simpl; try reflexivity; try discriminate.
  unfold number_gt, number_lt, zero. intros H. apply Qc_ltb_lt in H.
  destruct (Qc_ltb x (Q2Qc 0)) eqn:E; [|reflexivity].
  apply Qc_ltb_lt in E. exfalso. exact (Qclt_not_le _ _ H (Qclt_le_weak _ _ E)).
Qed.
End NumberAlgebra.

Section Decomposition.
Import Dashboard.

Lemma nonpositive_zero : nonpositive zero.
Proof. right. exists (Q2Qc 0). split; [reflexivity | apply Qcle_refl]. Qed.

Lemma nonpositive_add (s a : number) :
  nonpositive s -> number_lt a zero = true -> nonpositive (number_add s a).
Proof.
  intros [-> | [q [-> Hq]]]; destruct a as [|[]|x]; simpl; try discriminate; intros H.
  - now left.
  - now left.
  - now left.
  - right. exists (q + x)%Qc. split; [reflexivity|].
    apply Qc_ltb_lt in H. rewrite <- (Qcplus_0_l (Q2Qc 0)).
    apply Qcplus_le_compat; [assumption | now apply Qclt_le_weak].
Qed.

Lemma Math_abs_nonpositive (a : number) :
  nonpositive a -> Math_abs a = number_neg a.
Proof.
  intros [-> | [q [-> Hq]]]; simpl; [reflexivity|].
  destruct (Qc_ltb q (Q2Qc 0)) eqn:E; [reflexivity|].
  assert (q = Q2Qc 0) as ->.
  { apply Qcle_antisym; [assumption|]. apply Qcnot_lt_le. rewrite <- Qc_ltb_lt. congruence. }
  reflexivity.
Qed.

Lemma sum_amounts_snoc (l : list Transaction) (t : Transaction) :
  sum_amounts (l ++ [t]) = number_add (sum_amounts l) (Tx.amount t).
Proof. unfold sum_amounts. now rewrite fold_left_app. Qed.

Lemma sum_amounts_split (l : list Transaction) :
  Forall (fun t => Tx.amount t <> NaN) l ->
  sum_amounts l
  = number_add (sum_amounts (filter (fun t => number_gt (Tx.amount t) zero) l))
               (sum_amounts (filter (fun t => number_lt (Tx.amount t) zero) l))
  /\ nonpositive (sum_amounts (filter (fun t => number_lt (Tx.amount t) zero) l)).
Proof.
  induction l as [|t l IH] using rev_ind; intros Hl.
  - split; [reflexivity | apply nonpositive_zero].
  - apply Forall_app in Hl as [Hl Ht]. apply Forall_inv in Ht.
    destruct (IH Hl) as [Hsum Hneg]. rewrite !filter_app, sum_amounts_snoc, Hsum.
    cbn [filter].
    destruct (number_gt (Tx.amount t) zero) eqn:Egt.
    + rewrite (number_gt_not_lt _ Egt), app_nil_r, sum_amounts_snoc.
      split; [|assumption].
      rewrite !number_add_assoc. f_equal. apply number_add_comm.
    + rewrite app_nil_r. destruct (number_lt (Tx.amount t) zero) eqn:Elt.
      * rewrite sum_amounts_snoc. split; [apply number_add_assoc|].
        now apply nonpositive_add.
      * rewrite app_nil_r, (number_neither _ Ht Egt Elt), number_add_zero_r.
        now split.
Qed.

Lemma incoming_minus_outgoing (l : list Transaction) :
  Forall (fun t => Tx.amount t <> NaN) l ->
  number_sub (totalIncoming l) (totalOutgoing l) = sum_amounts l.
Proof.
  intros Hl. destruct (sum_amounts_split l Hl) as [Hsum Hneg].
  unfold number_sub, totalIncoming, totalOutgoing.
  now rewrite (Math_abs_nonpositive _ Hneg), number_neg_involutive.
Qed.

Lemma accumulate_last (l : list Transaction) (c : number) :
  l <> [] ->
  exists t, nth_error (accumulate c l) (List.length (accumulate c l) - 1) = Some t
            /\ Tx.cumulativeAmount t
               = fold_left (fun sum t => number_add sum (Tx.amount t)) (accumulate c l) c.
Proof.
  revert c. induction l as [|x l IH]; intros c Hne; [now elim Hne|].
  destruct l as [|y l].
  - eexists. split; reflexivity.
  - destruct (IH (number_add c (Tx.amount x))) as [t [Hn Hc]]; [discriminate|].
    exists t. split; [|exact Hc].
    rewrite <- Hn.
    replace (List.length (accumulate c (x :: y :: l)) - 1)%nat
      with (S (List.length (accumulate (number_add c (Tx.amount x)) (y :: l)) - 1))
      by (cbn [accumulate List.length]; lia).
    reflexivity.
Qed.

Lemma netAmount_accumulate (l : list Transaction) :
  netAmount (accumulate zero l) = sum_amounts (accumulate zero l).
Proof.
  destruct l as [|x l]; [reflexivity|].
  destruct (accumulate_last (x :: l) zero) as [t [Hn Hc]]; [discriminate|].
  unfold netAmount. rewrite Hn, Hc. reflexivity.
Qed.
End Decomposition.

(** ** Date range *)

Section DateRange.
Context {tz : HostTimeZone}.

Lemma matchesDate_unbounded (transaction : Transaction) :
  Dashboard.matchesDate "" "" transaction = true.
Proof. reflexivity. Qed.

Lemma matchesDate_no_start (endDate : string) (transaction : Transaction) :
  endDate <> "" ->
  Dashboard.matchesDate "" endDate transaction
  = JSDate.le (Tx.date transaction)
              (JSDate.setHours (JSDate.parse endDate) 23 59 59 999).
Proof.
  intros H. unfold Dashboard.matchesDate. simpl.
  now destruct (String.eqb_spec endDate "").
Qed.

Lemma matchesDate_no_end (startDate : string) (transaction : Transaction) :
  startDate <> "" ->
  Dashboard.matchesDate startDate "" transaction
  = JSDate.ge (Tx.date transaction)
              (JSDate.setHours (JSDate.parse startDate) 0 0 0 0).
Proof.
  intros H. unfold Dashboard.matchesDate. simpl.
  now destruct (String.eqb_spec startDate "").
Qed.
End DateRange.

(** X23.  In a zone that keeps one offset from UTC, [setHours(0, 0, 0, 0)] takes
    the first instant in UTC of day number [D] to the first instant in
    local time of the same day when the zone is not behind UTC, and of the
    day before when it is. *)
Lemma setHours_midnight_fixed_offset (minutes D : Z) :
  -1440 < minutes < 1440 ->
  @JSDate.setHours (JSDate.fixed_offset minutes) (Some (D * JSDate.msPerDay)) 0 0 0 0
  = JSDate.TimeClip ((if 0 <=? minutes then D else D - 1) * JSDate.msPerDay
                     - minutes * JSDate.msPerMinute).
Proof.
  intros H. unfold JSDate.setHours, JSDate.LocalTime, JSDate.UTC, JSDate.MakeDate,
    JSDate.MakeTime, JSDate.Day, JSDate.fixed_offset, LocalTZA,
    JSDate.msPerDay, JSDate.msPerMinute, JSDate.msPerHour, JSDate.msPerSecond.
  f_equal.
  replace ((D * 86400000 + minutes * 60000) / 86400000)
    with (if 0 <=? minutes then D else D - 1); [lia|].
  destruct (Z.leb_spec 0 minutes).
  - apply Z.div_unique with (r := minutes * 60000); lia.
  - apply Z.div_unique with (r := 86400000 + minutes * 60000); lia.
Qed.

(** C7 at a failing input.  In a zone six hours behind UTC all year, with
    the start date 15 January 2023 and no end date, the payment dated 14
    January passes the date-range filter, although its date is strictly
    before the first instant of 15 January. *)
Theorem start_bound_behind_UTC :
  @Dashboard.matchesDate (JSDate.fixed_offset (-360)) "2023-01-15" ""
     (@Dashboard.resolve (JSDate.fixed_offset (-360)) payment_14_January) = true
  /\ strictly_before
       (Tx.date (@Dashboard.resolve (JSDate.fixed_offset (-360)) payment_14_January))
       (@first_instant_of_day (JSDate.fixed_offset (-360)) 2023 1 15).
Proof. split; [vm_compute; reflexivity | vm_compute; reflexivity]. Qed.

(** ** The properties at concrete inputs *)

Lemma transactions_sorted_and_totalled_witness :
  chronological (@Dashboard.transactions (JSDate.fixed_offset 0) two_payments ["all"] "" "").
Proof.
  refine (proj1 (proj1 (@transactions_sorted_and_totalled (JSDate.fixed_offset 0)
                          two_payments ["all"] "" "") _)).
  vm_compute. repeat constructor; discriminate.
Defined.

Lemma parseAmount_spec_witness :
  Dashboard.parseAmount "12 000" = parseFloat (replace_commas_spaces "12 000").
Proof.
  apply (proj1 (proj2 parseAmount_spec) "12 000"). discriminate.
Defined.

Lemma upload_all_or_nothing_witness :
  (Dashboard.rawTransactions
     (Dashboard.handleFileUpload [march_file; unreadable_file] filtered_session)
   = Dashboard.rawTransactions filtered_session
   /\ Dashboard.selectedMerchants
        (Dashboard.handleFileUpload [march_file; unreadable_file] filtered_session)
      = Dashboard.selectedMerchants filtered_session
   /\ Dashboard.startDate
        (Dashboard.handleFileUpload [march_file; unreadable_file] filtered_session)
      = Dashboard.startDate filtered_session
   /\ Dashboard.endDate
        (Dashboard.handleFileUpload [march_file; unreadable_file] filtered_session)
      = Dashboard.endDate filtered_session
   /\ Dashboard.uploadedFiles
        (Dashboard.handleFileUpload [march_file; unreadable_file] filtered_session)
      = Dashboard.uploadedFiles filtered_session)
  /\ Dashboard.rawTransactions
       (Dashboard.handleFileUpload [march_file; march_file] filtered_session)
     = List.concat (map parsed_rows [march_file; march_file]).
Proof.
  split.
  - apply (proj1 (upload_all_or_nothing [march_file; unreadable_file] filtered_session)).
    exists unreadable_file. split; [right; now left | now exists "NotReadableError"].
  - apply (proj2 (upload_all_or_nothing [march_file; march_file] filtered_session)).
    + discriminate.
    + intros file [<- | [<- | []]] [e He]; discriminate.
Defined.

Lemma upload_replaces_and_resets_witness :
  Dashboard.rawTransactions (Dashboard.handleFileUpload [march_file] filtered_session)
  = List.concat (map parsed_rows [march_file])
  /\ Dashboard.selectedMerchants (Dashboard.handleFileUpload [march_file] filtered_session)
     = ["all"]
  /\ Dashboard.startDate (Dashboard.handleFileUpload [march_file] filtered_session)
     = Dashboard.startDate filtered_session
  /\ Dashboard.endDate (Dashboard.handleFileUpload [march_file] filtered_session)
     = Dashboard.endDate filtered_session.
Proof.
  apply (upload_replaces_and_resets [march_file] filtered_session).
  - discriminate.
  - intros file [<- | []] [e He]. discriminate.
Defined.

Lemma all_selected_collapse_witness :
  @Dashboard.transactions (JSDate.fixed_offset 0) two_payments
     (Dashboard.merchants two_payments) "" ""
  = @Dashboard.transactions (JSDate.fixed_offset 0) two_payments ["all"] "" ""
  /\ MultiSelect.handleOptionClick ["Alice"; "Bob"] ["Alice"] "Bob" = ["all"].
Proof.
  split.
  - apply (proj1 (@all_selected_collapse (JSDate.fixed_offset 0))). intros m. tauto.
  - apply (proj2 (@all_selected_collapse (JSDate.fixed_offset 0)) ["Alice"; "Bob"] ["Alice"] "Bob").
    + repeat constructor; simpl; intuition discriminate.
    + repeat constructor; simpl; intuition discriminate.
    + intros x [<- | []]. now left.
    + right. now left.
    + reflexivity.
    + intros o [<- | [<- | []]] Hne; [reflexivity | now elim Hne].
Defined.

Lemma emitted_selection_invariant_witness :
  MultiSelect.handleOptionClick ["Alice"; "Bob"] ["all"] "Alice" = ["all"]
  \/ (NoDup (MultiSelect.handleOptionClick ["Alice"; "Bob"] ["all"] "Alice")
      /\ incl (MultiSelect.handleOptionClick ["Alice"; "Bob"] ["all"] "Alice") ["Alice"; "Bob"]
      /\ ~ In "all" (MultiSelect.handleOptionClick ["Alice"; "Bob"] ["all"] "Alice")
      /\ ((List.length (MultiSelect.handleOptionClick ["Alice"; "Bob"] ["all"] "Alice")
           < List.length ["Alice"; "Bob"])%nat
          \/ MultiSelect.handleOptionClick ["Alice"; "Bob"] ["all"] "Alice" = [])).
Proof.
  apply (emitted_selection_invariant ["Alice"; "Bob"]).
  - repeat constructor; simpl; intuition discriminate.
  - simpl. intuition discriminate.
  - apply emitted_option_click; [apply emitted_initial | now left].
Defined.

(** The scenarios of the specification. *)

Example scenario_two_payments :
  map Tx.cumulativeAmount
      (@Dashboard.transactions (JSDate.fixed_offset 0) two_payments ["all"] "" "")
  = [Finite (Q2Qc (-50)); Finite (Q2Qc 150)].
Proof.
  vm_compute. reflexivity.
Qed.

Example scenario_general_authorization (transaction : Transaction) :
  contains (Tx.type transaction) "General Authorization" ->
  Dashboard.isCompleted transaction = false.
Proof.
  intros H. apply String_includes_iff in H.
  unfold Dashboard.isCompleted. rewrite H. cbn [negb].
  now rewrite !andb_false_r.
Qed.

Example scenario_empty_amount :
  Dashboard.parseAmount "" = zero /\ number_strict_neq (Dashboard.parseAmount "") zero = false.
Proof. split; reflexivity. Qed.

Example scenario_pending_row :
  map Tx.amount
      (@Dashboard.transactions (JSDate.fixed_offset 0) (parsed_rows pending_file) ["all"] "" "")
  = [Finite (Q2Qc 100)]
  /\ Dashboard.totalIncoming
       (@Dashboard.transactions (JSDate.fixed_offset 0) (parsed_rows pending_file) ["all"] "" "")
     = Finite (Q2Qc 100)
  /\ Dashboard.netAmount
       (@Dashboard.transactions (JSDate.fixed_offset 0) (parsed_rows pending_file) ["all"] "" "")
     = Finite (Q2Qc 100).
Proof.
  repeat split; try (apply f_equal with (f := fun q => [Finite q]));
    try (apply f_equal with (f := Finite)); apply Qc_is_canon; reflexivity.
Qed.

(** * Further properties of the code *)

(** ** The view as a whole *)

Section ViewFacts.
Context {tz : HostTimeZone}.

Lemma view_valid_selected (rawTransactions : list RawTransaction)
      (selectedMerchants : list string) (startDate endDate : string) :
  Forall valid_date
         (Dashboard.transactions rawTransactions selectedMerchants startDate endDate) ->
  Forall valid_date
         (filter (Dashboard.keeps selectedMerchants startDate endDate)
                 (map Dashboard.resolve rawTransactions)).
Proof.
  intros Hv.
  apply (Permutation_Forall (Array_sort_Permutation Dashboard.by_date _)).
  fold (Dashboard.filteredTransactions rawTransactions selectedMerchants startDate endDate).
  apply (same_dates_Forall (fun d => d <> None)
           (Dashboard.transactions rawTransactions selectedMerchants startDate endDate));
    [|exact Hv].
  apply untotalled_dates. unfold Dashboard.transactions. now rewrite accumulate_untotalled.
Qed.

Lemma filter_none {A : Type} (p : A -> bool) (l : list A) :
  (forall x, In x l -> p x = false) -> filter p l = [].
Proof.
  induction l as [|x l IH]; intros H; [reflexivity|].
  cbn [filter]. rewrite (H x (or_introl eq_refl)). apply IH.
  intros y Hy. apply H. now right.
Qed.

Lemma chronological_filter (p : Transaction -> bool) (l : list Transaction) :
  chronological l -> chronological (filter p l).
Proof.
  unfold chronological. induction 1 as [|x l Hs IH Hx]; cbn [filter]; [constructor|].
  destruct (p x); [|assumption].
  constructor; [assumption|].
  apply Forall_forall. intros y Hy. apply filter_In in Hy as [Hy _].
  exact (proj1 (Forall_forall _ _) Hx y Hy).
Qed.

Lemma filter_swap {A : Type} (p q : A -> bool) (l : list A) :
  filter p (filter q l) = filter q (filter p l).
Proof.
  induction l as [|x l IH]; [reflexivity|]. cbn [filter].
  destruct (p x) eqn:Ep, (q x) eqn:Eq; cbn [filter]; rewrite ?Ep, ?Eq, IH; reflexivity.
Qed.

Lemma filter_both {A : Type} (p q : A -> bool) (l : list A) :
  filter p (filter q l) = filter (fun x => q x && p x) l.
Proof.
  induction l as [|x l IH]; [reflexivity|]. cbn [filter].
  destruct (q x); cbn [filter andb]; [destruct (p x)|]; now rewrite IH.
Qed.

Lemma Array_sort_filter (p : Transaction -> bool) (l : list Transaction) :
  Forall valid_date l ->
  filter p (Array_sort Dashboard.by_date l) = Array_sort Dashboard.by_date (filter p l).
Proof.
  intros Hv. apply chronological_unique.
  - apply chronological_filter. now apply Array_sort_chronological.
  - apply Array_sort_chronological. apply Forall_forall. intros x Hx.
    apply filter_In in Hx as [Hx _]. exact (proj1 (Forall_forall _ _) Hv x Hx).
  - intros d. now rewrite filter_swap, !Array_sort_stable, filter_swap.
Qed.
End ViewFacts.

(** X1.  Nothing is lost and nothing is doubled on the way to the chart: the
    view, running totals apart, is a rearrangement of the resolved rows
    that pass the filter. *)
Theorem view_is_rearrangement {tz : HostTimeZone}
        (rawTransactions : list RawTransaction) (selectedMerchants : list string)
        (startDate endDate : string) :
  Permutation
    (map untotalled
         (Dashboard.transactions rawTransactions selectedMerchants startDate endDate))
    (filter (Dashboard.keeps selectedMerchants startDate endDate)
            (map Dashboard.resolve rawTransactions)).
Proof.
  rewrite transactions_untotalled. apply Array_sort_Permutation.
Qed.

(** X3.  A selection that holds neither "all" nor the name of any uploaded row
    leaves the view empty; so does the empty selection that "All Merchants"
    hands out when it is unticked. *)
Theorem unknown_selection_empty_view {tz : HostTimeZone}
        (rawTransactions : list RawTransaction) (selectedMerchants : list string)
        (startDate endDate : string) :
  ~ In "all" selectedMerchants ->
  (forall m, In m selectedMerchants -> ~ In m (Dashboard.merchants rawTransactions)) ->
  Dashboard.transactions rawTransactions selectedMerchants startDate endDate = [].
Proof.
  intros Hall Hnone.
  unfold Dashboard.transactions, Dashboard.filteredTransactions.
  rewrite filter_none; [reflexivity|].
  intros t Ht. apply in_map_iff in Ht as [r [<- Hr]].
  unfold Dashboard.keeps.
  destruct (Dashboard.isCompleted (Dashboard.resolve r)) eqn:E; [|reflexivity].
  apply isCompleted_named in E. cbn [Dashboard.resolve Tx.name] in E.
  unfold Dashboard.matchesMerchant. cbn [Dashboard.resolve Tx.name].
  apply Array_includes_false_iff in Hall. rewrite Hall.
  assert (Hn : Array_includes (Raw.name r) selectedMerchants = false).
  { apply Array_includes_false_iff. intros Hin. apply (Hnone _ Hin).
    apply merchants_members. split; [assumption | now exists r]. }
  now rewrite Hn.
Qed.

(** X4.  As soon as a start or an end date is set, the view is in ascending
    order of date whatever the rows hold: a row whose date does not parse
    passes no date bound. *)
Theorem bounded_view_chronological {tz : HostTimeZone}
        (rawTransactions : list RawTransaction) (selectedMerchants : list string)
        (startDate endDate : string) :
  startDate <> "" \/ endDate <> "" ->
  chronological (Dashboard.transactions rawTransactions selectedMerchants startDate endDate).
Proof.
  intros Hb. apply transactions_chronological. now apply bounded_view_valid.
Qed.

Lemma filteredTransactions_narrowed {tz : HostTimeZone}
      (rawTransactions : list RawTransaction) (selectedMerchants : list string)
      (startDate endDate : string) :
  Forall valid_date
         (filter (Dashboard.keeps ["all"] startDate endDate)
                 (map Dashboard.resolve rawTransactions)) ->
  Dashboard.filteredTransactions rawTransactions selectedMerchants startDate endDate
  = filter (Dashboard.matchesMerchant selectedMerchants)
           (Dashboard.filteredTransactions rawTransactions ["all"] startDate endDate).
Proof.
  intros Hv. unfold Dashboard.filteredTransactions.
  rewrite (Array_sort_filter _ _ Hv). f_equal.
  rewrite filter_both. apply filter_ext. intros t.
  unfold Dashboard.keeps, Dashboard.matchesMerchant. cbn [Array_includes existsb].
  rewrite String.eqb_refl. cbn [orb].
  destruct (Dashboard.isCompleted t), (Dashboard.matchesDate startDate endDate t),
    (Array_includes "all" selectedMerchants || Array_includes (Tx.name t) selectedMerchants);
    reflexivity.
Qed.

(** X2.  Narrowing the merchants only takes transactions out.  When the
    dates of the view of all merchants are valid, the view of a selection
    is that view cut down to the selected merchants, in the same order (the
    running totals are then taken anew). *)
Theorem narrowing_keeps_order {tz : HostTimeZone}
        (rawTransactions : list RawTransaction) (selectedMerchants : list string)
        (startDate endDate : string) :
  Forall valid_date (Dashboard.transactions rawTransactions ["all"] startDate endDate) ->
  map untotalled
      (Dashboard.transactions rawTransactions selectedMerchants startDate endDate)
  = filter (Dashboard.matchesMerchant selectedMerchants)
           (map untotalled (Dashboard.transactions rawTransactions ["all"] startDate endDate)).
Proof.
  intros Hv. apply view_valid_selected in Hv.
  rewrite !transactions_untotalled.
  now apply filteredTransactions_narrowed.
Qed.

(** ** Totals *)

Section TotalsSign.
Import Dashboard.

Lemma nonnegative_zero : nonnegative zero.
Proof. right. exists (Q2Qc 0). split; [reflexivity | apply Qcle_refl]. Qed.

Lemma nonnegative_add (s a : number) :
  nonnegative s -> number_gt a zero = true -> nonnegative (number_add s a).
Proof.
  unfold number_gt.
  intros [-> | [q [-> Hq]]]; destruct a as [|[]|x]; simpl; try discriminate; intros H.
  - now left.
  - now left.
  - now left.
  - right. exists (q + x)%Qc. split; [reflexivity|].
    apply Qc_ltb_lt in H. rewrite <- (Qcplus_0_l (Q2Qc 0)).
    apply Qcplus_le_compat; [assumption | now apply Qclt_le_weak].
Qed.

Lemma sum_positive (l : list Transaction) :
  Forall (fun t => number_gt (Tx.amount t) zero = true) l -> nonnegative (sum_amounts l).
Proof.
  induction l as [|t l IH] using rev_ind; intros Hl; [apply nonnegative_zero|].
  apply Forall_app in Hl as [Hl Ht]. apply Forall_inv in Ht.
  rewrite sum_amounts_snoc. apply nonnegative_add; [now apply IH | assumption].
Qed.

Lemma sum_negative (l : list Transaction) :
  Forall (fun t => number_lt (Tx.amount t) zero = true) l -> nonpositive (sum_amounts l).
Proof.
  induction l as [|t l IH] using rev_ind; intros Hl; [apply nonpositive_zero|].
  apply Forall_app in Hl as [Hl Ht]. apply Forall_inv in Ht.
  rewrite sum_amounts_snoc. apply nonpositive_add; [now apply IH | assumption].
Qed.

Lemma Forall_filter_holds {A : Type} (p : A -> bool) (l : list A) :
  Forall (fun x => p x = true) (filter p l).
Proof. apply Forall_forall. intros x Hx. now apply filter_In in Hx. Qed.

Lemma Math_abs_nonnegative (a : number) : nonpositive a -> nonnegative (Math_abs a).
Proof.
  intros H. rewrite (Math_abs_nonpositive a H).
  destruct H as [-> | [q [-> Hq]]]; simpl; [now left|].
  right. exists (- q)%Qc. split; [reflexivity|].
  apply Qcopp_le_compat in Hq. exact Hq.
Qed.
End TotalsSign.

(** X6.  The two totals are never NaN and never below zero, whatever the view
    holds: an amount that is NaN is in neither of them, even though it
    makes the net amount NaN. *)
Theorem totals_never_negative (transactions : list Transaction) :
  nonnegative (Dashboard.totalIncoming transactions)
  /\ nonnegative (Dashboard.totalOutgoing transactions).
Proof.
  split.
  - apply sum_positive.
    apply (Forall_filter_holds (fun t => number_gt (Tx.amount t) zero)).
  - apply Math_abs_nonnegative, sum_negative.
    apply (Forall_filter_holds (fun t => number_lt (Tx.amount t) zero)).
Qed.

(** ** Merchant options across files *)

Section SetFromAppend.
Let add (seen : list string) (x : string) : list string :=
  if Array_includes x seen then seen else seen ++ [x].

Lemma Set_from_snoc (xs : list string) (x : string) :
  Set_from (xs ++ [x]) = add (Set_from xs) x.
Proof. unfold Set_from. now rewrite fold_left_app. Qed.

Lemma Set_from_acc (xs seen : list string) :
  fold_left add xs seen
  = seen ++ filter (fun x => negb (Array_includes x seen)) (Set_from xs).
Proof.
  induction xs as [|x xs IH] using rev_ind.
  - cbn. now rewrite app_nil_r.
  - rewrite fold_left_app. cbn [fold_left]. rewrite IH, Set_from_snoc.
    unfold add.
    destruct (Array_includes x (Set_from xs)) eqn:Ex.
    + assert (Hin : Array_includes x
                      (seen ++ filter (fun y => negb (Array_includes y seen)) (Set_from xs))
                    = true).
      { apply Array_includes_iff, in_or_app.
        destruct (Array_includes x seen) eqn:Es.
        - left. now apply Array_includes_iff.
        - right. apply filter_In. split; [now apply Array_includes_iff | now rewrite Es]. }
      now rewrite Hin.
    + rewrite filter_app. cbn [filter].
      destruct (Array_includes x seen) eqn:Es; cbn [negb].
      * assert (Hin : Array_includes x
                        (seen ++ filter (fun y => negb (Array_includes y seen)) (Set_from xs))
                      = true).
        { apply Array_includes_iff, in_or_app. left. now apply Array_includes_iff. }
        now rewrite Hin, app_nil_r.
      * assert (Hout : Array_includes x
                         (seen ++ filter (fun y => negb (Array_includes y seen)) (Set_from xs))
                       = false).
        { apply Array_includes_false_iff. intros Hin. apply in_app_or in Hin as [Hin | Hin].
          - apply Array_includes_false_iff in Es. contradiction.
          - apply filter_In in Hin as [Hin _].
            apply Array_includes_false_iff in Ex. contradiction. }
        now rewrite Hout, app_assoc.
Qed.

Lemma Set_from_app (xs ys : list string) :
  Set_from (xs ++ ys)
  = Set_from xs ++ filter (fun y => negb (Array_includes y (Set_from xs))) (Set_from ys).
Proof.
  unfold Set_from at 1. rewrite fold_left_app. apply Set_from_acc.
Qed.
End SetFromAppend.

(** X7.  When rows are joined, as the rows of the files of a batch are, the
    merchant options of the first rows come first, in their order, and the
    later rows add only the names not yet seen, in the order of their first
    occurrence. *)
Theorem merchants_of_joined_rows (first later : list RawTransaction) :
  Dashboard.merchants (first ++ later)
  = Dashboard.merchants first
    ++ filter (fun name => negb (Array_includes name (Dashboard.merchants first)))
              (Dashboard.merchants later).
Proof.
  unfold Dashboard.merchants. rewrite map_app, Set_from_app, filter_app. f_equal.
  rewrite !filter_both. apply filter_ext_in. intros name Hin.
  destruct (String.eqb_spec name "") as [->|Hne]; cbn [negb andb].
  - now rewrite andb_false_r.
  - rewrite andb_true_r. f_equal.
    destruct (Array_includes name (Set_from (map Raw.name first))) eqn:E.
    + symmetry. apply Array_includes_iff. apply filter_In.
      apply Array_includes_iff in E. split; [assumption | now apply nonempty_iff].
    + symmetry. apply Array_includes_false_iff. intros H. apply filter_In in H as [H _].
      apply Array_includes_false_iff in E. contradiction.
Qed.

(** ** Upload, again *)

(** X8.  Picking the same files a second time changes nothing: the upload is
    idempotent, whether the batch parses or not. *)
Theorem upload_idempotent (files : list Dashboard.File) (s : Dashboard.State) :
  Dashboard.handleFileUpload files (Dashboard.handleFileUpload files s)
  = Dashboard.handleFileUpload files s.
Proof.
  destruct files as [|f files]; [reflexivity|].
  unfold Dashboard.handleFileUpload.
  destruct (Dashboard.Promise_all (map Dashboard.processCSVFile (f :: files))); reflexivity.
Qed.

(** ** MultiSelect: what a click does *)

Section Clicks.
Import MultiSelect.
Variable options : list string.
Hypothesis options_NoDup : NoDup options.
Hypothesis options_no_all : ~ In "all" options.

Lemma isSelected_explicit (selected : list string) (o : string) :
  ~ In "all" selected -> isSelected selected o = Array_includes o selected.
Proof.
  intros H. unfold isSelected. apply Array_includes_false_iff in H. now rewrite H.
Qed.

Lemma Array_includes_remove (x o : string) (l : list string) :
  Array_includes o (filter (fun s => negb (s =? x)%string) l)
  = Array_includes o l && negb (o =? x)%string.
Proof.
  destruct (Array_includes o (filter (fun s => negb (s =? x)%string) l)) eqn:E.
  - apply Array_includes_iff, remove_option_In in E as [Hin Hne].
    apply Array_includes_iff in Hin. apply neqb_iff in Hne. now rewrite Hin, Hne.
  - destruct (Array_includes o l) eqn:El; [|reflexivity].
    destruct (String.eqb_spec o x) as [->|Hne]; [reflexivity|].
    apply Array_includes_false_iff in E. exfalso. apply E.
    apply remove_option_In. split; [now apply Array_includes_iff | assumption].
Qed.

Lemma Array_includes_snoc (x o : string) (l : list string) :
  Array_includes o (l ++ [x]) = Array_includes o l || (o =? x)%string.
Proof.
  unfold Array_includes. rewrite existsb_app. cbn [existsb]. now rewrite orb_false_r.
Qed.

Lemma click_toggles (selected : list string) (option o : string) :
  well_formed options selected -> In option options -> In o options ->
  isSelected (handleOptionClick options selected option) o
  = if (o =? option)%string then negb (isSelected selected o) else isSelected selected o.
Proof.
  intros Hwf Hin Ho. unfold handleOptionClick.
  destruct Hwf as [-> | [Hnd [Hincl [Hall Hlen]]]].
  - change (Array_includes "all" ["all"]) with true. cbv iota.
    apply Array_includes_iff in Hin as Hinb. rewrite Hinb.
    pose proof (remove_option_length option options Hin) as Hlt.
    destruct (Nat.eqb_spec
                (List.length (filter (fun s => negb (s =? option)%string) options))
                (List.length options)) as [Heq|_]; [lia|].
    rewrite isSelected_explicit.
    + rewrite Array_includes_remove. apply Array_includes_iff in Ho. rewrite Ho.
      unfold isSelected. change (Array_includes "all" ["all"]) with true. cbv iota.
      now destruct (o =? option)%string.
    + intros H. apply remove_option_In in H. tauto.
  - apply Array_includes_false_iff in Hall as Hallb. rewrite Hallb.
    rewrite (isSelected_explicit selected o Hall).
    assert (Hle : (List.length selected <= List.length options)%nat)
      by now apply NoDup_incl_length.
    destruct (Array_includes option selected) eqn:E.
    + apply Array_includes_iff in E.
      pose proof (remove_option_length option selected E) as Hlt.
      destruct (Nat.eqb_spec
                  (List.length (filter (fun s => negb (s =? option)%string) selected))
                  (List.length options)) as [Heq|_]; [lia|].
      rewrite isSelected_explicit.
      * rewrite Array_includes_remove.
        destruct (String.eqb_spec o option) as [->|Hne].
        -- apply Array_includes_iff in E. now rewrite E.
        -- now rewrite andb_true_r.
      * intros H. apply remove_option_In in H. tauto.
    + apply Array_includes_false_iff in E.
      assert (Hnd' : NoDup (selected ++ [option])).
      { apply NoDup_app; [assumption | repeat constructor; intros [] | ].
        intros a Ha [<- | []]. contradiction. }
      assert (Hincl' : incl (selected ++ [option]) options).
      { intros x Hx. apply in_app_or in Hx as [Hx | [<- | []]]; [now apply Hincl | assumption]. }
      destruct (Nat.eqb_spec (List.length (selected ++ [option])) (List.length options))
        as [Heq|Hneq].
      * assert (Hfull : incl options (selected ++ [option])).
        { apply NoDup_length_incl; [assumption | lia | assumption]. }
        unfold isSelected. change (Array_includes "all" ["all"]) with true.
        cbv iota.
        destruct (String.eqb_spec o option) as [->|Hne].
        -- apply Array_includes_false_iff in E. now rewrite E.
        -- symmetry. apply Array_includes_iff.
           specialize (Hfull o Ho). apply in_app_or in Hfull as [H | [H | []]];
             [assumption | now elim Hne].
      * rewrite isSelected_explicit.
        -- rewrite Array_includes_snoc.
           destruct (String.eqb_spec o option) as [->|Hne].
           ++ apply Array_includes_false_iff in E. now rewrite E.
           ++ now rewrite orb_false_r.
        -- intros H. apply in_app_or in H as [H | [H | []]]; [contradiction|].
           rewrite H in Hin. contradiction.
Qed.
End Clicks.

(** X10.  A click on an option flips that option and no other: over a
    duplicate-free list of options without "all", and from a selection the
    component can hold, the option clicked is selected afterwards exactly
    when it was not before, and every other option is as it was. *)
Theorem option_click_toggles (options selected : list string) (option o : string) :
  NoDup options -> ~ In "all" options ->
  emitted options selected -> In option options -> In o options ->
  MultiSelect.isSelected (MultiSelect.handleOptionClick options selected option) o
  = if (o =? option)%string
    then negb (MultiSelect.isSelected selected o)
    else MultiSelect.isSelected selected o.
Proof.
  intros Hnd Hall Hem Hin Ho.
  apply click_toggles; try assumption.
  clear Hin Ho. induction Hem as [| selected H IH | selected x H IH Hx].
  - now left.
  - apply handleSelectAll_well_formed.
  - now apply handleOptionClick_well_formed.
Qed.

Lemma emitted_is_well_formed (options selected : list string) :
  NoDup options -> ~ In "all" options ->
  emitted options selected -> well_formed options selected.
Proof.
  intros Hnd Hall Hem. induction Hem as [| selected H IH | selected x H IH Hx].
  - now left.
  - apply handleSelectAll_well_formed.
  - now apply handleOptionClick_well_formed.
Qed.


Lemma isAllSelected_empty (options : list string) :
  MultiSelect.isAllSelected options [] = false.
Proof. unfold MultiSelect.isAllSelected. now destruct options. Qed.

(** X12.  "All Merchants" alternates between the empty selection and "all": from
    any selection its first click hands out one of the two, and every
    further click the other one. *)
Theorem select_all_alternates (options selected : list string) :
  (MultiSelect.handleSelectAll options selected = []
   \/ MultiSelect.handleSelectAll options selected = ["all"])
  /\ MultiSelect.handleSelectAll options [] = ["all"]
  /\ MultiSelect.handleSelectAll options ["all"] = []
  /\ MultiSelect.handleSelectAll options
       (MultiSelect.handleSelectAll options
          (MultiSelect.handleSelectAll options selected))
     = MultiSelect.handleSelectAll options selected.
Proof.
  assert (H0 : MultiSelect.handleSelectAll options [] = ["all"]).
  { unfold MultiSelect.handleSelectAll. now rewrite isAllSelected_empty. }
  assert (H1 : MultiSelect.handleSelectAll options ["all"] = []) by reflexivity.
  assert (H : MultiSelect.handleSelectAll options selected = []
              \/ MultiSelect.handleSelectAll options selected = ["all"]).
  { unfold MultiSelect.handleSelectAll.
    destruct (MultiSelect.isAllSelected options selected); [now left | now right]. }
  repeat split; try assumption.
  destruct H as [-> | ->]; [now rewrite H0, H1 | now rewrite H1, H0].
Qed.

(** ** Selection and view together *)

Lemma view_names_are_merchants {tz : HostTimeZone}
      (rawTransactions : list RawTransaction) (selectedMerchants : list string)
      (startDate endDate : string) (t : Transaction) :
  In t (map untotalled
            (Dashboard.transactions rawTransactions selectedMerchants startDate endDate)) ->
  In (Tx.name t) (Dashboard.merchants rawTransactions).
Proof.
  rewrite transactions_untotalled. unfold Dashboard.filteredTransactions. intros Ht.
  apply (Permutation_in _ (Array_sort_Permutation Dashboard.by_date _)) in Ht.
  apply filter_In in Ht as [Ht Hk]. apply in_map_iff in Ht as [r [<- Hr]].
  unfold Dashboard.keeps in Hk. apply andb_true_iff in Hk as [Hk _].
  apply andb_true_iff in Hk as [Hk _]. apply isCompleted_named in Hk.
  apply merchants_members. split; [exact Hk | now exists r].
Qed.

(** X16.  Unticking one merchant while all are selected takes exactly that
    merchant's transactions out of the view and leaves the others in their
    order, when no merchant is named "all" and the dates of the view are
    valid. *)
Theorem unticking_one_merchant {tz : HostTimeZone}
        (rawTransactions : list RawTransaction) (merchant startDate endDate : string) :
  ~ In "all" (Dashboard.merchants rawTransactions) ->
  In merchant (Dashboard.merchants rawTransactions) ->
  Forall valid_date (Dashboard.transactions rawTransactions ["all"] startDate endDate) ->
  map untotalled
      (Dashboard.transactions rawTransactions
         (MultiSelect.handleOptionClick (Dashboard.merchants rawTransactions) ["all"] merchant)
         startDate endDate)
  = filter (fun t => negb (Tx.name t =? merchant)%string)
           (map untotalled (Dashboard.transactions rawTransactions ["all"] startDate endDate)).
Proof.
  intros Hall Hin Hv. apply view_valid_selected in Hv as Hsel.
  rewrite !transactions_untotalled.
  rewrite (filteredTransactions_narrowed _ _ _ _ Hsel).
  rewrite <- (transactions_untotalled rawTransactions ["all"] startDate endDate).
  apply filter_ext_in. intros t Ht.
  apply view_names_are_merchants in Ht.
  unfold MultiSelect.handleOptionClick.
  change (Array_includes "all" ["all"]) with true. cbv iota.
  apply Array_includes_iff in Hin as Hinb. rewrite Hinb.
  pose proof (remove_option_length merchant _ Hin) as Hlt.
  destruct (Nat.eqb_spec
              (List.length (filter (fun s => negb (s =? merchant)%string)
                                   (Dashboard.merchants rawTransactions)))
              (List.length (Dashboard.merchants rawTransactions))) as [Heq|_]; [lia|].
  unfold Dashboard.matchesMerchant. rewrite !Array_includes_remove.
  apply Array_includes_false_iff in Hall. rewrite Hall.
  apply Array_includes_iff in Ht. rewrite Ht. reflexivity.
Qed.

(** ** MultiSelect: what is shown *)

(** With a merchant named "all" among the options, unticking another one
    hands out a selection that holds "all" beside a merchant: the box stays
    ticked though the selection is not "all" alone. *)
Example merchant_named_all :
  MultiSelect.handleOptionClick ["all"; "Bob"; "Carol"] ["all"] "Bob" = ["all"; "Carol"]
  /\ MultiSelect.isAllSelected ["all"; "Bob"; "Carol"] ["all"; "Carol"] = true.
Proof. split; reflexivity. Qed.

(** X13.  The "All Merchants" box is never ticked and dashed at once, whatever
    the options and the selection.  When the options are distinct and none
    of them is named "all", then for every selection the component can
    hold (the initial one, or one a click has handed out) the box is
    ticked exactly when the selection is "all", and dashed exactly when
    some merchants, not all, are selected. *)
Theorem select_all_box (options selected : list string) :
  (MultiSelect.isAllSelected options selected
   && MultiSelect.isIndeterminate options selected = false)
  /\ (NoDup options -> ~ In "all" options -> emitted options selected ->
      (MultiSelect.isAllSelected options selected = true <-> selected = ["all"])
      /\ (MultiSelect.isIndeterminate options selected = true <->
          selected <> ["all"] /\ selected <> [])).
Proof.
  unfold MultiSelect.isAllSelected, MultiSelect.isIndeterminate. split.
  - destruct (Array_includes "all" selected); cbn [orb negb andb].
    + now rewrite andb_false_r.
    + destruct (Nat.eqb_spec (List.length selected) (List.length options)) as [->|Hne].
      * now rewrite Nat.ltb_irrefl, !andb_false_r.
      * now rewrite andb_false_r.
  - intros Hnodup Hnone Hem.
    destruct (emitted_is_well_formed options selected Hnodup Hnone Hem)
      as [-> | [Hnd [Hincl [Hall Hlen]]]].
    + split; split; try reflexivity; try discriminate. intros [H _]. now elim H.
    + apply Array_includes_false_iff in Hall as Hallb. rewrite Hallb. cbn [orb negb].
      assert (Hne : selected <> ["all"]).
      { intros ->. apply Hall. now left. }
      split; split.
      * intros H. apply andb_true_iff in H as [H1 H2].
        apply Nat.ltb_lt in H1. apply Nat.eqb_eq in H2.
        destruct Hlen as [Hlt | ->]; [lia | simpl in H2; lia].
      * intros H. contradiction.
      * intros H. split; [assumption|]. intros ->. discriminate.
      * intros [_ Hnil]. destruct Hlen as [Hlt | ->]; [|now elim Hnil].
        rewrite andb_true_r. apply andb_true_iff. split; [|now apply Nat.ltb_lt].
        apply Nat.ltb_lt. destruct selected; [now elim Hnil | simpl; lia].
Qed.

Lemma toLowerCase_app (a b : string) :
  toLowerCase (a ++ b) = (toLowerCase a ++ toLowerCase b)%string.
Proof. induction a as [|c a IH]; [reflexivity|]. simpl. now rewrite IH. Qed.

Lemma toLowerCase_unit_code (c : ascii) :
  (capital c /\ nat_of_ascii (toLowerCase_unit c) = (nat_of_ascii c + 32)%nat)
  \/ (~ capital c /\ toLowerCase_unit c = c).
Proof.
  unfold toLowerCase_unit, capital. cbv zeta.
  pose proof (nat_ascii_bounded c) as Hb.
  destruct (Nat.leb_spec 65 (nat_of_ascii c)), (Nat.leb_spec (nat_of_ascii c) 90),
    (Nat.leb_spec 192 (nat_of_ascii c)), (Nat.leb_spec (nat_of_ascii c) 222),
    (Nat.eqb_spec (nat_of_ascii c) 215); cbn [andb orb negb];
    try (right; split; [lia | reflexivity]);
    left; (split; [lia | apply nat_ascii_embedding; lia]).
Qed.

Lemma nat_of_ascii_inj (a b : ascii) : nat_of_ascii a = nat_of_ascii b -> a = b.
Proof.
  intros H. rewrite <- (ascii_nat_embedding a), <- (ascii_nat_embedding b). now rewrite H.
Qed.

(** Two code units have one lower-case form exactly when they are the same
    letter. *)
Lemma same_letter_iff (a b : ascii) :
  same_letter a b <-> toLowerCase_unit a = toLowerCase_unit b.
Proof.
  unfold same_letter.
  destruct (toLowerCase_unit_code a) as [[Ca Ha] | [Ca Ha]],
    (toLowerCase_unit_code b) as [[Cb Hb] | [Cb Hb]]; split.
  - intros [-> | [[_ H] | [_ H]]]; [reflexivity | |];
      unfold capital in *; apply nat_of_ascii_inj; lia.
  - intros H. left. apply nat_of_ascii_inj. rewrite H in Ha. lia.
  - intros [-> | [[_ H] | [C _]]]; [now elim Cb | | now elim Cb].
    rewrite Hb. apply nat_of_ascii_inj. lia.
  - intros H. right. left. split; [assumption|]. rewrite H, Hb in Ha. lia.
  - intros [-> | [[C _] | [_ H]]]; [now elim Ca | now elim Ca |].
    rewrite Ha. apply nat_of_ascii_inj. lia.
  - intros H. right. right. split; [assumption|]. rewrite <- H, Ha in Hb. lia.
  - intros [-> | [[C _] | [C _]]]; [reflexivity | now elim Ca | now elim Cb].
  - intros H. left. now rewrite Ha, Hb in H.
Qed.

Lemma same_text_iff (s t : string) :
  same_text s t <-> toLowerCase s = toLowerCase t.
Proof.
  split.
  - induction 1 as [|a b s t Hab _ IH]; [reflexivity|].
    cbn [toLowerCase]. apply same_letter_iff in Hab. now rewrite Hab, IH.
  - revert t. induction s as [|a s IH]; intros [|b t] H; try discriminate.
    + constructor.
    + cbn [toLowerCase] in H. injection H as Hab Hst.
      constructor; [now apply same_letter_iff | now apply IH].
Qed.

(** Lower-casing goes code unit by code unit: a cut of the lower-cased
    string is a cut of the string. *)
Lemma toLowerCase_cut (s x y : string) :
  toLowerCase s = (x ++ y)%string ->
  exists s1 s2, s = (s1 ++ s2)%string /\ toLowerCase s1 = x /\ toLowerCase s2 = y.
Proof.
  revert s. induction x as [|c x IH]; intros s H.
  - exists "", s. now split.
  - destruct s as [|a s]; [discriminate|]. cbn [toLowerCase append] in H.
    injection H as Hc H. destruct (IH s H) as [s1 [s2 [-> [H1 H2]]]].
    exists (String a s1), s2. cbn [toLowerCase append]. now rewrite Hc, H1.
Qed.

Lemma contains_ignoring_case_iff (s sub : string) :
  contains_ignoring_case s sub <-> contains (toLowerCase s) (toLowerCase sub).
Proof.
  split.
  - intros [pre [w [post [-> Hw]]]]. apply same_text_iff in Hw.
    exists (toLowerCase pre), (toLowerCase post).
    now rewrite !toLowerCase_app, Hw.
  - intros [pre [post H]].
    destruct (toLowerCase_cut _ _ _ H) as [s1 [r [-> [H1 H2]]]].
    destruct (toLowerCase_cut _ _ _ H2) as [w [s3 [-> [Hw H3]]]].
    exists s1, w, s3. split; [reflexivity | now apply same_text_iff].
Qed.

(** X14.  The search box, for options and a search text made of code units
    below 256, the strings of this model, where the lower-case form is
    taken code unit by code unit.  An option is listed exactly when it is
    an option and some stretch of it is the search text, letter case apart:
    code unit for code unit the same, or a capital (A to Z, U+00C0 to
    U+00DE but the multiplication sign) against the small letter 32 above
    it.  The empty text lists all the options. *)
Theorem search_lists_matching_options (options : list string) (searchTerm : string) :
  (forall o, In o (MultiSelect.filteredOptions options searchTerm) <->
             In o options /\ contains_ignoring_case o searchTerm)
  /\ MultiSelect.filteredOptions options "" = options.
Proof.
  unfold MultiSelect.filteredOptions. split.
  - intros o. rewrite filter_In, String_includes_iff, contains_ignoring_case_iff. tauto.
  - induction options as [|o options IH]; [reflexivity|].
    cbn [filter]. rewrite IH.
    replace (String_includes (toLowerCase o) (toLowerCase "")) with true; [reflexivity|].
    symmetry. apply String_includes_iff. now exists "", (toLowerCase o).
Qed.

(** "caf" finds "Cafe Central" and "CAFETERIA". *)
Example search_caf :
  MultiSelect.filteredOptions ["Cafe Central"; "Bakery"; "CAFETERIA"] "caf"
  = ["Cafe Central"; "CAFETERIA"].
Proof. reflexivity. Qed.

Lemma append_length (a b : string) :
  String.length (a ++ b) = (String.length a + String.length b)%nat.
Proof. induction a as [|c a IH]; [reflexivity|]. simpl. now rewrite IH. Qed.

(** X15.  The button reads "All Merchants" exactly when the "All Merchants" box
    is ticked, or when the one merchant selected is itself named "All
    Merchants". *)
Theorem display_text_all (options selected : list string) :
  MultiSelect.getDisplayText options selected = "All Merchants" <->
  MultiSelect.isAllSelected options selected = true \/ selected = ["All Merchants"].
Proof.
  unfold MultiSelect.getDisplayText, MultiSelect.isAllSelected.
  destruct (Array_includes "all" selected
            || (0 <? List.length options)%nat
               && (List.length selected =? List.length options)%nat) eqn:E.
  - split; [now left | reflexivity].
  - destruct selected as [|a [|b rest]]; cbn [List.length Nat.eqb nth].
    + split; [discriminate | intros [H | H]; discriminate].
    + split; [intros ->; now right | intros [H | H]; [discriminate | congruence]].
    + split.
      * intros H. apply (f_equal String.length) in H.
        rewrite append_length in H. simpl in H. lia.
      * intros [H | H]; discriminate.
Qed.

(** ** The two revisions *)

Lemma filter_map_swap' {A B : Type} (f : A -> B) (q : B -> bool) (l : list A) :
  filter q (map f l) = map f (filter (fun a => q (f a)) l).
Proof.
  induction l as [|a l IH]; [reflexivity|]. cbn [map filter].
  destruct (q (f a)); cbn [map]; now rewrite IH.
Qed.

Lemma keeps_single {tz : HostTimeZone} (selectedMerchant : string) (r : RawTransaction) :
  Dashboard.keeps [selectedMerchant] "" "" (Dashboard.resolve r)
  = SingleSelect.keeps selectedMerchant r.
Proof.
  unfold Dashboard.keeps, SingleSelect.keeps, Dashboard.isCompleted,
    Dashboard.matchesMerchant, Dashboard.resolve, Array_includes.
  cbn [Tx.status Tx.amount Tx.type Tx.name existsb].
  rewrite matchesDate_unbounded, andb_true_r, !orb_false_r.
  now rewrite (String.eqb_sym "all" selectedMerchant).
Qed.

(** X17.  The single-select revision shows, for the merchant picked in its
    [<select>], what the multi-select revision shows for the selection of
    that one entry with no date bound: the same transactions in the same
    order with the same running totals. *)
Theorem single_select_agrees {tz : HostTimeZone}
        (rawTransactions : list RawTransaction) (selectedMerchant : string) :
  SingleSelect.transactions rawTransactions selectedMerchant
  = Dashboard.transactions rawTransactions [selectedMerchant] "" "".
Proof.
  unfold SingleSelect.transactions, Dashboard.transactions, Dashboard.filteredTransactions.
  rewrite filter_map_swap'. do 3 f_equal.
  apply filter_ext. intros r. symmetry. apply keeps_single.
Qed.

(** ** Dates from text *)

Lemma split_length (sep : ascii) (s : string) :
  List.length (split sep s) = S (occurrences sep s).
Proof.
  induction s as [|c s IH]; [reflexivity|]. cbn [split occurrences].
  destruct (c =? sep)%char.
  - cbn [List.length]. now rewrite IH.
  - destruct (split sep s) as [|h t]; [discriminate|]. cbn [List.length] in *. lia.
Qed.

Lemma construct_valid {tz : HostTimeZone} (year month date : option Z) :
  JSDate.construct year month date <> None ->
  exists y m d, year = Some y /\ month = Some m /\ date = Some d.
Proof.
  destruct year as [y|], month as [m|], date as [d|]; cbn; try congruence.
  intros _. now exists y, m, d.
Qed.

(** X18.  A date field resolves to a valid date only if it holds at least two
    slashes and each of its first three parts begins, white space and sign
    apart, with a digit that [parseInt] can read; every other field is an
    Invalid Date. *)
Theorem parseDate_valid_only_if {tz : HostTimeZone} (dateStr : string) :
  Dashboard.parseDate dateStr <> None ->
  (2 <= occurrences "/" dateStr)%nat
  /\ exists D M Y rest d m y,
       split "/" dateStr = D :: M :: Y :: rest
       /\ parseInt D = Some d /\ parseInt M = Some m /\ parseInt Y = Some y.
Proof.
  unfold Dashboard.parseDate. intros H.
  pose proof (split_length "/" dateStr) as Hlen.
  apply construct_valid in H as [y [m' [d [Hy [Hm Hd]]]]].
  destruct (split "/" dateStr) as [|D [|M [|Y rest]]]; cbn [map nth] in *; try discriminate.
  cbn [List.length] in Hlen. split; [lia|].
  destruct (parseInt M) as [m|] eqn:EM; [|discriminate].
  exists D, M, Y, rest, d, m, y. repeat split; assumption.
Qed.

Section Numerals.

Lemma numeral_head (u : Decimal.uint) :
  u = Decimal.Nil
  \/ exists c r, numeral u = String c r /\ is_decimal_digit c.
Proof.
  destruct u; [now left | ..]; right; eexists; eexists; (split; [reflexivity|]);
    unfold is_decimal_digit; cbn; lia.
Qed.

Lemma numeral_no_slash (u : Decimal.uint) : occurrences "/" (numeral u) = 0%nat.
Proof. induction u; cbn; assumption || reflexivity. Qed.

Lemma take_digits_stop (rest : string) :
  (forall c r, rest = String c r -> digit_value false c = None) ->
  take_digits false rest = ([], rest).
Proof.
  intros H. destruct rest as [|c r]; [reflexivity|].
  cbn [take_digits]. now rewrite (H c r eq_refl).
Qed.

Ltac numeral_digit u IH k :=
  let ds := fresh "ds" in
  let H1 := fresh "H" in
  let H2 := fresh "H" in
  let H3 := fresh "H" in
  destruct IH as [ds [H1 [_ [H3 H2]]]]; exists (k :: ds);
  split; [|split; [discriminate|split; [cbn; now rewrite H3|]]];
  [ cbn [numeral NilEmpty.string_of_uint append take_digits];
    match goal with
    | |- context [digit_value false ?c] => change (digit_value false c) with (Some k)
    end;
    fold (numeral u); now rewrite H1
  | let acc := fresh "acc" in
    intros acc; cbn [fold_left Nat.of_uint_acc]; rewrite <- H2; f_equal;
    rewrite Nat.tail_mul_spec; lia ].

Lemma take_digits_numeral (u : Decimal.uint) (rest : string) :
  (forall c r, rest = String c r -> digit_value false c = None) ->
  exists ds,
    take_digits false (numeral u ++ rest) = (ds, rest)
    /\ (u <> Decimal.Nil -> ds <> [])
    /\ List.length ds = Decimal.nb_digits u
    /\ forall acc : nat,
         fold_left (fun a d => 10 * a + d) ds (Z.of_nat acc)
         = Z.of_nat (Nat.of_uint_acc u acc).
Proof.
  intros Hrest. induction u as [|u IH|u IH|u IH|u IH|u IH|u IH|u IH|u IH|u IH|u IH].
  - exists []. split; [now apply take_digits_stop|].
    split; [intros H; now elim H | split; reflexivity].
  - numeral_digit u IH 0.
  - numeral_digit u IH 1.
  - numeral_digit u IH 2.
  - numeral_digit u IH 3.
  - numeral_digit u IH 4.
  - numeral_digit u IH 5.
  - numeral_digit u IH 6.
  - numeral_digit u IH 7.
  - numeral_digit u IH 8.
  - numeral_digit u IH 9.
Qed.
End Numerals.

Lemma hex_prefix_none (u : string) :
  (forall r, u <> String "0" (String "x" r)) ->
  (forall r, u <> String "0" (String "X" r)) ->
  match u with
  | String "0" (String "x" r) | String "0" (String "X" r) => (true, r)
  | _ => (false, u)
  end = (false, u).
Proof.
  intros Hx HX. destruct u as [|c [|c2 r]]; [reflexivity | |].
  - destruct c as [[] [] [] [] [] [] [] []]; reflexivity.
  - destruct (ascii_dec c "0") as [->|Hc].
    + destruct (ascii_dec c2 "x") as [->|Hc2]; [now elim (Hx r)|].
      destruct (ascii_dec c2 "X") as [->|Hc2']; [now elim (HX r)|].
      destruct c2 as [[] [] [] [] [] [] [] []]; try reflexivity; congruence.
    + destruct c as [[] [] [] [] [] [] [] []]; try reflexivity; congruence.
Qed.

Lemma isWhiteSpace_digit (c : ascii) : is_decimal_digit c -> isWhiteSpace c = false.
Proof.
  unfold is_decimal_digit, isWhiteSpace. intros H.
  destruct (Nat.leb_spec 9 (nat_of_ascii c)), (Nat.leb_spec (nat_of_ascii c) 13),
    (Nat.eqb_spec (nat_of_ascii c) 32), (Nat.eqb_spec (nat_of_ascii c) 160);
    try reflexivity; lia.
Qed.

Lemma append_empty (s : string) : (s ++ "")%string = s.
Proof. induction s as [|c s IH]; [reflexivity|]. simpl. now rewrite IH. Qed.

Lemma parseInt_numeral (u : Decimal.uint) :
  u <> Decimal.Nil -> parseInt (numeral u) = Some (numeral_value u).
Proof.
  intros Hu. unfold parseInt.
  destruct (numeral_head u) as [-> | [c [r [Hs Hc]]]]; [now elim Hu|].
  assert (Htrim : trimStart (numeral u) = numeral u).
  { rewrite Hs. cbn [trimStart]. now rewrite (isWhiteSpace_digit c Hc). }
  assert (Hsign : split_sign (numeral u) = (false, numeral u)).
  { destruct (split_sign_cases (numeral u)) as [[r' [Hr _]] | [[r' [Hr _]] | [_ [_ H]]]];
      [| | exact H];
      rewrite Hs in Hr; injection Hr as -> _; unfold is_decimal_digit in Hc;
      [change (nat_of_ascii "+") with 43%nat in Hc
      |change (nat_of_ascii "-") with 45%nat in Hc]; lia. }
  rewrite Htrim, Hsign. cbv iota beta.
  rewrite hex_prefix_none.
  - destruct (take_digits_numeral u "") as [ds [H1 [H2 [_ H3]]]]; [discriminate|].
    rewrite append_empty in H1. rewrite H1. cbn [fst].
    specialize (H2 Hu). specialize (H3 0%nat).
    destruct ds as [|d ds]; [now elim H2|].
    unfold digits_value, numeral_value, Nat.of_uint. now rewrite <- H3.
  - intros r' H. destruct u as [|u'| | | | | | | | |]; try discriminate.
    destruct u'; discriminate.
  - intros r' H. destruct u as [|u'| | | | | | | | |]; try discriminate.
    destruct u'; discriminate.
Qed.

Lemma split_no_separator (sep : ascii) (a : string) :
  occurrences sep a = 0%nat -> split sep a = [a].
Proof.
  induction a as [|c a IH]; [reflexivity|]. cbn [occurrences split].
  destruct (c =? sep)%char; [discriminate|]. intros H. now rewrite (IH H).
Qed.

Lemma split_at_separator (sep : ascii) (a b : string) :
  occurrences sep a = 0%nat ->
  split sep (a ++ String sep b) = a :: split sep b.
Proof.
  induction a as [|c a IH]; cbn [occurrences split append].
  - intros _. now rewrite Ascii.eqb_refl.
  - destruct (c =? sep)%char; [discriminate|]. intros H. now rewrite (IH H).
Qed.

(** X19.  A date field written as three decimal numerals between slashes is read
    as day, month, year: it resolves to what [new Date(year, month - 1,
    day)] gives for the values of the numerals, leading zeros or not; for a
    year from 100 on, that is the first instant of that day in local
    time. *)
Theorem parseDate_day_month_year {tz : HostTimeZone} (D M Y : Decimal.uint) :
  D <> Decimal.Nil -> M <> Decimal.Nil -> Y <> Decimal.Nil ->
  Dashboard.parseDate (numeral D ++ "/" ++ numeral M ++ "/" ++ numeral Y)
  = JSDate.construct (Some (numeral_value Y)) (Some (numeral_value M - 1))
                     (Some (numeral_value D))
  /\ (100 <= numeral_value Y ->
      Dashboard.parseDate (numeral D ++ "/" ++ numeral M ++ "/" ++ numeral Y)
      = first_instant_of_day (numeral_value Y) (numeral_value M) (numeral_value D)).
Proof.
  intros HD HM HY.
  assert (H : Dashboard.parseDate (numeral D ++ "/" ++ numeral M ++ "/" ++ numeral Y)
              = JSDate.construct (Some (numeral_value Y)) (Some (numeral_value M - 1))
                                 (Some (numeral_value D))).
  { unfold Dashboard.parseDate.
    change (numeral D ++ "/" ++ numeral M ++ "/" ++ numeral Y)%string
      with (numeral D ++ String "/" (numeral M ++ String "/" (numeral Y)))%string.
    rewrite (split_at_separator "/" _ _ (numeral_no_slash D)),
      (split_at_separator "/" _ _ (numeral_no_slash M)),
      (split_no_separator "/" _ (numeral_no_slash Y)).
    cbn [map nth].
    now rewrite (parseInt_numeral D HD), (parseInt_numeral M HM), (parseInt_numeral Y HY). }
  split; [exact H|].
  intros Hy. rewrite H. unfold JSDate.construct, first_instant_of_day.
  destruct (Z.leb_spec 0 (numeral_value Y)); destruct (Z.leb_spec (numeral_value Y) 99);
    cbn [andb]; try lia; reflexivity.
Qed.

(** ** The calendar *)

Section Calendar.
Import JSDate.

Lemma DayFromYear_succ (y : Z) :
  DayFromYear (y + 1) = DayFromYear y + (if InLeapYear y then 366 else 365).
Proof.
  unfold DayFromYear, InLeapYear.
  destruct (Z.eqb_spec (y mod 4) 0), (Z.eqb_spec (y mod 100) 0), (Z.eqb_spec (y mod 400) 0);
    cbn [negb]; Z.div_mod_to_equations; lia.
Qed.

Lemma DayFromYear_le (y y' : Z) : y <= y' -> DayFromYear y <= DayFromYear y'.
Proof.
  intros H. unfold DayFromYear. Z.div_mod_to_equations. lia.
Qed.

Lemma DaysInMonth_bounds (y k : Z) : 28 <= DaysInMonth y k <= 31.
Proof.
  unfold DaysInMonth.
  destruct (k =? 1)%Z; [destruct (InLeapYear y); lia|].
  destruct ((k =? 3) || (k =? 5) || (k =? 8) || (k =? 10))%Z; lia.
Qed.

Lemma DaysBeforeMonth_succ (y : Z) (n : nat) :
  DaysBeforeMonth y (Z.of_nat (S n))
  = DaysBeforeMonth y (Z.of_nat n) + DaysInMonth y (Z.of_nat n).
Proof.
  unfold DaysBeforeMonth. rewrite !Nat2Z.id, seq_S, fold_left_app. reflexivity.
Qed.

Lemma DaysBeforeMonth_lt (y : Z) (n n' : nat) :
  (n < n')%nat ->
  DaysBeforeMonth y (Z.of_nat n) + DaysInMonth y (Z.of_nat n)
  <= DaysBeforeMonth y (Z.of_nat n').
Proof.
  induction 1 as [|n' Hle IH].
  - rewrite DaysBeforeMonth_succ. lia.
  - rewrite (DaysBeforeMonth_succ y n').
    pose proof (DaysInMonth_bounds y (Z.of_nat n')). lia.
Qed.

Lemma DaysBeforeMonth_year (y : Z) :
  DaysBeforeMonth y 12 = if InLeapYear y then 366 else 365.
Proof.
  unfold DaysBeforeMonth, DaysInMonth. destruct (InLeapYear y); reflexivity.
Qed.

Lemma MakeDay_calendar (y m d : Z) :
  1 <= m <= 12 ->
  MakeDay y (m - 1) d = DayFromYear y + DaysBeforeMonth y (m - 1) + d - 1.
Proof.
  intros H. unfold MakeDay.
  replace ((m - 1) / 12) with 0 by (symmetry; apply Z.div_small; lia).
  replace ((m - 1) mod 12) with (m - 1) by (symmetry; apply Z.mod_small; lia).
  now rewrite Z.add_0_r.
Qed.

Lemma MakeDay_in_year (y m d : Z) :
  calendar_date y m d ->
  DayFromYear y <= MakeDay y (m - 1) d < DayFromYear (y + 1).
Proof.
  intros [Hm Hd]. rewrite (MakeDay_calendar y m d Hm), DayFromYear_succ.
  rewrite <- DaysBeforeMonth_year.
  replace (m - 1) with (Z.of_nat (Z.to_nat (m - 1))) in * by lia.
  assert (Hlt : (Z.to_nat (m - 1) < 12)%nat) by lia.
  pose proof (DaysBeforeMonth_lt y _ _ Hlt) as H.
  change (Z.of_nat 12) with 12 in H.
  assert (H0 : 0 <= DaysBeforeMonth y (Z.of_nat (Z.to_nat (m - 1)))).
  { destruct (Z.to_nat (m - 1)) as [|k]; [cbn; lia|].
    pose proof (DaysBeforeMonth_lt y 0 (S k) ltac:(lia)) as H1.
    change (DaysBeforeMonth y (Z.of_nat 0)) with 0 in H1.
    pose proof (DaysInMonth_bounds y (Z.of_nat 0)). lia. }
  lia.
Qed.

Lemma MakeDay_calendar_order (y m d y' m' d' : Z) :
  calendar_date y m d -> calendar_date y' m' d' ->
  calendar_before y m d y' m' d' ->
  MakeDay y (m - 1) d < MakeDay y' (m' - 1) d'.
Proof.
  intros Hc Hc' [Hy | [<- Hmd]].
  - pose proof (MakeDay_in_year y m d Hc). pose proof (MakeDay_in_year y' m' d' Hc').
    pose proof (DayFromYear_le (y + 1) y' ltac:(lia)). lia.
  - destruct Hc as [Hm Hd], Hc' as [Hm' Hd'].
    rewrite (MakeDay_calendar y m d Hm), (MakeDay_calendar y m' d' Hm').
    destruct Hmd as [Hlt | [<- Hlt]]; [|lia].
    replace (m - 1) with (Z.of_nat (Z.to_nat (m - 1))) in * by lia.
    replace (m' - 1) with (Z.of_nat (Z.to_nat (m' - 1))) in * by lia.
    pose proof (DaysBeforeMonth_lt y (Z.to_nat (m - 1)) (Z.to_nat (m' - 1)) ltac:(lia)).
    lia.
Qed.
End Calendar.

Lemma DayFromYear_range (y : Z) :
  -200000 <= y <= 200001 -> -80000000 <= JSDate.DayFromYear y <= 80000000.
Proof.
  intros H. unfold JSDate.DayFromYear. Z.div_mod_to_equations. lia.
Qed.

Lemma first_instant_fixed_offset (minutes y m d : Z) :
  -1440 < minutes < 1440 -> -200000 <= y <= 200000 -> calendar_date y m d ->
  @first_instant_of_day (JSDate.fixed_offset minutes) y m d
  = Some (JSDate.MakeDay y (m - 1) d * 86400000 - minutes * 60000).
Proof.
  intros Hmin Hy Hc.
  pose proof (MakeDay_in_year y m d Hc) as Hd.
  pose proof (DayFromYear_range y ltac:(lia)).
  pose proof (DayFromYear_range (y + 1) ltac:(lia)).
  unfold first_instant_of_day, JSDate.UTC, JSDate.MakeDate, JSDate.TimeClip,
    JSDate.fixed_offset, LocalTZA, JSDate.msPerDay, JSDate.msPerMinute.
  rewrite Z.add_0_r.
  destruct (Z.ltb_spec 8640000000000000
                       (Z.abs (JSDate.MakeDay y (m - 1) d * 86400000 - minutes * 60000)));
    [lia | reflexivity].
Qed.

Lemma numeral_value_Nil (u : Decimal.uint) : 0 < numeral_value u -> u <> Decimal.Nil.
Proof. intros H ->. unfold numeral_value in H. simpl in H. lia. Qed.

(** Day, month and year between slashes, the year from 100 on: the first
    instant of that day. *)
Lemma parseDate_numerals {tz : HostTimeZone} (D M Y : Decimal.uint) :
  0 < numeral_value D -> 0 < numeral_value M -> 100 <= numeral_value Y ->
  Dashboard.parseDate (numeral D ++ "/" ++ numeral M ++ "/" ++ numeral Y)
  = first_instant_of_day (numeral_value Y) (numeral_value M) (numeral_value D).
Proof.
  intros HD HM HY.
  apply numeral_value_Nil in HD as HD'. apply numeral_value_Nil in HM as HM'.
  assert (HY' : Y <> Decimal.Nil) by (apply numeral_value_Nil; lia).
  unfold Dashboard.parseDate.
  change (numeral D ++ "/" ++ numeral M ++ "/" ++ numeral Y)%string
    with (numeral D ++ String "/" (numeral M ++ String "/" (numeral Y)))%string.
  rewrite (split_at_separator "/" _ _ (numeral_no_slash D)),
    (split_at_separator "/" _ _ (numeral_no_slash M)),
    (split_no_separator "/" _ (numeral_no_slash Y)).
  cbn [map nth].
  rewrite (parseInt_numeral D HD'), (parseInt_numeral M HM'), (parseInt_numeral Y HY').
  unfold JSDate.construct, first_instant_of_day. cbn [option_map].
  destruct (Z.leb_spec 0 (numeral_value Y)); destruct (Z.leb_spec (numeral_value Y) 99);
    cbn [andb]; try lia; reflexivity.
Qed.

(** A year of one or two digits is read as a year of the twentieth century:
    the last day of the year 99 is resolved after the first day of the
    year 100. *)
Example two_digit_year :
  @Dashboard.parseDate (JSDate.fixed_offset 0) "31/12/99"
  = @first_instant_of_day (JSDate.fixed_offset 0) 1999 12 31
  /\ strictly_before (@Dashboard.parseDate (JSDate.fixed_offset 0) "01/01/100")
                     (@Dashboard.parseDate (JSDate.fixed_offset 0) "31/12/99").
Proof. split; vm_compute; reflexivity. Qed.

(** X20.  In a zone that keeps one offset from UTC, the resolved dates of date
    fields written day/month/year follow the calendar, for years from 100
    to 200000: of two such fields that name days of the calendar, the one
    is resolved strictly before the other exactly when its day comes
    before the other's.  There, sorting by resolved date is sorting by
    day.  (A year below 100 is read as a year of the twentieth century,
    see [two_digit_year].) *)
Theorem dates_follow_calendar (minutes : Z) (D M Y D' M' Y' : Decimal.uint) :
  -1440 < minutes < 1440 ->
  100 <= numeral_value Y <= 200000 -> 100 <= numeral_value Y' <= 200000 ->
  calendar_date (numeral_value Y) (numeral_value M) (numeral_value D) ->
  calendar_date (numeral_value Y') (numeral_value M') (numeral_value D') ->
  (calendar_before (numeral_value Y) (numeral_value M) (numeral_value D)
                   (numeral_value Y') (numeral_value M') (numeral_value D')
   <-> strictly_before
         (@Dashboard.parseDate (JSDate.fixed_offset minutes)
            (numeral D ++ "/" ++ numeral M ++ "/" ++ numeral Y))
         (@Dashboard.parseDate (JSDate.fixed_offset minutes)
            (numeral D' ++ "/" ++ numeral M' ++ "/" ++ numeral Y'))).
Proof.
  intros Hmin Hy Hy' Hc Hc'.
  assert (Hp : 0 < numeral_value D /\ 0 < numeral_value M) by (unfold calendar_date in Hc; lia).
  assert (Hp' : 0 < numeral_value D' /\ 0 < numeral_value M')
    by (unfold calendar_date in Hc'; lia).
  rewrite (parseDate_numerals D M Y) by lia.
  rewrite (parseDate_numerals D' M' Y') by lia.
  assert (Hr : -200000 <= numeral_value Y <= 200000) by lia.
  assert (Hr' : -200000 <= numeral_value Y' <= 200000) by lia.
  rewrite (first_instant_fixed_offset minutes _ _ _ Hmin Hr Hc),
    (first_instant_fixed_offset minutes _ _ _ Hmin Hr' Hc').
  cbn [strictly_before]. split.
  - intros Hlt. pose proof (MakeDay_calendar_order _ _ _ _ _ _ Hc Hc' Hlt). lia.
  - intros Hlt.
    set (y := numeral_value Y) in *. set (m := numeral_value M) in *.
    set (d := numeral_value D) in *. set (y' := numeral_value Y') in *.
    set (m' := numeral_value M') in *. set (d' := numeral_value D') in *.
    destruct (Z.lt_trichotomy y y') as [H | [H | H]]; [now left | |].
    + destruct (Z.lt_trichotomy m m') as [H1 | [H1 | H1]]; [right; lia | |].
      * destruct (Z.lt_trichotomy d d') as [H2 | [H2 | H2]]; [right; lia | |].
        -- exfalso. rewrite H, H1, H2 in Hlt. lia.
        -- exfalso.
           assert (Hgt : calendar_before y' m' d' y m d) by (right; lia).
           pose proof (MakeDay_calendar_order _ _ _ _ _ _ Hc' Hc Hgt). lia.
      * exfalso.
        assert (Hgt : calendar_before y' m' d' y m d) by (right; lia).
        pose proof (MakeDay_calendar_order _ _ _ _ _ _ Hc' Hc Hgt). lia.
    + exfalso.
      assert (Hgt : calendar_before y' m' d' y m d) by (left; lia).
      pose proof (MakeDay_calendar_order _ _ _ _ _ _ Hc' Hc Hgt). lia.
Qed.

Lemma MakeDay_month_carry (y k d : Z) :
  JSDate.MakeDay y (k + 12) d = JSDate.MakeDay (y + 1) k d.
Proof.
  unfold JSDate.MakeDay.
  replace (k + 12) with (k + 1 * 12) by lia.
  rewrite Z.div_add, Z.mod_add by lia.
  now replace (y + (k / 12 + 1)) with (y + 1 + k / 12) by lia.
Qed.

Lemma MakeDay_index (y k d : Z) :
  0 <= k <= 11 ->
  JSDate.MakeDay y k d = JSDate.DayFromYear y + JSDate.DaysBeforeMonth y k + d - 1.
Proof.
  intros H. unfold JSDate.MakeDay.
  rewrite (Z.div_small k 12), (Z.mod_small k 12) by lia.
  now rewrite Z.add_0_r.
Qed.

Lemma DaysBeforeMonth_next (y k : Z) :
  0 <= k ->
  JSDate.DaysBeforeMonth y (k + 1) = JSDate.DaysBeforeMonth y k + JSDate.DaysInMonth y k.
Proof.
  intros H. pose proof (DaysBeforeMonth_succ y (Z.to_nat k)) as Hs.
  rewrite Nat2Z.inj_succ, Z2Nat.id in Hs by lia. exact Hs.
Qed.

Lemma MakeDay_day_carry (y k : Z) :
  0 <= k <= 11 ->
  JSDate.MakeDay y k (JSDate.DaysInMonth y k + 1) = JSDate.MakeDay y (k + 1) 1.
Proof.
  intros Hk. rewrite (MakeDay_index y k _ Hk).
  pose proof (DaysBeforeMonth_next y k ltac:(lia)) as Hs.
  destruct (Z.eq_dec k 11) as [->|Hne].
  - change (11 + 1) with 12 in *. rewrite DaysBeforeMonth_year in Hs.
    unfold JSDate.MakeDay. change (12 / 12) with 1. change (12 mod 12) with 0.
    rewrite DayFromYear_succ.
    change (JSDate.DaysBeforeMonth (y + 1) 0) with 0. lia.
  - rewrite (MakeDay_index y (k + 1) 1) by lia. lia.
Qed.

(** X21.  The date constructor behind [parseDate] refuses no month and no day
    number: month thirteen is January of the next year, and the day after
    the last day of a month is the first day of the month that follows.  A
    field such as 31/04/2023 is not an Invalid Date; it is 1 May. *)
Theorem out_of_range_dates_carry {tz : HostTimeZone} (y k d : Z) :
  100 <= y ->
  JSDate.construct (Some y) (Some (k + 12)) (Some d)
  = JSDate.construct (Some (y + 1)) (Some k) (Some d)
  /\ (0 <= k <= 11 ->
      JSDate.construct (Some y) (Some k) (Some (JSDate.DaysInMonth y k + 1))
      = JSDate.construct (Some y) (Some (k + 1)) (Some 1)).
Proof.
  intros Hy. unfold JSDate.construct.
  destruct (Z.leb_spec 0 y), (Z.leb_spec y 99), (Z.leb_spec 0 (y + 1)), (Z.leb_spec (y + 1) 99);
    cbn [andb]; try lia.
  split.
  - now rewrite MakeDay_month_carry.
  - intros Hk. now rewrite MakeDay_day_carry.
Qed.

(** ** Amounts from text *)

Section DecimalAmounts.

Lemma of_uint_acc_shift (F : Decimal.uint) (acc : nat) :
  Z.of_nat (Nat.of_uint_acc F acc)
  = Z.of_nat acc * 10 ^ Z.of_nat (Decimal.nb_digits F) + Z.of_nat (Nat.of_uint F).
Proof.
  unfold Nat.of_uint. revert acc.
  induction F as [|F IH|F IH|F IH|F IH|F IH|F IH|F IH|F IH|F IH|F IH]; intros acc;
    [cbn; lia | ..];
    cbn [Nat.of_uint_acc Decimal.nb_digits]; rewrite Nat2Z.inj_succ, Z.pow_succ_r by lia;
    rewrite IH; symmetry; rewrite IH; rewrite !Nat.tail_mul_spec;
    rewrite ?Nat2Z.inj_succ, ?Nat2Z.inj_mul; change (Z.of_nat 10) with 10;
    change (Z.of_nat 0) with 0; ring.
Qed.

Lemma pow10_negative (k : Z) : 0 <= k -> pow10 (0 - k) == / inject_Z (10 ^ k).
Proof.
  intros Hk. unfold pow10.
  destruct (Z.leb_spec 0 (0 - k)).
  - assert (k = 0) as -> by lia. reflexivity.
  - replace (- (0 - k)) with k by lia.
    assert (Hp : 0 < 10 ^ k) by (apply Z.pow_pos_nonneg; lia).
    destruct (10 ^ k) as [|p|p]; try lia. reflexivity.
Qed.

Lemma prefix_Infinity_digit (c : ascii) (r : string) :
  is_decimal_digit c -> prefix "Infinity" (String c r) = false.
Proof.
  intros Hc. destruct (prefix "Infinity" (String c r)) eqn:E; [|reflexivity].
  apply prefix_iff in E as [post E]. injection E as -> _.
  unfold is_decimal_digit in Hc. change (nat_of_ascii "I") with 73%nat in Hc. lia.
Qed.

Lemma digit_value_point : digit_value false "." = None.
Proof. reflexivity. Qed.

Lemma unsigned_decimal (I F : Decimal.uint) :
  I <> Decimal.Nil ->
  StrUnsignedDecimalLiteral (numeral I ++ "." ++ numeral F)
  = Some (Finite (Q2Qc (inject_Z (numeral_value I)
                        + inject_Z (numeral_value F)
                          / inject_Z (10 ^ Z.of_nat (Decimal.nb_digits F))))).
Proof.
  intros HI. unfold StrUnsignedDecimalLiteral.
  destruct (numeral_head I) as [-> | [c [r [Hs Hc]]]]; [now elim HI|].
  rewrite Hs. cbn [append]. rewrite (prefix_Infinity_digit c _ Hc).
  change (String c (r ++ String "." (numeral F)))
    with (String c r ++ String "." (numeral F))%string.
  rewrite <- Hs.
  destruct (take_digits_numeral I (String "." (numeral F))) as [ip [H1 [H2 [_ H3]]]].
  { intros c' r' H. injection H as <- _. reflexivity. }
  rewrite H1.
  destruct (take_digits_numeral F "") as [fp [H4 [_ [H5 H6]]]]; [discriminate|].
  rewrite append_empty in H4. rewrite H4.
  specialize (H2 HI).
  destruct (ip ++ fp) as [|d ds] eqn:E.
  { destruct ip; [now elim H2 | discriminate]. }
  rewrite <- E. cbn [ExponentPart]. do 2 f_equal.
  apply Q2Qc_eq_iff.
  unfold digits_value. rewrite fold_left_app.
  specialize (H3 0%nat). cbn [Z.of_nat] in H3. rewrite H3.
  fold (Nat.of_uint I). rewrite H6, of_uint_acc_shift, H5.
  rewrite pow10_negative by lia.
  unfold numeral_value. rewrite inject_Z_plus, inject_Z_mult.
  assert (Hp : ~ inject_Z (10 ^ Z.of_nat (Decimal.nb_digits F)) == 0).
  { assert (0 < 10 ^ Z.of_nat (Decimal.nb_digits F)) by (apply Z.pow_pos_nonneg; lia).
    intros H0. unfold Qeq in H0. cbn [inject_Z Qnum Qden] in H0. lia. }
  field. exact Hp.
Qed.
End DecimalAmounts.

Lemma unsigned_integer (I : Decimal.uint) :
  I <> Decimal.Nil ->
  StrUnsignedDecimalLiteral (numeral I)
  = Some (Finite (Q2Qc (inject_Z (numeral_value I)))).
Proof.
  intros HI. unfold StrUnsignedDecimalLiteral.
  destruct (numeral_head I) as [-> | [c [r [Hs Hc]]]]; [now elim HI|].
  rewrite Hs, (prefix_Infinity_digit c _ Hc), <- Hs.
  destruct (take_digits_numeral I "") as [ip [H1 [H2 [_ H3]]]]; [discriminate|].
  rewrite append_empty in H1. rewrite H1. cbn iota beta.
  specialize (H2 HI).
  destruct (ip ++ []) as [|d ds] eqn:E.
  { rewrite app_nil_r in E. now elim H2. }
  rewrite <- E, app_nil_r. cbn [ExponentPart List.length Z.of_nat]. do 2 f_equal.
  apply Q2Qc_eq_iff. unfold digits_value.
  specialize (H3 0%nat). cbn [Z.of_nat] in H3. rewrite H3.
  change (pow10 (0 - 0)) with (inject_Z 1). fold (Nat.of_uint I). fold (numeral_value I).
  rewrite <- inject_Z_mult. now rewrite Z.mul_1_r.
Qed.

Lemma parseFloat_signed (negative : bool) (u : string) (v : number) :
  (exists c r, u = String c r /\ is_decimal_digit c) ->
  StrUnsignedDecimalLiteral u = Some v ->
  parseFloat ((if negative then "-" else "") ++ u)
  = if negative then number_neg v else v.
Proof.
  intros [c [r [-> Hc]]] Hv. unfold parseFloat. destruct negative.
  - change (trimStart ("-" ++ String c r)) with ("-" ++ String c r)%string.
    change (split_sign ("-" ++ String c r)) with (true, String c r).
    cbv iota beta. now rewrite Hv.
  - cbn [append trimStart]. rewrite (isWhiteSpace_digit c Hc).
    destruct (split_sign_cases (String c r)) as [[r' [Hr _]] | [[r' [Hr _]] | [_ [_ H]]]].
    + injection Hr as -> _. unfold is_decimal_digit in Hc.
      change (nat_of_ascii "+") with 43%nat in Hc. lia.
    + injection Hr as -> _. unfold is_decimal_digit in Hc.
      change (nat_of_ascii "-") with 45%nat in Hc. lia.
    + rewrite H. cbv iota beta. now rewrite Hv.
Qed.

Lemma numeral_head_app (I : Decimal.uint) (rest : string) :
  I <> Decimal.Nil ->
  exists c r, (numeral I ++ rest)%string = String c r /\ is_decimal_digit c.
Proof.
  intros HI. destruct (numeral_head I) as [-> | [c [r [Hs Hc]]]]; [now elim HI|].
  exists c, (r ++ rest)%string. rewrite Hs. split; [reflexivity | assumption].
Qed.

(** The real a plain decimal literal denotes, before it is rounded: the
    integer part plus the decimals over the matching power of ten, negated
    under a minus sign. *)
Lemma plain_decimal_denotes (amountStr : string) (negative : bool)
        (I F : Decimal.uint) :
  I <> Decimal.Nil ->
  (replace_commas_spaces amountStr
   = ((if negative then "-" else "") ++ numeral I ++ "." ++ numeral F)%string ->
   Dashboard.parseAmount amountStr
   = (if negative then number_neg else fun v => v)
       (Finite (Q2Qc (inject_Z (numeral_value I)
                      + inject_Z (numeral_value F)
                        / inject_Z (10 ^ Z.of_nat (Decimal.nb_digits F))))))
  /\ (replace_commas_spaces amountStr
      = ((if negative then "-" else "") ++ numeral I)%string ->
      Dashboard.parseAmount amountStr
      = (if negative then number_neg else fun v => v)
          (Finite (Q2Qc (inject_Z (numeral_value I))))).
Proof.
  intros HI.
  assert (Hne : forall rest,
             replace_commas_spaces amountStr
             = ((if negative then "-" else "") ++ numeral I ++ rest)%string ->
             amountStr <> "").
  { intros rest H ->. destruct (numeral_head_app I rest HI) as [c [r [Hs _]]].
    rewrite Hs in H. destruct negative; discriminate. }
  split; intros H.
  - rewrite (parseAmount_nonempty _ (Hne _ H)), H.
    rewrite (parseFloat_signed negative _ _ (numeral_head_app I _ HI) (unsigned_decimal I F HI)).
    now destruct negative.
  - assert (H' : replace_commas_spaces amountStr
                 = ((if negative then "-" else "") ++ numeral I ++ "")%string)
      by now rewrite append_empty.
    rewrite (parseAmount_nonempty _ (Hne _ H')), H.
    destruct (numeral_head I) as [-> | Hh]; [now elim HI|].
    rewrite (parseFloat_signed negative _ _ Hh (unsigned_integer I HI)).
    now destruct negative.
Qed.

(** ** The further properties at concrete inputs *)

Lemma unknown_selection_empty_view_witness :
  @Dashboard.transactions (JSDate.fixed_offset 0) two_payments ["Carol"] "" "" = [].
Proof.
  apply (@unknown_selection_empty_view (JSDate.fixed_offset 0) two_payments ["Carol"] "" "").
  - intros [H | []]. discriminate.
  - intros m [<- | []] [H | []]. discriminate.
Defined.

Lemma bounded_view_chronological_witness :
  chronological
    (@Dashboard.transactions (JSDate.fixed_offset 0) three_payments ["all"] "2023-01-01" "").
Proof.
  apply (@bounded_view_chronological (JSDate.fixed_offset 0)
           three_payments ["all"] "2023-01-01" "").
  left. discriminate.
Defined.

Lemma narrowing_keeps_order_witness :
  map untotalled
      (@Dashboard.transactions (JSDate.fixed_offset 0) two_payments ["Alice"] "" "")
  = filter (Dashboard.matchesMerchant ["Alice"])
           (map untotalled
                (@Dashboard.transactions (JSDate.fixed_offset 0) two_payments ["all"] "" "")).
Proof.
  apply (@narrowing_keeps_order (JSDate.fixed_offset 0) two_payments ["Alice"] "" "").
  vm_compute. repeat constructor; discriminate.
Defined.

Lemma unticking_one_merchant_witness :
  map untotalled
      (@Dashboard.transactions (JSDate.fixed_offset 0) two_payments
         (MultiSelect.handleOptionClick (Dashboard.merchants two_payments) ["all"] "Alice")
         "" "")
  = filter (fun t => negb (Tx.name t =? "Alice")%string)
           (map untotalled
                (@Dashboard.transactions (JSDate.fixed_offset 0) two_payments ["all"] "" "")).
Proof.
  apply (@unticking_one_merchant (JSDate.fixed_offset 0) two_payments "Alice" "" "").
  - intros [H | []]. discriminate.
  - now left.
  - vm_compute. repeat constructor; discriminate.
Defined.

Lemma option_click_toggles_witness :
  MultiSelect.isSelected
    (MultiSelect.handleOptionClick ["Alice"; "Bob"] ["all"] "Alice") "Bob"
  = if ("Bob" =? "Alice")%string
    then negb (MultiSelect.isSelected ["all"] "Bob")
    else MultiSelect.isSelected ["all"] "Bob".
Proof.
  apply (option_click_toggles ["Alice"; "Bob"] ["all"] "Alice" "Bob").
  - repeat constructor; simpl; intuition discriminate.
  - simpl. intuition discriminate.
  - apply emitted_initial.
  - now left.
  - right. now left.
Defined.


Lemma parseDate_valid_only_if_witness :
  (2 <= occurrences "/" "15/03/2023")%nat
  /\ exists D M Y rest d m y,
       split "/" "15/03/2023" = D :: M :: Y :: rest
       /\ parseInt D = Some d /\ parseInt M = Some m /\ parseInt Y = Some y.
Proof.
  apply (@parseDate_valid_only_if (JSDate.fixed_offset 0) "15/03/2023").
  vm_compute. discriminate.
Defined.

Lemma parseDate_day_month_year_witness :
  @Dashboard.parseDate (JSDate.fixed_offset 0)
     (numeral (D1 (D5 Nil)) ++ "/" ++ numeral (D0 (D3 Nil)) ++ "/"
      ++ numeral (D2 (D0 (D2 (D3 Nil)))))
  = @JSDate.construct (JSDate.fixed_offset 0)
      (Some (numeral_value (D2 (D0 (D2 (D3 Nil))))))
      (Some (numeral_value (D0 (D3 Nil)) - 1))
      (Some (numeral_value (D1 (D5 Nil)))).
Proof.
  apply (@parseDate_day_month_year (JSDate.fixed_offset 0)
           (D1 (D5 Nil)) (D0 (D3 Nil)) (D2 (D0 (D2 (D3 Nil)))));
    discriminate.
Defined.

Lemma dates_follow_calendar_witness :
  calendar_before 2023 1 14 2023 1 15
  <-> strictly_before (@Dashboard.parseDate (JSDate.fixed_offset (-360)) "14/01/2023")
                      (@Dashboard.parseDate (JSDate.fixed_offset (-360)) "15/01/2023").
Proof.
  apply (dates_follow_calendar (-360)
           (D1 (D4 Nil)) (D0 (D1 Nil)) (D2 (D0 (D2 (D3 Nil))))
           (D1 (D5 Nil)) (D0 (D1 Nil)) (D2 (D0 (D2 (D3 Nil)))));
    try (vm_compute; intuition discriminate).
Defined.

Lemma out_of_range_dates_carry_witness :
  @JSDate.construct (JSDate.fixed_offset 0) (Some 2023) (Some (3 + 12)) (Some 31)
  = @JSDate.construct (JSDate.fixed_offset 0) (Some (2023 + 1)) (Some 3) (Some 31)
  /\ @JSDate.construct (JSDate.fixed_offset 0) (Some 2023) (Some 3)
        (Some (JSDate.DaysInMonth 2023 3 + 1))
     = @JSDate.construct (JSDate.fixed_offset 0) (Some 2023) (Some (3 + 1)) (Some 1).
Proof.
  destruct (@out_of_range_dates_carry (JSDate.fixed_offset 0) 2023 3 31) as [Hmonth Hday];
    [lia|].
  split; [exact Hmonth | apply Hday; lia].
Defined.

Lemma short_row_excluded_witness :
  Dashboard.isCompleted
    (@Dashboard.resolve (JSDate.fixed_offset 0) (Dashboard.parsedTransaction [""])) = false.
Proof.
  apply (@short_row_excluded (JSDate.fixed_offset 0) [""]). simpl. lia.
Defined.

Lemma setHours_midnight_fixed_offset_witness :
  @JSDate.setHours (JSDate.fixed_offset (-360)) (Some (19372 * JSDate.msPerDay)) 0 0 0 0
  = JSDate.TimeClip ((if 0 <=? -360 then 19372 else 19372 - 1) * JSDate.msPerDay
                     - -360 * JSDate.msPerMinute).
Proof.
  apply (setHours_midnight_fixed_offset (-360) 19372). lia.
Defined.

Lemma Array_sort_unique_witness :
  List.rev (map (@Dashboard.resolve (JSDate.fixed_offset 0)) two_payments)
  = Array_sort Dashboard.by_date (map (@Dashboard.resolve (JSDate.fixed_offset 0)) two_payments).
Proof.
  apply (Array_sort_unique
           (map (@Dashboard.resolve (JSDate.fixed_offset 0)) two_payments)
           (List.rev (map (@Dashboard.resolve (JSDate.fixed_offset 0)) two_payments))).
  - vm_compute. repeat constructor; discriminate.
  - vm_compute. repeat constructor.
  - intros d.
    rewrite <- (Array_sort_stable d (map (@Dashboard.resolve (JSDate.fixed_offset 0))
                                        two_payments)).
    f_equal.
Defined.

Lemma select_all_box_witness :
  (MultiSelect.isAllSelected ["Alice"; "Bob"] ["Alice"]
   && MultiSelect.isIndeterminate ["Alice"; "Bob"] ["Alice"] = false)
  /\ (MultiSelect.isAllSelected ["Alice"; "Bob"] ["Alice"] = true <-> ["Alice"] = ["all"])
  /\ (MultiSelect.isIndeterminate ["Alice"; "Bob"] ["Alice"] = true <->
      ["Alice"] <> ["all"] /\ ["Alice"] <> []).
Proof.
  destruct (select_all_box ["Alice"; "Bob"] ["Alice"]) as [Hnever Hwhen].
  split; [exact Hnever|]. apply Hwhen.
  - repeat constructor; simpl; intuition discriminate.
  - simpl. intuition discriminate.
  - change ["Alice"] with (MultiSelect.handleOptionClick ["Alice"; "Bob"] ["all"] "Bob").
    apply emitted_option_click; [apply emitted_initial | right; now left].
Defined.

(** ** Binary64 arithmetic *)

Lemma Finite_Q2Qc (a : number) (q : Q) :
  match a with Finite x => Qeq_bool x q | _ => false end = true ->
  a = Finite (Q2Qc q).
Proof.
  destruct a as [| |x]; try discriminate. intros H.
  apply f_equal, Qc_is_canon. apply Qeq_bool_eq in H. rewrite H.
  symmetry. apply Qred_correct.
Qed.

(** The decimal 0.1 is read as the binary64 value next to it. *)
Example one_tenth :
  Binary64.parseAmount "0.1" = Finite (Q2Qc (3602879701896397 # 36028797018963968)).
Proof. apply Finite_Q2Qc. vm_compute. reflexivity. Qed.

(** [0.1 + 0.2] is not [0.3]. *)
Example tenth_and_fifth :
  Binary64.add (Binary64.parseAmount "0.1") (Binary64.parseAmount "0.2")
  = Finite (Q2Qc (5404319552844596 # 18014398509481984))
  /\ Binary64.parseAmount "0.3" = Finite (Q2Qc (5404319552844595 # 18014398509481984)).
Proof. split; apply Finite_Q2Qc; vm_compute; reflexivity. Qed.

(** A literal beyond the range is an infinity, one below it is zero. *)
Example out_of_range_literals :
  Binary64.parseAmount "1e400" = Infinity false
  /\ Binary64.parseAmount "-1e400" = Infinity true
  /\ Binary64.parseAmount "1e-400" = zero.
Proof. repeat split; try (vm_compute; reflexivity). apply Finite_Q2Qc. vm_compute. reflexivity. Qed.

(** The largest finite value, and the first real that rounds to infinity. *)
Example largest_finite :
  Binary64.Number_value (2 ^ 1024 - 2 ^ 971) = Finite (Q2Qc (2 ^ 1024 - 2 ^ 971))
  /\ Binary64.Number_value (2 ^ 1024 - 2 ^ 970) = Infinity false
  /\ Binary64.Number_value (2 ^ 1024 - 2 ^ 970 - 1) = Finite (Q2Qc (2 ^ 1024 - 2 ^ 971)).
Proof. repeat split; try (vm_compute; reflexivity); apply Finite_Q2Qc; vm_compute; reflexivity. Qed.

(** The least positive value, and the halfway point below it. *)
Example least_positive :
  Binary64.Number_value (2 ^ (-1074)) = Finite (Q2Qc (2 ^ (-1074)))
  /\ Binary64.Number_value (2 ^ (-1075)) = zero
  /\ Binary64.Number_value (3 * 2 ^ (-1075)) = Finite (Q2Qc (2 ^ (-1073))).
Proof. repeat split; apply Finite_Q2Qc; vm_compute; reflexivity. Qed.

(** ** Binary64: how far rounding goes *)

Section Rounding.
Local Open Scope Q_scope.

Lemma this_Q2Qc (w : Q) : this (Q2Qc w) == w.
Proof. apply Qred_correct. Qed.

Lemma pow2_pos (k : Z) : 0 < 2 ^ k.
Proof. apply Qpower_0_lt. reflexivity. Qed.

Lemma pow2_add (a b : Z) : 2 ^ (a + b) == 2 ^ a * 2 ^ b.
Proof. apply Qpower_plus. discriminate. Qed.

Lemma pow2_succ (k : Z) : 2 ^ (k + 1) == 2 * 2 ^ k.
Proof. rewrite pow2_add. change (2 ^ 1) with 2. ring. Qed.

Lemma pow2_le (a b : Z) : (a <= b)%Z -> 2 ^ a <= 2 ^ b.
Proof. intros H. apply Qpower_le_compat_l; [assumption | discriminate]. Qed.

Lemma pow2_log2 (p : positive) :
  2 ^ Z.log2 (Zpos p) <= inject_Z (Zpos p)
  /\ inject_Z (Zpos p) < 2 ^ (Z.log2 (Zpos p) + 1).
Proof.
  destruct (Z.log2_spec (Zpos p)) as [Hl Hu]; [reflexivity|].
  pose proof (Z.log2_nonneg (Zpos p)) as Hn.
  change 2 with (inject_Z 2). rewrite <- !Zpower_Qpower by lia.
  split; [rewrite <- Zle_Qle | rewrite <- Zlt_Qlt].
  - exact Hl.
  - rewrite <- Z.add_1_r in Hu. exact Hu.
Qed.

(** [ilog2] is the exponent of the power of two at or next below. *)
Lemma ilog2_spec (q : Q) :
  0 < q -> 2 ^ Binary64.ilog2 q <= q /\ q < 2 ^ (Binary64.ilog2 q + 1).
Proof.
  destruct q as [n d]. intros Hq.
  assert (Hn : (0 < n)%Z) by (unfold Qlt in Hq; simpl in Hq; lia).
  destruct n as [|p|p]; try lia. clear Hn.
  unfold Binary64.ilog2. cbn [Qnum Qden].
  destruct (pow2_log2 p) as [Hpl Hpu], (pow2_log2 d) as [Hdl Hdu].
  set (a := Z.log2 (Zpos p)) in *. set (b := Z.log2 (Zpos d)) in *.
  assert (Hq' : (Zpos p # d) * inject_Z (Zpos d) == inject_Z (Zpos p)).
  { unfold Qeq, Qmult, inject_Z. cbn [Qnum Qden]. lia. }
  assert (Hab : 2 ^ a == 2 ^ (a - b) * 2 ^ b).
  { rewrite <- pow2_add. now replace (a - b + b)%Z with a by lia. }
  assert (Hk : 2 ^ (a - b) == 2 * 2 ^ (a - b - 1)).
  { rewrite <- pow2_succ. now replace (a - b - 1 + 1)%Z with (a - b)%Z by lia. }
  rewrite pow2_succ in Hpu, Hdu.
  pose proof (pow2_pos (a - b - 1)) as HK'. pose proof (pow2_pos b) as HB.
  destruct (Qle_bool (2 ^ (a - b)) (Zpos p # d)) eqn:E.
  - apply Qle_bool_iff in E. split; [assumption|].
    rewrite pow2_succ.
    generalize dependent (2 ^ (a - b)). generalize dependent (2 ^ (a - b - 1)).
    generalize dependent (2 ^ a). generalize dependent (2 ^ b).
    generalize dependent (inject_Z (Zpos p)). generalize dependent (inject_Z (Zpos d)).
    generalize dependent (Zpos p # d). clear. intros q D P B A K' K. intros. nra.
  - assert (E' : (Zpos p # d) < 2 ^ (a - b)).
    { apply Qnot_le_lt. rewrite <- Qle_bool_iff. congruence. }
    replace (a - b - 1 + 1)%Z with (a - b)%Z by lia. split; [|assumption].
    generalize dependent (2 ^ (a - b)). generalize dependent (2 ^ (a - b - 1)).
    generalize dependent (2 ^ a). generalize dependent (2 ^ b).
    generalize dependent (inject_Z (Zpos p)). generalize dependent (inject_Z (Zpos d)).
    generalize dependent (Zpos p # d). clear. intros q D P B A K' K. intros. nra.
Qed.

Lemma roundTiesToEven_cases (x : Q) :
  Binary64.roundTiesToEven x = Qfloor x /\ x - inject_Z (Qfloor x) <= 1 # 2
  \/ Binary64.roundTiesToEven x = (Qfloor x + 1)%Z /\ 1 # 2 <= x - inject_Z (Qfloor x).
Proof.
  unfold Binary64.roundTiesToEven.
  destruct (x - inject_Z (Qfloor x) ?= 1 # 2) eqn:E.
  - apply Qeq_alt in E.
    destruct (Z.even (Qfloor x)); [left | right]; (split; [reflexivity|]);
      rewrite E; apply Qle_refl.
  - apply Qlt_alt in E. left. split; [reflexivity | now apply Qlt_le_weak].
  - apply Qgt_alt in E. right. split; [reflexivity | now apply Qlt_le_weak].
Qed.

(** The nearest integer is at most one half away. *)
Lemma roundTiesToEven_near (x : Q) :
  Qabs (inject_Z (Binary64.roundTiesToEven x) - x) <= 1 # 2.
Proof.
  pose proof (Qfloor_le x) as Hl. pose proof (Qlt_floor x) as Hu.
  rewrite inject_Z_plus in Hu. change (inject_Z 1) with 1 in Hu.
  apply Qabs_Qle_condition.
  destruct (roundTiesToEven_cases x) as [[-> H] | [-> H]].
  - split; lra.
  - rewrite inject_Z_plus. change (inject_Z 1) with 1. split; lra.
Qed.

Lemma roundTiesToEven_le (x : Q) (k : Z) :
  x <= inject_Z k -> (Binary64.roundTiesToEven x <= k)%Z.
Proof.
  intros H. pose proof (Qfloor_resp_le _ _ H) as Hf. rewrite Qfloor_Z in Hf.
  destruct (roundTiesToEven_cases x) as [[-> _] | [-> Hh]]; [assumption|].
  destruct (Z.eq_dec (Qfloor x) k) as [E | E]; [|lia].
  rewrite E in Hh. lra.
Qed.

Lemma roundTiesToEven_ge (x : Q) (k : Z) :
  inject_Z k <= x -> (k <= Binary64.roundTiesToEven x)%Z.
Proof.
  intros H. pose proof (Qfloor_resp_le _ _ H) as Hf. rewrite Qfloor_Z in Hf.
  destruct (roundTiesToEven_cases x) as [[-> _] | [-> _]]; lia.
Qed.

(** What a finite Number value is made of. *)
Lemma Number_value_finite (x : Q) (v : Qc) :
  Binary64.Number_value x = Finite v ->
  (x == 0 /\ v == 0)
  \/ (~ x == 0
      /\ exists e w,
          e = Z.max (Binary64.ilog2 (Qabs x) - 52) (-1074)
          /\ w = inject_Z (Binary64.roundTiesToEven (Qabs x / 2 ^ e)) * 2 ^ e
          /\ w < 2 ^ 1024
          /\ v == (if Qle_bool 0 x then w else - w)).
Proof.
  unfold Binary64.Number_value. destruct (Qeq_bool x 0) eqn:E0.
  - intros H. injection H as <-. left. split; [now apply Qeq_bool_eq | apply this_Q2Qc].
  - cbv zeta.
    destruct (Qle_bool (2 ^ 1024) _) eqn:E1; [discriminate|].
    intros H. injection H as <-. right. split; [now apply Qeq_bool_neq|].
    eexists. eexists. split; [reflexivity|]. split; [reflexivity|]. split.
    + apply Qnot_le_lt. rewrite <- Qle_bool_iff. congruence.
    + apply this_Q2Qc.
Qed.

Lemma Qabs_pos_lt (x : Q) : ~ x == 0 -> 0 < Qabs x.
Proof.
  intros H. destruct (Qlt_le_dec 0 (Qabs x)) as [|Hle]; [assumption|].
  exfalso. apply H. pose proof (Qabs_nonneg x).
  assert (E : Qabs x == 0) by lra.
  revert E. apply Qabs_case; intros; lra.
Qed.

(** The rounded magnitude against the magnitude: half a unit of the last
    place. *)
Lemma rounded_magnitude (a : Q) (e : Z) :
  Qabs (inject_Z (Binary64.roundTiesToEven (a / 2 ^ e)) * 2 ^ e - a) <= 2 ^ (e - 1).
Proof.
  pose proof (pow2_pos e) as He. pose proof (roundTiesToEven_near (a / 2 ^ e)) as Hn.
  assert (Ha : a == (a / 2 ^ e) * 2 ^ e) by (field; lra).
  assert (Hh : 2 ^ e == 2 * 2 ^ (e - 1)).
  { rewrite <- pow2_succ. now replace (e - 1 + 1)%Z with e by lia. }
  apply Qabs_Qle_condition in Hn. apply Qabs_Qle_condition.
  set (r := a / 2 ^ e) in *.
  set (m := inject_Z (Binary64.roundTiesToEven r)) in *.
  set (E := 2 ^ e) in *. set (E' := 2 ^ (e - 1)) in *.
  clearbody m r E E'. split; nra.
Qed.

(** A finite result of rounding is off by the unit roundoff of what was
    rounded, or by half the least positive value. *)
Lemma Number_value_error (x : Q) (v : Qc) :
  Binary64.Number_value x = Finite v ->
  Qabs (v - x) <= unit_roundoff * Qabs x + half_least.
Proof.
  intros H. apply Number_value_finite in H as [[Hx Hv] | [Hx [e [w [He [Hw [_ Hv]]]]]]].
  - rewrite Hx, Hv. unfold unit_roundoff, half_least.
    pose proof (pow2_pos (-53)). pose proof (pow2_pos (-1075)).
    change (Qabs (0 - 0)) with 0. change (Qabs 0) with 0. lra.
  - pose proof (Qabs_pos_lt x Hx) as Ha.
    destruct (ilog2_spec _ Ha) as [Hl _].
    pose proof (rounded_magnitude (Qabs x) e) as Hr. rewrite <- Hw in Hr.
    assert (Hb : 2 ^ (e - 1) <= unit_roundoff * Qabs x + half_least).
    { unfold unit_roundoff, half_least.
      pose proof (pow2_pos (-53)). pose proof (pow2_pos (-1075)).
      destruct (Z.max_spec (Binary64.ilog2 (Qabs x) - 52) (-1074)) as [[_ E] | [_ E]];
        rewrite <- He in E; rewrite E.
      - change (-1074 - 1)%Z with (-1075)%Z.
        generalize dependent (2 ^ (-53)). generalize dependent (2 ^ (-1075)). intros. nra.
      - replace (Binary64.ilog2 (Qabs x) - 52 - 1)%Z
          with (-53 + Binary64.ilog2 (Qabs x))%Z by lia.
        rewrite pow2_add.
        generalize dependent (2 ^ (-53)). generalize dependent (2 ^ (-1075)).
        generalize dependent (2 ^ Binary64.ilog2 (Qabs x)). intros. nra. }
    assert (Hd : Qabs (v - x) == Qabs (w - Qabs x)).
    { rewrite Hv. destruct (Qle_bool 0 x) eqn:E.
      - apply Qle_bool_iff in E. now rewrite (Qabs_pos x E).
      - assert (E' : x <= 0).
        { apply Qlt_le_weak, Qnot_le_lt. rewrite <- Qle_bool_iff. congruence. }
        rewrite (Qabs_neg x E'), <- Qabs_opp. apply Qabs_wd. ring. }
    rewrite Hd. lra.
Qed.

(** Rounding keeps the sign. *)
Lemma Number_value_sign (x : Q) (v : Qc) :
  Binary64.Number_value x = Finite v ->
  (0 <= x -> 0 <= v) /\ (x <= 0 -> v <= 0).
Proof.
  intros H. apply Number_value_finite in H as [[Hx Hv] | [Hx [e [w [He [Hw [_ Hv]]]]]]].
  - rewrite Hv. split; intros; apply Qle_refl.
  - assert (H0 : 0 <= w).
    { rewrite Hw. apply Qmult_le_0_compat; [|apply Qlt_le_weak, pow2_pos].
      change 0 with (inject_Z 0). rewrite <- Zle_Qle.
      apply roundTiesToEven_ge. change (inject_Z 0) with 0.
      apply Qle_shift_div_l; [apply pow2_pos|]. rewrite Qmult_0_l. apply Qabs_nonneg. }
    rewrite Hv. destruct (Qle_bool 0 x) eqn:E.
    + split; intros; [assumption|]. apply Qle_bool_iff in E.
      exfalso. apply Hx. lra.
    + split; intros; [|lra]. apply Qle_bool_iff in H. congruence.
Qed.

Lemma ilog2_unique (q : Q) (e : Z) :
  0 < q -> 2 ^ e <= q -> q < 2 ^ (e + 1) -> Binary64.ilog2 q = e.
Proof.
  intros Hq Hl Hu. destruct (ilog2_spec q Hq) as [Hl' Hu'].
  destruct (Z.lt_trichotomy (Binary64.ilog2 q) e) as [H | [H | H]]; [|assumption|].
  - pose proof (pow2_le (Binary64.ilog2 q + 1) e ltac:(lia)). lra.
  - pose proof (pow2_le (e + 1) (Binary64.ilog2 q) ltac:(lia)). lra.
Qed.

Lemma roundTiesToEven_Qeq (x y : Q) :
  x == y -> Binary64.roundTiesToEven x = Binary64.roundTiesToEven y.
Proof.
  intros H. unfold Binary64.roundTiesToEven. cbv zeta.
  rewrite (Qfloor_comp _ _ H).
  assert (E : (x - inject_Z (Qfloor y) ?= 1 # 2) = (y - inject_Z (Qfloor y) ?= 1 # 2))
    by now rewrite H.
  now rewrite E.
Qed.

(** The Number value is that of the real, however the real is written as
    a fraction. *)
Lemma Number_value_Qeq (x y : Q) :
  x == y -> Binary64.Number_value x = Binary64.Number_value y.
Proof.
  intros H. unfold Binary64.Number_value.
  rewrite (Qeqb_comp _ _ H _ _ (Qeq_refl 0)).
  destruct (Qeq_bool y 0) eqn:E0; [reflexivity|]. cbv zeta.
  apply Qeq_bool_neq in E0.
  assert (Ha : Qabs x == Qabs y) by now rewrite H.
  assert (He : Binary64.ilog2 (Qabs x) = Binary64.ilog2 (Qabs y)).
  { pose proof (Qabs_pos_lt y E0) as Hy. destruct (ilog2_spec _ Hy) as [Hl Hu].
    apply ilog2_unique; rewrite Ha; assumption. }
  rewrite He. set (e := Z.max (Binary64.ilog2 (Qabs y) - 52) (-1074)).
  assert (Hr : Binary64.roundTiesToEven (Qabs x / 2 ^ e)
               = Binary64.roundTiesToEven (Qabs y / 2 ^ e)).
  { apply roundTiesToEven_Qeq. now rewrite Ha. }
  rewrite Hr, (Qleb_comp _ _ (Qeq_refl 0) _ _ H).
  destruct (Qle_bool (2 ^ 1024) _); [reflexivity|].
  reflexivity.
Qed.

End Rounding.

(** ** Binary64: sums *)

Section Sums.
Local Open Scope Q_scope.

Lemma unit_roundoff_pos : 0 < unit_roundoff.
Proof. apply pow2_pos. Qed.

Lemma half_least_pos : 0 < half_least.
Proof. apply pow2_pos. Qed.

Lemma growth_0 : growth 0 == 1.
Proof. reflexivity. Qed.

Lemma growth_S (n : nat) : growth (S n) == growth n * (1 + unit_roundoff).
Proof.
  unfold growth. rewrite Nat2Z.inj_succ, <- Z.add_1_r, Qpower_plus.
  - change ((1 + unit_roundoff) ^ 1) with (1 + unit_roundoff). reflexivity.
  - pose proof unit_roundoff_pos. lra.
Qed.

Lemma growth_ge_1 (n : nat) : 1 <= growth n.
Proof.
  induction n as [|n IH]; [rewrite growth_0; apply Qle_refl|].
  rewrite growth_S. pose proof unit_roundoff_pos. nra.
Qed.

Lemma growth_le (n m : nat) : (n <= m)%nat -> growth n <= growth m.
Proof.
  induction 1 as [|m _ IH]; [apply Qle_refl|].
  rewrite growth_S. pose proof unit_roundoff_pos. pose proof (growth_ge_1 m). nra.
Qed.

Lemma sum_of_magnitudes_nonneg (l : list Transaction) : 0 <= sum_of_magnitudes l.
Proof.
  induction l as [|t l IH]; [apply Qle_refl|]. cbn [sum_of_magnitudes fold_right].
  fold (sum_of_magnitudes l).
  assert (0 <= magnitude (Tx.amount t)).
  { destruct (Tx.amount t); try apply Qle_refl. apply Qabs_nonneg. }
  lra.
Qed.

Lemma sum_of_magnitudes_app (l l' : list Transaction) :
  sum_of_magnitudes (l ++ l') == sum_of_magnitudes l + sum_of_magnitudes l'.
Proof.
  unfold sum_of_magnitudes.
  induction l as [|t l IH]; cbn [List.app fold_right]; lra.
Qed.

Lemma exact_sum_app (l l' : list Transaction) :
  exact_sum (l ++ l') == exact_sum l + exact_sum l'.
Proof.
  unfold exact_sum.
  induction l as [|t l IH]; cbn [List.app fold_right]; lra.
Qed.

Lemma exact_sum_magnitude (l : list Transaction) :
  Qabs (exact_sum l) <= sum_of_magnitudes l.
Proof.
  induction l as [|t l IH]; [apply Qle_refl|].
  cbn [exact_sum sum_of_magnitudes fold_right].
  fold (exact_sum l). fold (sum_of_magnitudes l).
  eapply Qle_trans; [apply Qabs_triangle|].
  assert (Qabs (value (Tx.amount t)) <= magnitude (Tx.amount t)).
  { destruct (Tx.amount t); apply Qle_refl. }
  lra.
Qed.

(** One more rounded addition. *)
Lemma step_bound (u h G A a e K z : Q) :
  0 <= u -> 0 <= h -> 1 <= G -> 0 <= A -> 0 <= a -> 0 <= K ->
  e <= (G - 1) * A + K * G * h ->
  z <= e + u * (A + a + e) + h ->
  z <= (G * (1 + u) - 1) * (A + a) + (K + 1) * (G * (1 + u)) * h.
Proof.
  intros Hu Hh HG HA Ha HK He Hz.
  assert (P1 : 0 <= (G - 1) * a) by nra.
  assert (P2 : 0 <= u * ((G - 1) * a)) by nra.
  assert (P3 : 0 <= (G - 1) * h) by nra.
  assert (P4 : 0 <= u * (G * h)) by nra.
  assert (P5 : 0 <= u * ((G - 1) * A + K * G * h - e)) by nra.
  nra.
Qed.

Lemma sum_amounts_snoc64 (l : list Transaction) (t : Transaction) :
  Binary64.sum_amounts (l ++ [t])
  = Binary64.add (Binary64.sum_amounts l) (Tx.amount t).
Proof. unfold Binary64.sum_amounts. now rewrite fold_left_app. Qed.

(** A finite rounded sum has finite terms. *)
Lemma add_finite (s a : number) (r : Qc) :
  Binary64.add s a = Finite r ->
  exists x y : Qc, s = Finite x /\ a = Finite y
                   /\ Binary64.Number_value (x + y)%Qc = Finite r.
Proof.
  unfold Binary64.add.
  destruct s as [|[]|x], a as [|[]|y]; cbn [number_add Binary64.round Bool.eqb];
    try discriminate.
  intros H. now exists x, y.
Qed.

Lemma Qcplus_this (x y : Qc) : this (x + y)%Qc == x + y.
Proof. apply this_Q2Qc. Qed.

(** The rounded sum against the exact one. *)
Lemma sum_error (l : list Transaction) (s : Qc) :
  Binary64.sum_amounts l = Finite s ->
  Qabs (s - exact_sum l) <= sum_bound (List.length l) (sum_of_magnitudes l).
Proof.
  revert s. induction l as [|t l IH] using rev_ind; intros s H.
  - injection H as <-. unfold sum_bound. rewrite growth_0.
    cbn [List.length exact_sum sum_of_magnitudes fold_right Z.of_nat].
    rewrite this_Q2Qc. change (Qabs (0 - 0)) with 0.
    change (inject_Z 0) with 0. lra.
  - rewrite sum_amounts_snoc64 in H.
    apply add_finite in H as [x [y [Hx [Hy Hr]]]].
    specialize (IH x Hx). apply Number_value_error in Hr. rewrite Qcplus_this in Hr.
    pose proof (exact_sum_magnitude l) as HT.
    pose proof (sum_of_magnitudes_nonneg l) as HA.
    unfold sum_bound in *.
    rewrite exact_sum_app, sum_of_magnitudes_app, length_app.
    cbn [exact_sum sum_of_magnitudes fold_right List.length]. rewrite Hy.
    cbn [value magnitude].
    rewrite Nat.add_1_r, growth_S, Nat2Z.inj_succ, <- Z.add_1_r.
    rewrite inject_Z_plus. change (inject_Z 1) with 1.
    pose proof (growth_ge_1 (List.length l)) as HG.
    pose proof unit_roundoff_pos as Hu. pose proof half_least_pos as Hh.
    pose proof (Qabs_nonneg y) as Hy0.
    assert (HK : 0 <= inject_Z (Z.of_nat (List.length l))).
    { change 0 with (inject_Z 0). rewrite <- Zle_Qle. lia. }
    set (G := growth (List.length l)) in *.
    set (K := inject_Z (Z.of_nat (List.length l))) in *.
    set (A := sum_of_magnitudes l) in *. set (T := exact_sum l) in *.
    set (u := unit_roundoff) in *. set (h := half_least) in *.
    assert (Hq : Qabs (x + y) <= Qabs (x - T) + A + Qabs y).
    { setoid_replace (x + y) with ((x - T) + (T + y)) by ring.
      eapply Qle_trans; [apply Qabs_triangle|].
      pose proof (Qabs_triangle T y). lra. }
    assert (Hz : Qabs (s - (T + (y + 0))) <= Qabs (x - T) + u * (A + Qabs y + Qabs (x - T)) + h).
    { setoid_replace (s - (T + (y + 0))) with ((s - (x + y)) + (x - T)) by ring.
      eapply Qle_trans; [apply Qabs_triangle|].
      assert (u * Qabs (x + y) <= u * (Qabs (x - T) + A + Qabs y)) by nra. lra. }
    setoid_replace (Qabs y + 0) with (Qabs y) by ring.
    apply (step_bound u h G A (Qabs y) (Qabs (x - T)) K); try assumption; lra.
Qed.

End Sums.

(** ** Binary64: the range *)

Section Range.
Local Open Scope Q_scope.

Lemma pow2_lt_inv (a b : Z) : 2 ^ a < 2 ^ b -> (a < b)%Z.
Proof. intros H. apply (Qpower_lt_compat_l_inv 2); [assumption | reflexivity]. Qed.

Lemma MAX_VALUE_significand : Number_MAX_VALUE == inject_Z (2 ^ 53 - 1) * 2 ^ 971.
Proof.
  unfold Number_MAX_VALUE. replace 1024%Z with (53 + 971)%Z by reflexivity.
  rewrite pow2_add. change (inject_Z (2 ^ 53 - 1)) with (2 ^ 53 - 1). ring.
Qed.

Lemma MAX_VALUE_lt : Number_MAX_VALUE < 2 ^ 1024.
Proof. unfold Number_MAX_VALUE. pose proof (pow2_pos 971). lra. Qed.

Lemma MAX_VALUE_ge : 2 ^ 1023 <= Number_MAX_VALUE.
Proof.
  unfold Number_MAX_VALUE. pose proof (pow2_le 971 1023 ltac:(lia)).
  pose proof (pow2_succ 1023) as H1. change (1023 + 1)%Z with 1024%Z in H1. lra.
Qed.

(** A magnitude below [2 ^ (e + 53)] rounds, at the exponent [e], to at
    most that. *)
Lemma rounded_below (a : Q) (e : Z) :
  a <= 2 ^ (e + 53) ->
  inject_Z (Binary64.roundTiesToEven (a / 2 ^ e)) * 2 ^ e <= 2 ^ (e + 53).
Proof.
  intros Ha. pose proof (pow2_pos e) as He.
  rewrite pow2_add in *.
  assert (Hm : (Binary64.roundTiesToEven (a / 2 ^ e) <= 2 ^ 53)%Z).
  { apply roundTiesToEven_le. change (inject_Z (2 ^ 53)) with (2 ^ 53).
    apply Qle_shift_div_r; [assumption|]. lra. }
  rewrite Zle_Qle in Hm. change (inject_Z (2 ^ 53)) with (2 ^ 53) in Hm.
  set (m := inject_Z _) in *. set (E := 2 ^ e) in *. set (P := 2 ^ 53) in *.
  clearbody m E P. nra.
Qed.

(** At the exponent 971 a magnitude up to the largest finite value rounds
    to at most that value. *)
Lemma rounded_top (a : Q) :
  a <= Number_MAX_VALUE ->
  inject_Z (Binary64.roundTiesToEven (a / 2 ^ 971)) * 2 ^ 971 <= Number_MAX_VALUE.
Proof.
  intros Ha. pose proof (pow2_pos 971) as He. rewrite MAX_VALUE_significand in *.
  assert (Hm : (Binary64.roundTiesToEven (a / 2 ^ 971) <= 2 ^ 53 - 1)%Z).
  { apply roundTiesToEven_le. apply Qle_shift_div_r; assumption. }
  rewrite Zle_Qle in Hm.
  set (m := inject_Z (Binary64.roundTiesToEven _)) in *. set (E := 2 ^ 971) in *.
  set (P := inject_Z (2 ^ 53 - 1)) in *.
  clearbody m E P. nra.
Qed.

(** A finite Number value is at most the largest finite value. *)
Lemma Number_value_le_MAX (x : Q) (v : Qc) :
  Binary64.Number_value x = Finite v -> Qabs v <= Number_MAX_VALUE.
Proof.
  intros H. pose proof (Number_value_sign x v H) as [Hp Hn].
  apply Number_value_finite in H as [[Hx Hv] | [Hx [e [w [He [Hw [Hlt Hv]]]]]]].
  - rewrite Hv. change (Qabs 0) with 0. pose proof MAX_VALUE_ge. pose proof (pow2_pos 1023). lra.
  - pose proof (Qabs_pos_lt x Hx) as Ha.
    destruct (ilog2_spec _ Ha) as [Hl Hu].
    assert (Hvw : Qabs v == w).
    { rewrite Hv. destruct (Qle_bool 0 x) eqn:E.
      - apply Qle_bool_iff in E. apply Qabs_pos. rewrite <- Hv. auto.
      - assert (E' : x <= 0).
        { apply Qlt_le_weak, Qnot_le_lt. rewrite <- Qle_bool_iff. congruence. }
        rewrite Qabs_opp. apply Qabs_pos. specialize (Hn E'). rewrite Hv in Hn. lra. }
    rewrite Hvw.
    destruct (Z_le_gt_dec e 970) as [He1 | He1].
    + assert (Hb : Qabs x <= 2 ^ (e + 53)).
      { apply Qlt_le_weak. eapply Qlt_le_trans; [exact Hu|]. apply pow2_le. lia. }
      pose proof (rounded_below _ _ Hb) as Hr. rewrite <- Hw in Hr.
      pose proof (pow2_le (e + 53) 1023 ltac:(lia)). pose proof MAX_VALUE_ge. lra.
    + destruct (Z.eq_dec e 971) as [-> | He2].
      * rewrite MAX_VALUE_significand.
        replace 1024%Z with (53 + 971)%Z in Hlt by reflexivity.
        rewrite pow2_add in Hlt. pose proof (pow2_pos 971) as HE.
        assert (Hm : (Binary64.roundTiesToEven (Qabs x / 2 ^ 971) < 2 ^ 53)%Z).
        { rewrite Zlt_Qlt. change (inject_Z (2 ^ 53)) with (2 ^ 53).
          rewrite Hw in Hlt.
          set (m := inject_Z _) in *. set (E := 2 ^ 971) in *. set (P := 2 ^ 53) in *.
          clearbody m E P. nra. }
        assert (Hm' : (Binary64.roundTiesToEven (Qabs x / 2 ^ 971) <= 2 ^ 53 - 1)%Z) by lia.
        rewrite Zle_Qle in Hm'. rewrite Hw.
        set (m := inject_Z (Binary64.roundTiesToEven _)) in *. set (E := 2 ^ 971) in *.
        set (P := inject_Z (2 ^ 53 - 1)) in *.
        clearbody m E P. nra.
      * exfalso.
        assert (He3 : e = (Binary64.ilog2 (Qabs x) - 52)%Z) by lia.
        assert (Hx52 : 2 ^ (52 + e) <= Qabs x).
        { replace (52 + e)%Z with (Binary64.ilog2 (Qabs x)) by lia. assumption. }
        rewrite pow2_add in Hx52. pose proof (pow2_pos e) as HE.
        assert (Hm : (2 ^ 52 <= Binary64.roundTiesToEven (Qabs x / 2 ^ e))%Z).
        { apply roundTiesToEven_ge. change (inject_Z (2 ^ 52)) with (2 ^ 52).
          apply Qle_shift_div_l; assumption. }
        rewrite Zle_Qle in Hm. change (inject_Z (2 ^ 52)) with (2 ^ 52) in Hm.
        pose proof (pow2_le 1024 (52 + e) ltac:(lia)) as Hp2. rewrite pow2_add in Hp2.
        rewrite Hw in Hlt.
        set (m := inject_Z _) in *. set (E := 2 ^ e) in *. set (P := 2 ^ 52) in *.
        set (M := 2 ^ 1024) in *.
        clearbody m E P M. nra.
Qed.

(** A real of magnitude up to the largest finite value has a finite Number
    value. *)
Lemma Number_value_bounded (x : Q) :
  Qabs x <= Number_MAX_VALUE -> exists v, Binary64.Number_value x = Finite v.
Proof.
  intros Hb. unfold Binary64.Number_value.
  destruct (Qeq_bool x 0) eqn:E0; [now eexists|]. cbv zeta.
  apply Qeq_bool_neq in E0. pose proof (Qabs_pos_lt x E0) as Ha.
  destruct (ilog2_spec _ Ha) as [Hl Hu].
  set (e := Z.max (Binary64.ilog2 (Qabs x) - 52) (-1074)).
  assert (HL : (Binary64.ilog2 (Qabs x) < 1024)%Z).
  { apply pow2_lt_inv. pose proof MAX_VALUE_lt. lra. }
  assert (Hw : inject_Z (Binary64.roundTiesToEven (Qabs x / 2 ^ e)) * 2 ^ e < 2 ^ 1024).
  { destruct (Z_le_gt_dec e 970) as [He1 | He1].
    - assert (Hb' : Qabs x <= 2 ^ (e + 53)).
      { apply Qlt_le_weak. eapply Qlt_le_trans; [exact Hu|]. apply pow2_le. lia. }
      pose proof (rounded_below _ _ Hb').
      pose proof (pow2_le (e + 53) 1023 ltac:(lia)).
      pose proof MAX_VALUE_ge. pose proof MAX_VALUE_lt. lra.
    - replace e with 971%Z by lia.
      pose proof (rounded_top _ Hb). pose proof MAX_VALUE_lt. lra. }
  destruct (Qle_bool (2 ^ 1024) _) eqn:E1; [|now eexists].
  apply Qle_bool_iff in E1. lra.
Qed.

End Range.

(** ** Binary64: the decomposition *)

Section Decomposition64.
Local Open Scope Q_scope.

Lemma zero_this : this (Q2Qc 0) == 0.
Proof. reflexivity. Qed.

Lemma Qc_ltb_Qlt (x y : Qc) : Qc_ltb x y = true <-> x < y.
Proof. apply Qc_ltb_lt. Qed.

Lemma Qc_ltb_Qle (x y : Qc) : Qc_ltb x y = false <-> y <= x.
Proof.
  split; intros H.
  - apply Qnot_lt_le. intros Hlt. apply Qc_ltb_Qlt in Hlt. congruence.
  - destruct (Qc_ltb x y) eqn:E; [|reflexivity].
    apply Qc_ltb_Qlt in E. lra.
Qed.

(** A finite rounded sum has only finite terms. *)
Lemma sum_finite_amounts (l : list Transaction) (s : Qc) :
  Binary64.sum_amounts l = Finite s -> Forall (fun t => finite (Tx.amount t)) l.
Proof.
  revert s. induction l as [|t l IH] using rev_ind; intros s H; [constructor|].
  rewrite sum_amounts_snoc64 in H. apply add_finite in H as [x [y [Hx [Hy _]]]].
  apply Forall_app. split; [now apply (IH x)|].
  constructor; [now exists y | constructor].
Qed.

Lemma sum_le_MAX (l : list Transaction) (s : Qc) :
  Binary64.sum_amounts l = Finite s -> Qabs s <= Number_MAX_VALUE.
Proof.
  destruct l as [|t l] using rev_ind; intros H.
  - injection H as <-. rewrite zero_this. change (Qabs 0) with 0.
    pose proof MAX_VALUE_ge. pose proof (pow2_pos 1023). lra.
  - rewrite sum_amounts_snoc64 in H. apply add_finite in H as [x [y [_ [_ H]]]].
    now apply Number_value_le_MAX in H.
Qed.

(** A rounded sum of amounts above zero is not below zero. *)
Lemma sum_positive64 (l : list Transaction) (s : Qc) :
  Forall (fun t => number_gt (Tx.amount t) zero = true) l ->
  Binary64.sum_amounts l = Finite s -> 0 <= s.
Proof.
  revert s. induction l as [|t l IH] using rev_ind; intros s Hl H.
  - injection H as <-. rewrite zero_this. apply Qle_refl.
  - apply Forall_app in Hl as [Hl Ht]. apply Forall_inv in Ht.
    rewrite sum_amounts_snoc64 in H. apply add_finite in H as [x [y [Hx [Hy H]]]].
    specialize (IH x Hl Hx). rewrite Hy in Ht. unfold number_gt, number_lt, zero in Ht.
    apply Qc_ltb_Qlt in Ht. rewrite zero_this in Ht.
    apply Number_value_sign in H as [H _]. apply H. rewrite Qcplus_this. lra.
Qed.

Lemma exact_sum_cons (t : Transaction) (l : list Transaction) :
  exact_sum (t :: l) = value (Tx.amount t) + exact_sum l.
Proof. reflexivity. Qed.

Lemma sum_of_magnitudes_cons (t : Transaction) (l : list Transaction) :
  sum_of_magnitudes (t :: l) = magnitude (Tx.amount t) + sum_of_magnitudes l.
Proof. reflexivity. Qed.

(** The amounts above zero and the amounts below zero, in exact
    arithmetic: they make up the whole. *)
Lemma exact_parts (l : list Transaction) :
  exact_sum l
  == exact_sum (filter (fun t => number_gt (Tx.amount t) zero) l)
     + exact_sum (filter (fun t => number_lt (Tx.amount t) zero) l)
  /\ sum_of_magnitudes (filter (fun t => number_gt (Tx.amount t) zero) l)
     + sum_of_magnitudes (filter (fun t => number_lt (Tx.amount t) zero) l)
     <= sum_of_magnitudes l
  /\ (List.length (filter (fun t => number_gt (Tx.amount t) zero) l)
      + List.length (filter (fun t => number_lt (Tx.amount t) zero) l)
      <= List.length l)%nat
  /\ exact_sum (filter (fun t => number_lt (Tx.amount t) zero) l) <= 0.
Proof.
  induction l as [|t l [IH1 [IH2 [IH3 IH4]]]].
  - cbn. repeat split; try lra. lia.
  - cbn [filter].
    assert (Hm : 0 <= magnitude (Tx.amount t)).
    { destruct (Tx.amount t); try apply Qle_refl. apply Qabs_nonneg. }
    destruct (number_gt (Tx.amount t) zero) eqn:Egt.
    + rewrite (number_gt_not_lt _ Egt).
      rewrite !exact_sum_cons, !sum_of_magnitudes_cons. cbn [List.length].
      repeat split; try lra. lia.
    + destruct (number_lt (Tx.amount t) zero) eqn:Elt.
      * rewrite ?exact_sum_cons, ?sum_of_magnitudes_cons. cbn [List.length].
        assert (Hv : value (Tx.amount t) <= 0).
        { destruct (Tx.amount t) as [| |q]; try apply Qle_refl.
          unfold number_lt, zero in Elt. apply Qc_ltb_Qlt in Elt.
          rewrite zero_this in Elt. cbn [value]. lra. }
        repeat split; try lra. lia.
      * rewrite ?exact_sum_cons, ?sum_of_magnitudes_cons. cbn [List.length].
        assert (Hv : value (Tx.amount t) == 0).
        { destruct (Tx.amount t) as [| |q]; try reflexivity.
          unfold number_gt, number_lt, zero in Egt, Elt.
          apply Qc_ltb_Qle in Egt, Elt. rewrite zero_this in Egt, Elt. cbn [value]. lra. }
        repeat split; try lra. lia.
Qed.

Lemma Math_abs_finite (a : number) (o : Qc) :
  Math_abs a = Finite o -> exists x : Qc, a = Finite x /\ o == Qabs x.
Proof.
  destruct a as [| |x]; cbn [Math_abs]; try discriminate.
  destruct (Qc_ltb x (Q2Qc 0)) eqn:E; intros H; injection H as <-; exists x;
    (split; [reflexivity|]).
  - apply Qc_ltb_Qlt in E. rewrite zero_this in E.
    rewrite Qabs_neg by lra. apply this_Q2Qc.
  - apply Qc_ltb_Qle in E. rewrite zero_this in E.
    rewrite Qabs_pos by lra. reflexivity.
Qed.

Lemma sum_bound_growth (n m : nat) (A : Q) :
  (n <= m)%nat -> 0 <= A ->
  sum_bound n A
  <= (growth m - 1) * A + inject_Z (Z.of_nat n) * growth m * half_least.
Proof.
  intros Hnm HA. unfold sum_bound.
  pose proof (growth_le n m Hnm) as HG. pose proof (growth_ge_1 n) as H1.
  pose proof half_least_pos as Hh.
  assert (HK : 0 <= inject_Z (Z.of_nat n)).
  { change 0 with (inject_Z 0). rewrite <- Zle_Qle. lia. }
  set (G := growth n) in *. set (G' := growth m) in *.
  set (K := inject_Z (Z.of_nat n)) in *. set (h := half_least) in *.
  clearbody G G' K h.
  assert (0 <= (G' - G) * A) by nra.
  assert (0 <= K * h) by nra.
  assert (0 <= (K * h) * (G' - G)) by nra.
  nra.
Qed.

(** The arithmetic of the last step. *)
Lemma decomposition_bound (u h G A K Ap An Kp Kn ei eo en z : Q) :
  0 <= u -> 0 <= h -> 1 <= G -> 0 <= Ap -> 0 <= An -> 0 <= Kp -> 0 <= Kn ->
  Ap + An <= A -> Kp + Kn <= K ->
  0 <= ei -> 0 <= eo ->
  ei <= (G - 1) * Ap + Kp * G * h ->
  eo <= (G - 1) * An + Kn * G * h ->
  en <= (G - 1) * A + K * G * h ->
  z <= u * (A + ei + eo) + h + ei + eo + en ->
  z <= 2 * (G * (1 + u) - 1) * A + (2 * K + 1) * (G * (1 + u)) * h.
Proof.
  intros Hu Hh HG HAp HAn HKp HKn HA HK Hei0 Heo0 Hei Heo Hen Hz.
  assert (P1 : 0 <= (G - 1) * (A - Ap - An)) by (apply Qmult_le_0_compat; lra).
  assert (P2 : 0 <= G * h) by (apply Qmult_le_0_compat; lra).
  assert (P3 : 0 <= (K - Kp - Kn) * (G * h)) by (apply Qmult_le_0_compat; lra).
  assert (HB : ei + eo <= (G - 1) * A + K * G * h) by lra.
  assert (P4 : 0 <= u * ((G - 1) * A + K * G * h - (ei + eo)))
    by (apply Qmult_le_0_compat; lra).
  assert (P5 : 0 <= G * u) by (apply Qmult_le_0_compat; lra).
  assert (P6 : 0 <= A * (G * u)) by (apply Qmult_le_0_compat; lra).
  assert (P7 : 0 <= K * (G * h)) by (apply Qmult_le_0_compat; lra).
  assert (P8 : 0 <= u * (K * (G * h))) by (apply Qmult_le_0_compat; lra).
  assert (P9 : 0 <= u * (G * h)) by (apply Qmult_le_0_compat; lra).
  assert (P10 : 0 <= (G - 1) * h) by (apply Qmult_le_0_compat; lra).
  lra.
Qed.

Lemma tolerance_growth (n : nat) (A : Q) :
  tolerance n A
  == 2 * (growth n * (1 + unit_roundoff) - 1) * A
     + (2 * inject_Z (Z.of_nat n) + 1) * (growth n * (1 + unit_roundoff)) * half_least.
Proof.
  unfold tolerance. rewrite <- growth_S. unfold growth.
  rewrite Nat2Z.inj_succ, <- Z.add_1_r, inject_Z_plus, inject_Z_mult.
  reflexivity.
Qed.

(** The three totals of any list of transactions, when finite. *)
Lemma decomposition64 (V : list Transaction) (i o n : Qc) :
  Binary64.totalIncoming V = Finite i ->
  Binary64.totalOutgoing V = Finite o ->
  Binary64.sum_amounts V = Finite n ->
  within (tolerance (List.length V) (sum_of_magnitudes V))
         (Binary64.sub (Finite i) (Finite o)) (Finite n).
Proof.
  intros Hi Ho Hn. unfold Binary64.totalIncoming, Binary64.totalOutgoing in *.
  apply Math_abs_finite in Ho as [o' [Ho' Ho]].
  destruct (exact_parts V) as [HS [HA [HL HN]]].
  set (P := filter (fun t => number_gt (Tx.amount t) zero) V) in *.
  set (N := filter (fun t => number_lt (Tx.amount t) zero) V) in *.
  pose proof (sum_error _ _ Hi) as Ei. pose proof (sum_error _ _ Ho') as Eo.
  pose proof (sum_error _ _ Hn) as En.
  pose proof (sum_le_MAX _ _ Hi) as Mi. pose proof (sum_le_MAX _ _ Ho') as Mo.
  assert (Pi : 0 <= i).
  { apply (sum_positive64 P); [|assumption].
    apply (Forall_filter_holds (fun t => number_gt (Tx.amount t) zero)). }
  assert (Hsub : this (i + - o)%Qc == i - o).
  { rewrite Qcplus_this. unfold Qminus. apply Qplus_comp; [reflexivity|]. apply this_Q2Qc. }
  assert (Hfin : exists d, Binary64.Number_value (i + - o)%Qc = Finite d).
  { apply Number_value_bounded. rewrite Hsub, Ho.
    pose proof (Qabs_nonneg o'). rewrite (Qabs_pos i Pi) in Mi.
    apply Qabs_Qle_condition. split; lra. }
  destruct Hfin as [d Hd]. exists d, n.
  split; [exact Hd|]. split; [reflexivity|].
  apply Number_value_error in Hd. rewrite Hsub in Hd.
  pose proof (sum_bound_growth (List.length P) (List.length V) _
                ltac:(lia) (sum_of_magnitudes_nonneg P)) as Bi.
  pose proof (sum_bound_growth (List.length N) (List.length V) _
                ltac:(lia) (sum_of_magnitudes_nonneg N)) as Bo.
  unfold sum_bound in En. rewrite tolerance_growth.
  pose proof (sum_of_magnitudes_nonneg P) as HAp.
  pose proof (sum_of_magnitudes_nonneg N) as HAn.
  pose proof (exact_sum_magnitude V) as HSA.
  pose proof (growth_ge_1 (List.length V)) as HG.
  pose proof unit_roundoff_pos as Hu. pose proof half_least_pos as Hh.
  assert (HKp : 0 <= inject_Z (Z.of_nat (List.length P))).
  { change 0 with (inject_Z 0). rewrite <- Zle_Qle. lia. }
  assert (HKn : 0 <= inject_Z (Z.of_nat (List.length N))).
  { change 0 with (inject_Z 0). rewrite <- Zle_Qle. lia. }
  assert (HK : inject_Z (Z.of_nat (List.length P)) + inject_Z (Z.of_nat (List.length N))
               <= inject_Z (Z.of_nat (List.length V))).
  { rewrite <- inject_Z_plus, <- Zle_Qle. lia. }
  assert (HoN : Qabs (o - - exact_sum N) <= Qabs (o' - exact_sum N)).
  { rewrite Ho. rewrite <- (Qabs_neg (exact_sum N)) by assumption.
    apply Qabs_Qle_condition. split.
    - pose proof (Qabs_triangle_reverse (exact_sum N) o') as H.
      rewrite Qabs_Qminus in H. lra.
    - pose proof (Qabs_triangle_reverse o' (exact_sum N)). lra. }
  set (ei := Qabs (i - exact_sum P)) in *. set (eo := Qabs (o' - exact_sum N)) in *.
  set (en := Qabs (n - exact_sum V)) in *.
  assert (Hq : Qabs (i - o) <= sum_of_magnitudes V + ei + eo).
  { setoid_replace (i - o)
      with ((i - exact_sum P) + - (o - - exact_sum N) + exact_sum V) by (rewrite HS; ring).
    eapply Qle_trans; [apply Qabs_triangle|].
    eapply Qle_trans; [apply Qplus_le_l, Qabs_triangle|].
    rewrite Qabs_opp. fold ei. lra. }
  assert (Hz : Qabs (d - n)
               <= unit_roundoff * (sum_of_magnitudes V + ei + eo) + half_least
                  + ei + eo + en).
  { setoid_replace (d - n)
      with ((d - (i - o)) + (i - exact_sum P) + - (o - - exact_sum N) + - (n - exact_sum V))
      by (rewrite HS; ring).
    eapply Qle_trans; [apply Qabs_triangle|].
    eapply Qle_trans; [apply Qplus_le_l, Qabs_triangle|].
    eapply Qle_trans; [apply Qplus_le_l, Qplus_le_l, Qabs_triangle|].
    rewrite !Qabs_opp. fold ei en.
    assert (unit_roundoff * Qabs (i - o)
            <= unit_roundoff * (sum_of_magnitudes V + ei + eo)) by nra.
    lra. }
  apply (decomposition_bound unit_roundoff half_least (growth (List.length V))
           (sum_of_magnitudes V) (inject_Z (Z.of_nat (List.length V)))
           (sum_of_magnitudes P) (sum_of_magnitudes N)
           (inject_Z (Z.of_nat (List.length P))) (inject_Z (Z.of_nat (List.length N)))
           ei eo en);
    try assumption; try lra; try apply Qabs_nonneg.
Qed.

(** Up to 2^52 roundings in a row the growth is at most linear. *)
Lemma growth_linear (k : nat) :
  2 * inject_Z (Z.of_nat k) * unit_roundoff <= 1 ->
  growth k <= 1 + 2 * inject_Z (Z.of_nat k) * unit_roundoff.
Proof.
  pose proof unit_roundoff_pos as Hu.
  induction k as [|k IH]; intros H.
  - rewrite growth_0. change (inject_Z (Z.of_nat 0)) with 0. lra.
  - rewrite Nat2Z.inj_succ, <- Z.add_1_r, inject_Z_plus in *.
    change (inject_Z 1) with 1 in *.
    assert (HK : 0 <= inject_Z (Z.of_nat k)).
    { change 0 with (inject_Z 0). rewrite <- Zle_Qle. lia. }
    set (K := inject_Z (Z.of_nat k)) in *.
    assert (P : 0 <= K * unit_roundoff) by (apply Qmult_le_0_compat; lra).
    rewrite growth_S. specialize (IH ltac:(lra)).
    pose proof (growth_ge_1 k) as HG.
    set (G := growth k) in *. set (u := unit_roundoff) in *. clearbody G K u.
    assert (P1 : 0 <= (1 + 2 * K * u - G) * (1 + u)) by (apply Qmult_le_0_compat; lra).
    assert (P2 : 0 <= u * (1 - 2 * K * u - 2 * u) + u * (2 * u)) by nra.
    nra.
Qed.

(** For fewer than 2^52 transactions the tolerance is at most [n + 1]
    times 2^-51 of the summed magnitude, and [2n + 1] times the least
    positive value. *)
Lemma tolerance_linear (n : nat) (A : Q) :
  (Z.of_nat n + 1 <= 2 ^ 52)%Z -> 0 <= A ->
  tolerance n A
  <= inject_Z (Z.of_nat n + 1) * 2 ^ (-51) * A + inject_Z (2 * Z.of_nat n + 1) * 2 ^ (-1074).
Proof.
  intros Hn HA. rewrite tolerance_growth, <- growth_S.
  assert (Hu : 2 ^ (-51) == 4 * unit_roundoff) by reflexivity.
  assert (Hh : 2 ^ (-1074) == 2 * half_least) by reflexivity.
  rewrite Hu, Hh.
  assert (H52 : inject_Z (2 ^ 52) * (2 * unit_roundoff) == 1) by reflexivity.
  assert (HS : inject_Z (Z.of_nat (S n)) <= inject_Z (2 ^ 52)).
  { rewrite <- Zle_Qle. lia. }
  pose proof unit_roundoff_pos as Hup. pose proof half_least_pos as Hhp.
  assert (Hlin : 2 * inject_Z (Z.of_nat (S n)) * unit_roundoff <= 1).
  { generalize dependent (inject_Z (2 ^ 52)). intros. nra. }
  pose proof (growth_linear (S n) Hlin) as HG.
  pose proof (growth_ge_1 (S n)) as HG1.
  rewrite !inject_Z_plus, inject_Z_mult.
  rewrite Nat2Z.inj_succ, <- Z.add_1_r, inject_Z_plus in HS, Hlin, HG.
  change (inject_Z 1) with 1 in *. change (inject_Z 2) with 2.
  assert (HK : 0 <= inject_Z (Z.of_nat n)).
  { change 0 with (inject_Z 0). rewrite <- Zle_Qle. lia. }
  set (K := inject_Z (Z.of_nat n)) in *. set (G := growth (S n)) in *.
  set (u := unit_roundoff) in *. set (h := half_least) in *. clearbody G K u h.
  assert (P1 : 0 <= (1 + 2 * (K + 1) * u - G) * A) by (apply Qmult_le_0_compat; lra).
  assert (P2 : 0 <= (2 - G) * ((2 * K + 1) * h)).
  { apply Qmult_le_0_compat; [lra|]. apply Qmult_le_0_compat; lra. }
  nra.
Qed.

End Decomposition64.

(** ** The decomposition of the net amount *)

Section NetAmount.
Import Dashboard.

Lemma accumulate_last64 (l : list Transaction) (c : number) :
  l <> [] ->
  exists t, nth_error (Binary64.accumulate c l)
                      (List.length (Binary64.accumulate c l) - 1) = Some t
            /\ Tx.cumulativeAmount t
               = fold_left (fun sum t => Binary64.add sum (Tx.amount t))
                           (Binary64.accumulate c l) c.
Proof.
  revert c. induction l as [|x l IH]; intros c Hne; [now elim Hne|].
  destruct l as [|y l].
  - eexists. split; reflexivity.
  - destruct (IH (Binary64.add c (Tx.amount x))) as [t [Hn Hc]]; [discriminate|].
    exists t. split; [|exact Hc].
    rewrite <- Hn.
    replace (List.length (Binary64.accumulate c (x :: y :: l)) - 1)%nat
      with (S (List.length (Binary64.accumulate (Binary64.add c (Tx.amount x)) (y :: l)) - 1))
      by (cbn [Binary64.accumulate List.length]; lia).
    reflexivity.
Qed.

(** The net amount is the rounded sum of the amounts of the view. *)
Lemma netAmount_accumulate64 (l : list Transaction) :
  netAmount (Binary64.accumulate zero l)
  = Binary64.sum_amounts (Binary64.accumulate zero l).
Proof.
  destruct l as [|x l]; [reflexivity|].
  destruct (accumulate_last64 (x :: l) zero) as [t [Hn Hc]]; [discriminate|].
  unfold netAmount. rewrite Hn, Hc. reflexivity.
Qed.

(** In exact arithmetic a NaN amount makes the sum NaN. *)
Lemma sum_amounts_not_NaN (l : list Transaction) :
  sum_amounts l <> NaN -> Forall (fun t => Tx.amount t <> NaN) l.
Proof.
  induction l as [|t l IH] using rev_ind; intros H; [constructor|].
  rewrite sum_amounts_snoc in H. apply Forall_app. split.
  - apply IH. intros E. apply H. now rewrite E.
  - constructor; [|constructor]. intros E. apply H. rewrite E.
    now destruct (sum_amounts l) as [|[]|].
Qed.

Lemma number_strict_eq_refl (a : number) : a <> NaN -> number_strict_eq a a = true.
Proof.
  destruct a as [|s|x]; intros H; [now elim H | apply eqb_reflx |].
  cbn [number_strict_eq]. now destruct (Qc_eq_dec x x).
Qed.

End NetAmount.

(** In binary64 the two sides can differ for amounts as plain as 0.1, -0.3
    and 0.2: the net amount is 2^-55, incoming less outgoing 2^-54. *)
Example rounding_parts_the_sides :
  let view := @Binary64.transactions (JSDate.fixed_offset 0) rounded_payments ["all"] "" "" in
  Dashboard.netAmount view = Finite (Q2Qc (2 ^ (-55)))
  /\ Binary64.sub (Binary64.totalIncoming view) (Binary64.totalOutgoing view)
     = Finite (Q2Qc (2 ^ (-54))).
Proof. split; apply Finite_Q2Qc; vm_compute; reflexivity. Qed.

(** C8, as the specification words it, fails, in three ways.  A completed
    row whose amount does not parse has the amount NaN and passes the
    filter; it counts in neither total and makes the net amount NaN: for
    the one row of [unparseable_amount_file], incoming less outgoing is 0.
    Amounts of plus and minus infinity make both sides NaN, which equals
    nothing.  And over binary64 finite amounts can overflow one total and not
    the net amount: four amounts of 1e308, in and out in turn, have the net
    amount 0 and both totals infinite, so that their difference is NaN. *)
Lemma decomposition_fails :
  (number_strict_eq
     (number_sub
        (Dashboard.totalIncoming
           (@Dashboard.transactions (JSDate.fixed_offset 0)
              (parsed_rows unparseable_amount_file) ["all"] "" ""))
        (Dashboard.totalOutgoing
           (@Dashboard.transactions (JSDate.fixed_offset 0)
              (parsed_rows unparseable_amount_file) ["all"] "" "")))
     (Dashboard.netAmount
        (@Dashboard.transactions (JSDate.fixed_offset 0)
           (parsed_rows unparseable_amount_file) ["all"] "" "")) = false
   /\ ~ (exists tol,
          within tol
            (Binary64.sub
               (Binary64.totalIncoming
                  (@Binary64.transactions (JSDate.fixed_offset 0)
                     (parsed_rows unparseable_amount_file) ["all"] "" ""))
               (Binary64.totalOutgoing
                  (@Binary64.transactions (JSDate.fixed_offset 0)
                     (parsed_rows unparseable_amount_file) ["all"] "" "")))
            (Dashboard.netAmount
               (@Binary64.transactions (JSDate.fixed_offset 0)
                  (parsed_rows unparseable_amount_file) ["all"] "" ""))))
  /\ (number_strict_eq
        (number_sub
           (Dashboard.totalIncoming
              (@Dashboard.transactions (JSDate.fixed_offset 0) infinite_payments ["all"] "" ""))
           (Dashboard.totalOutgoing
              (@Dashboard.transactions (JSDate.fixed_offset 0) infinite_payments ["all"] "" "")))
        (Dashboard.netAmount
           (@Dashboard.transactions (JSDate.fixed_offset 0) infinite_payments ["all"] "" ""))
      = false)
  /\ (Forall (fun t => finite (Raw.amount t)) overflowing_payments
      /\ Dashboard.netAmount
           (@Binary64.transactions (JSDate.fixed_offset 0) overflowing_payments ["all"] "" "")
         = zero
      /\ Binary64.sub
           (Binary64.totalIncoming
              (@Binary64.transactions (JSDate.fixed_offset 0) overflowing_payments ["all"] "" ""))
           (Binary64.totalOutgoing
              (@Binary64.transactions (JSDate.fixed_offset 0) overflowing_payments ["all"] "" ""))
         = NaN
      /\ ~ (exists tol,
             within tol
               (Binary64.sub
                  (Binary64.totalIncoming
                     (@Binary64.transactions (JSDate.fixed_offset 0)
                        overflowing_payments ["all"] "" ""))
                  (Binary64.totalOutgoing
                     (@Binary64.transactions (JSDate.fixed_offset 0)
                        overflowing_payments ["all"] "" "")))
               (Dashboard.netAmount
                  (@Binary64.transactions (JSDate.fixed_offset 0)
                     overflowing_payments ["all"] "" "")))).
Proof.
  assert (H1 : Dashboard.netAmount
                 (@Binary64.transactions (JSDate.fixed_offset 0)
                    (parsed_rows unparseable_amount_file) ["all"] "" "")
               = NaN) by (vm_compute; reflexivity).
  assert (H2 : Binary64.sub
                 (Binary64.totalIncoming
                    (@Binary64.transactions (JSDate.fixed_offset 0)
                       overflowing_payments ["all"] "" ""))
                 (Binary64.totalOutgoing
                    (@Binary64.transactions (JSDate.fixed_offset 0)
                       overflowing_payments ["all"] "" ""))
               = NaN) by (vm_compute; reflexivity).
  split; [split|split; [|split; [|split; [|split]]]].
  - vm_compute. reflexivity.
  - intros [tol [x [y [_ [Hy _]]]]]. rewrite H1 in Hy. discriminate.
  - vm_compute. reflexivity.
  - repeat constructor; eexists; vm_compute; reflexivity.
  - apply Finite_Q2Qc. vm_compute. reflexivity.
  - exact H2.
  - intros [tol [x [y [Hx _]]]]. rewrite H2 in Hx. discriminate.
Qed.

(** C8, amended.  Over exact arithmetic, for every view whose net amount
    is not NaN, the incoming total less the outgoing total equals the net
    amount.  Over binary64, for every view whose three totals are finite
    (no amount is NaN or infinite and no sum overflows), the incoming total
    less the outgoing total and the net amount are finite numbers no more
    than the tolerance apart: for [n] transactions whose magnitudes sum to
    [A], twice [((1 + u)^(n+1) - 1) * A] and [(2n+1) * (1 + u)^(n+1)] times
    [2^-1075], with [u = 2^-53].  The net amount is the running total of
    the last element, and 0 for the empty view. *)
Theorem incoming_outgoing_net {tz : HostTimeZone}
        (rawTransactions : list RawTransaction) (selectedMerchants : list string)
        (startDate endDate : string) :
  (Dashboard.netAmount
     (Dashboard.transactions rawTransactions selectedMerchants startDate endDate) <> NaN ->
   number_strict_eq
     (number_sub
        (Dashboard.totalIncoming
           (Dashboard.transactions rawTransactions selectedMerchants startDate endDate))
        (Dashboard.totalOutgoing
           (Dashboard.transactions rawTransactions selectedMerchants startDate endDate)))
     (Dashboard.netAmount
        (Dashboard.transactions rawTransactions selectedMerchants startDate endDate))
   = true)
  /\ (finite (Binary64.totalIncoming
                (Binary64.transactions rawTransactions selectedMerchants startDate endDate)) ->
      finite (Binary64.totalOutgoing
                (Binary64.transactions rawTransactions selectedMerchants startDate endDate)) ->
      finite (Dashboard.netAmount
                (Binary64.transactions rawTransactions selectedMerchants startDate endDate)) ->
      within
        (tolerance
           (List.length
              (Binary64.transactions rawTransactions selectedMerchants startDate endDate))
           (sum_of_magnitudes
              (Binary64.transactions rawTransactions selectedMerchants startDate endDate)))
        (Binary64.sub
           (Binary64.totalIncoming
              (Binary64.transactions rawTransactions selectedMerchants startDate endDate))
           (Binary64.totalOutgoing
              (Binary64.transactions rawTransactions selectedMerchants startDate endDate)))
        (Dashboard.netAmount
           (Binary64.transactions rawTransactions selectedMerchants startDate endDate))).
Proof.
  split.
  - unfold Dashboard.transactions. rewrite netAmount_accumulate. intros Hn.
    rewrite (incoming_minus_outgoing _ (sum_amounts_not_NaN _ Hn)).
    now apply number_strict_eq_refl.
  - unfold Binary64.transactions. rewrite netAmount_accumulate64.
    intros [i Hi] [o Ho] [n Hn]. rewrite Hi, Ho, Hn.
    now apply decomposition64.
Qed.

Lemma incoming_outgoing_net_witness :
  number_strict_eq
    (number_sub
       (Dashboard.totalIncoming
          (@Dashboard.transactions (JSDate.fixed_offset 0) rounded_payments ["all"] "" ""))
       (Dashboard.totalOutgoing
          (@Dashboard.transactions (JSDate.fixed_offset 0) rounded_payments ["all"] "" "")))
    (Dashboard.netAmount
       (@Dashboard.transactions (JSDate.fixed_offset 0) rounded_payments ["all"] "" ""))
  = true
  /\ within
       (tolerance
          (List.length
             (@Binary64.transactions (JSDate.fixed_offset 0) rounded_payments ["all"] "" ""))
          (sum_of_magnitudes
             (@Binary64.transactions (JSDate.fixed_offset 0) rounded_payments ["all"] "" "")))
       (Binary64.sub
          (Binary64.totalIncoming
             (@Binary64.transactions (JSDate.fixed_offset 0) rounded_payments ["all"] "" ""))
          (Binary64.totalOutgoing
             (@Binary64.transactions (JSDate.fixed_offset 0) rounded_payments ["all"] "" "")))
       (Dashboard.netAmount
          (@Binary64.transactions (JSDate.fixed_offset 0) rounded_payments ["all"] "" "")).
Proof.
  destruct (@incoming_outgoing_net (JSDate.fixed_offset 0) rounded_payments ["all"] "" "")
    as [Hexact Hrounded].
  split.
  - apply Hexact. vm_compute. discriminate.
  - apply Hrounded; eexists; vm_compute; reflexivity.
Defined.

(** ** Amounts, rounded *)

(** A literal has the Number value of what it denotes. *)
Lemma parseAmount_rounds (amountStr : string) :
  Binary64.parseAmount amountStr = Binary64.round (Dashboard.parseAmount amountStr).
Proof.
  unfold Binary64.parseAmount, Dashboard.parseAmount, Binary64.parseFloat.
  destruct (amountStr =? "")%string; [|reflexivity].
  symmetry. apply Finite_Q2Qc. reflexivity.
Qed.

(** X22.  A plain decimal amount of at most twenty digits is read as the
    binary64 value nearest to what it denotes, thousands separators and
    spaces apart: a field that, once commas and white space are removed,
    is an optional minus sign, a numeral, and possibly a point and
    decimals, is parsed to the Number value of the integer part plus the
    decimals over the matching power of ten, negated under a minus sign.
    (Twenty digits: up to there the language fixes the value of a
    literal.) *)
Theorem parseAmount_plain_decimal (amountStr : string) (negative point : bool)
        (I F : Decimal.uint) :
  I <> Decimal.Nil ->
  (Decimal.nb_digits I + Decimal.nb_digits F <= 20)%nat ->
  replace_commas_spaces amountStr
  = ((if negative then "-" else "") ++ numeral I
     ++ (if point then "." ++ numeral F else ""))%string ->
  Binary64.parseAmount amountStr
  = Binary64.Number_value
      ((if negative then Qopp else fun v => v)
         (if point
          then (inject_Z (numeral_value I)
                + inject_Z (numeral_value F)
                  / inject_Z (10 ^ Z.of_nat (Decimal.nb_digits F)))%Q
          else inject_Z (numeral_value I))).
Proof.
  intros HI _ H. rewrite parseAmount_rounds.
  destruct (plain_decimal_denotes amountStr negative I F HI) as [Hpoint Hint].
  assert (Hround : forall q : Q,
             Binary64.round ((if negative then number_neg else fun v => v) (Finite (Q2Qc q)))
             = Binary64.Number_value ((if negative then Qopp else fun v => v) q)).
  { intros q. destruct negative; cbn [Binary64.round number_neg]; apply Number_value_Qeq.
    - etransitivity; [apply this_Q2Qc|]. apply Qopp_comp, this_Q2Qc.
    - apply this_Q2Qc. }
  destruct point.
  - rewrite (Hpoint H). apply Hround.
  - rewrite append_empty in H. rewrite (Hint H). apply Hround.
Qed.

Lemma parseAmount_plain_decimal_witness :
  Binary64.parseAmount "-1,234.56"
  = Binary64.Number_value
      (- (inject_Z (numeral_value (D1 (D2 (D3 (D4 Nil)))))
          + inject_Z (numeral_value (D5 (D6 Nil)))
            / inject_Z (10 ^ Z.of_nat (Decimal.nb_digits (D5 (D6 Nil))))))%Q.
Proof.
  apply (parseAmount_plain_decimal "-1,234.56" true true
           (D1 (D2 (D3 (D4 Nil)))) (D5 (D6 Nil))).
  - discriminate.
  - cbn. lia.
  - reflexivity.
Defined.

(** The amount -1,234.56 is read as the binary64 value next to it. *)
Example parseAmount_1234_56 :
  Binary64.parseAmount "-1,234.56" = Finite (Q2Qc (- (2714826150374277 # 2199023255552))).
Proof. apply Finite_Q2Qc. vm_compute. reflexivity. Qed.
